(** * GSMArena incremental scraper: a shallow embedding and its properties

    The development follows the refactored scraper script (the module that
    defines [fetchWithScraperAPI], [getBrandProductLinks], [scrapeProduct]
    and [runIncrementalScraper]) and the two small scripts beside it: the
    one that rebuilds [seen_products.json] from the brand files, and the one
    that uploads the brand files to the SQL server.

    Strings are byte strings ([String.string]), the UTF-8 encoding of the
    script's strings; JavaScript objects used as
    dictionaries are finite maps ([gmap string _]); the module-level counter,
    the shared [seenProducts] object, the files and an observable event trace
    are threaded through a state-and-exception monad in which
    [process.exit] is a third, uncatchable outcome. *)

From Stdlib Require Import ZArith Ascii String List Bool Lia Sorted Permutation.
From stdpp Require Import base option list gmap strings pretty fin_maps.

Import ListNotations.
Local Open Scope string_scope.
Local Open Scope nat_scope.
Local Open Scope list_scope.

(** ** Strings as the script uses them *)

Module Str.

Definition chars (s : string) : list ascii := list_ascii_of_string s.
Definition of_chars (l : list ascii) : string := string_of_list_ascii l.

Definition between (lo hi : nat) (c : ascii) : bool :=
  (lo <=? nat_of_ascii c) && (nat_of_ascii c <=? hi).

(** [\d] *)
Definition is_digit (c : ascii) : bool := between 48 57 c.
Definition is_upper (c : ascii) : bool := between 65 90 c.
Definition is_lower (c : ascii) : bool := between 97 122 c.
(** [\w], the complement of which delimits [\b] *)
Definition is_word (c : ascii) : bool :=
  is_digit c || is_upper c || is_lower c || Ascii.eqb c "_".
Definition lower_char (c : ascii) : ascii :=
  if is_upper c then ascii_of_nat (nat_of_ascii c + 32) else c.

Definition is_byte (n : nat) (c : ascii) : bool := nat_of_ascii c =? n.

(** a byte that is a character of its own *)
Definition is_plain (c : ascii) : bool := nat_of_ascii c <? 128.

(** [s.toLowerCase()] on the UTF-8 text.  Besides [A] to [Z], two letters
    have a lower-case form with an ASCII letter in it: U+0130, which becomes
    [i] followed by U+0307, and the Kelvin sign U+212A, which becomes [k].
    Every other letter outside ASCII keeps its bytes here.  Its lower-case
    form has no ASCII character, so the tests of the script, which look for
    ASCII texts in what they lower-case, come out the same; the name of a
    brand file keeps such a letter as it is. *)
Fixpoint lower_chars (l : list ascii) : list ascii :=
  match l with
  | [] => []
  | c1 :: t1 =>
      match t1 with
      | [] => [lower_char c1]
      | c2 :: t2 =>
          if is_byte 196 c1 && is_byte 176 c2
          then "i"%char :: ascii_of_nat 204 :: ascii_of_nat 135 :: lower_chars t2
          else
            match t2 with
            | [] => lower_char c1 :: lower_chars t1
            | c3 :: t3 =>
                if is_byte 226 c1 && is_byte 132 c2 && is_byte 170 c3
                then "k"%char :: lower_chars t3
                else lower_char c1 :: lower_chars t1
            end
      end
  end.

Definition toLowerCase (s : string) : string := of_chars (lower_chars (chars s)).

(** [hay.includes(needle)] *)
Fixpoint includes (needle hay : string) : bool :=
  String.prefix needle hay ||
  match hay with
  | EmptyString => false
  | String _ t => includes needle t
  end.

(** [s.endsWith(suffix)] *)
Definition endsWith (suffix s : string) : bool :=
  String.prefix (of_chars (rev (chars suffix))) (of_chars (rev (chars s))).

Fixpoint take_while (p : ascii -> bool) (l : list ascii) : list ascii :=
  match l with
  | c :: t => if p c then c :: take_while p t else []
  | [] => []
  end.

Fixpoint drop_while (p : ascii -> bool) (l : list ascii) : list ascii :=
  match l with
  | c :: t => if p c then drop_while p t else l
  | [] => []
  end.

(** the code points [String.prototype.trim] removes, in UTF-8: the
    WhiteSpace and LineTerminator productions of ECMAScript, that is
    U+0009 to U+000D, U+0020, U+00A0, U+1680, U+2000 to U+200A, U+2028,
    U+2029, U+202F, U+205F, U+3000 and U+FEFF *)
Definition WHITE_SPACE : list (list nat) :=
  [ [9]; [10]; [11]; [12]; [13]; [32];
    [194; 160];
    [225; 154; 128];
    [226; 128; 128]; [226; 128; 129]; [226; 128; 130]; [226; 128; 131];
    [226; 128; 132]; [226; 128; 133]; [226; 128; 134]; [226; 128; 135];
    [226; 128; 136]; [226; 128; 137]; [226; 128; 138];
    [226; 128; 168]; [226; 128; 169];
    [226; 128; 175];
    [226; 129; 159];
    [227; 128; 128];
    [239; 187; 191] ].

(** [l] without its prefix [p] *)
Fixpoint strip (p l : list ascii) : option (list ascii) :=
  match p, l with
  | [], _ => Some l
  | a :: p', b :: l' => if Ascii.eqb a b then strip p' l' else None
  | _ :: _, [] => None
  end.

Fixpoint strip_any (ps : list (list ascii)) (l : list ascii) : option (list ascii) :=
  match ps with
  | [] => None
  | p :: ps' =>
      match strip p l with
      | Some r => Some r
      | None => strip_any ps' l
      end
  end.

(** drops the code points of [ps] from the front of [l]; every step drops
    a byte at least, so [length l] steps are enough *)
Fixpoint drop_all (fuel : nat) (ps : list (list ascii)) (l : list ascii) : list ascii :=
  match fuel with
  | 0 => l
  | S fuel' =>
      match strip_any ps l with
      | Some r => drop_all fuel' ps r
      | None => l
      end
  end.

(** [s.trim()]: white space is dropped at the front, then at the back (on
    the reversed text, with the byte sequences reversed) *)
Definition trim (s : string) : string :=
  let ws := map (map ascii_of_nat) WHITE_SPACE in
  let front := drop_all (length (chars s)) ws (chars s) in
  of_chars (rev (drop_all (length front) (map (@rev ascii) ws) (rev front))).

(** is [p] a prefix of [l], ignoring letter case (the [i] flag) *)
Fixpoint ci_prefix (p l : list ascii) : bool :=
  match p, l with
  | [], _ => true
  | a :: p', b :: l' => Ascii.eqb (lower_char a) (lower_char b) && ci_prefix p' l'
  | _ :: _, [] => false
  end.

Definition digit_val (c : ascii) : nat := nat_of_ascii c - 48.

(** [parseInt] on a string of decimal digits *)
Definition parseInt (l : list ascii) : nat :=
  fold_left (fun acc c => 10 * acc + digit_val c) l 0.

Definition is_empty (s : string) : bool :=
  match s with EmptyString => true | _ => false end.

End Str.

(** ** Configuration constants *)

Definition BASE : string := "https://www.gsmarena.com".
Definition MIN_LAUNCH_YEAR : nat := 2023.
Definition MAX_CREDITS : nat := 950.

Definition BLOCK_KEYWORDS : list string :=
  [ "captcha"; "access denied"; "unusual traffic"; "blocked";
    "forbidden"; "rate limit"; "too many requests" ].

(** ** Utility functions *)

(** [url.match(/-(\d+)\.php$/)]: the text must end in [.php]; before it comes
    the longest run of digits, which must be non-empty and preceded by a
    hyphen.  The digits are capture group 1. *)
Definition extractProductId (url : string) : option string :=
  match rev (Str.chars url) with
  | "p"%char :: "h"%char :: "p"%char :: "."%char :: r =>
      match Str.take_while Str.is_digit r, Str.drop_while Str.is_digit r with
      | d :: ds, "-"%char :: _ => Some (Str.of_chars (rev (d :: ds)))
      | _, _ => None
      end
  | _ => None
  end.

(** [BLOCK_KEYWORDS.some(keyword => lowerHtml.includes(keyword))] *)
Definition isBlocked (html : string) : bool :=
  let lowerHtml := Str.toLowerCase html in
  existsb (fun keyword => Str.includes keyword lowerHtml) BLOCK_KEYWORDS.

(** the nested object built by [parseProductPage]: section, then key *)
Abbreviation specsObj := (gmap string (gmap string string)).

(** one attempt of [/\b(20\d{2})\b/] at the head of [l]; [prev] tells whether
    the character before [l] is a word character *)
Definition year_here (prev : bool) (l : list ascii) : option nat :=
  match l with
  | "2"%char :: "0"%char :: d1 :: d2 :: rest =>
      if negb prev && Str.is_digit d1 && Str.is_digit d2 &&
         match rest with [] => true | c :: _ => negb (Str.is_word c) end
      then Some (Str.parseInt ["2"%char; "0"%char; d1; d2])
      else None
  | _ => None
  end.

(** leftmost match of [/\b(20\d{2})\b/] *)
Fixpoint find_year (prev : bool) (l : list ascii) : option nat :=
  match year_here prev l with
  | Some y => Some y
  | None =>
      match l with
      | [] => None
      | c :: t => find_year (Str.is_word c) t
      end
  end.

Definition extractLaunchYear (sp : specsObj) : option nat :=
  let launchSpec := default ∅ (sp !! "Launch") in
  let announced := default "" (launchSpec !! "Announced") in
  find_year false (Str.chars announced).

(** [specs[k] && Object.keys(specs[k]).length > 0] *)
Definition has_section (sp : specsObj) (k : string) : bool :=
  match sp !! k with
  | Some m => match map_to_list m with [] => false | _ :: _ => true end
  | None => false
  end.

Definition detectCategory (sp : specsObj) (name : string) : string :=
  let hasDisplay := has_section sp "Display" in
  let hasBattery := has_section sp "Battery" in
  let hasSIM := has_section sp "SIM" in
  let hasSound := has_section sp "Sound" in
  let hasBody := has_section sp "Body" in
  if hasSound && negb hasDisplay && negb hasSIM then "earbuds"
  else if hasDisplay && hasBattery && negb hasSIM then
    let lowerName := Str.toLowerCase name in
    if Str.includes "watch" lowerName || Str.includes "smartwatch" lowerName
    then "watch" else "tablet"
  else if hasDisplay && hasBattery && hasSIM then "phone"
  else if negb hasDisplay && negb hasBattery && negb hasSIM && negb hasSound && hasBody
  then "accessory"
  else "phone".

(** ** The listing-URL pattern

    [/\/([a-z0-9-]+)-(phones|tablets|watch|earbuds)-(\d+)\.php/i], unanchored.
    Group 1 is greedy and its class contains the hyphen and the digits, so the
    matcher tries the longest slug first and backs off one character at a
    time; the alternatives of group 2 are tried in order. *)

Module BrandMatch.
Record t := mk { slug : string; type : string; id : string }.
End BrandMatch.

Definition is_slug_char (c : ascii) : bool :=
  Str.is_lower c || Str.is_upper c || Str.is_digit c || Ascii.eqb c "-".

Definition LISTING_KINDS : list string := ["phones"; "tablets"; "watch"; "earbuds"].

(** [-(\d+)\.php] at the head of [l] *)
Definition match_id (l : list ascii) : option string :=
  match l with
  | "-"%char :: l' =>
      match Str.take_while Str.is_digit l' with
      | [] => None
      | ds => if Str.ci_prefix (Str.chars ".php") (Str.drop_while Str.is_digit l')
              then Some (Str.of_chars ds) else None
      end
  | _ => None
  end.

(** [-(phones|tablets|watch|earbuds)-(\d+)\.php] at the head of [l] *)
Definition match_kind (l : list ascii) : option (string * string) :=
  match l with
  | "-"%char :: l' =>
      fold_right
        (fun kind later =>
           let k := Str.chars kind in
           if Str.ci_prefix k l' then
             match match_id (drop (length k) l') with
             | Some i => Some (Str.of_chars (take (length k) l'), i)
             | None => later
             end
           else later)
        None LISTING_KINDS
  | _ => None
  end.

(** slugs of length [n], [n-1], ..., 1 *)
Fixpoint match_slug (n : nat) (l : list ascii) : option BrandMatch.t :=
  match n with
  | 0 => None
  | S n' =>
      match match_kind (drop n l) with
      | Some (k, i) => Some {| BrandMatch.slug := Str.of_chars (take n l); BrandMatch.type := k; BrandMatch.id := i |}
      | None => match_slug n' l
      end
  end.

(** the leftmost position at which the pattern matches *)
Fixpoint match_brand (l : list ascii) : option BrandMatch.t :=
  match l with
  | [] => None
  | c :: t =>
      let here :=
        if Ascii.eqb c "/"
        then match_slug (length (Str.take_while is_slug_char t)) t
        else None in
      match here with
      | Some m => Some m
      | None => match_brand t
      end
  end.

Definition matchBrandUrl (brandUrl : string) : option BrandMatch.t :=
  match_brand (Str.chars brandUrl).

(** the URL of listing page [page] *)
Definition pageUrl (m : BrandMatch.t) (page : nat) : string :=
  if page =? 1
  then BASE +:+ "/" +:+ BrandMatch.slug m +:+ "-" +:+ BrandMatch.type m +:+ "-" +:+ BrandMatch.id m +:+ ".php"
  else BASE +:+ "/" +:+ BrandMatch.slug m +:+ "-" +:+ BrandMatch.type m +:+ "-f-" +:+ BrandMatch.id m +:+ "-0-p"
         +:+ pretty page +:+ ".php".

(** ** Data *)

(** JSON values of the entries kept in [seen_products.json] *)
Inductive jsval :=
| JStr (s : string)
| JNum (n : nat)
| JNull.

(** a ledger entry is a plain object: its own keys, in insertion order *)
Abbreviation jsobj := (list (string * jsval)).
Abbreviation ledger := (gmap string (list (string * jsval))).

Definition has_field (k : string) (o : jsobj) : bool :=
  existsb (fun kv => String.eqb k (fst kv)) o.

Definition fields (o : jsobj) : list string := map fst o.

Module Link.
Record t := mk { url : string; id : string }.
End Link.

Module Product.
Record t := mk {
  id : option string;
  name : string;
  brand : string;
  category : string;
  launchYear : nat;
  image : option string;
  url : string;
  specs : specsObj;
  scrapedAt : string
}.
End Product.

Module BrandCategory.
Record t := mk { name : string; url : string; category : string }.
End BrandCategory.

(** what [axios.get] does: it rejects (time-out, network failure, status 500
    and above) or resolves with a body *)
Inductive response :=
| NetError (message : string)
| Body (data : string).

(** observable steps of a run, oldest first *)
Inductive event :=
| EvCategory (bc : BrandCategory.t)        (* the banner opening a category *)
| EvCharge (n : nat)                       (* [creditsUsed++] gave [n] *)
| EvFetch (url : string) (r : response)    (* [axios.get] was issued *)
| EvRecord (pid : string) (e : jsobj)      (* [seenProducts[pid] = e] *)
| EvSaveSeen (l : ledger) (ok : bool)      (* [saveSeenProducts] ran *)
| EvAppend (p : Product.t) (ok : bool).    (* [appendScrapedProduct] ran *)

(** Everything outside the script: the environment variables, the proxy and
    the site behind it, the clock, the file system's willingness to write,
    and the four cheerio queries the parsers make on a page. *)
Record world := {
  API_KEY : option string;
  SAVE_HTML_SNAPSHOTS : bool;
  (** the answer to the request charged as credit number [n] *)
  axios_get : nat -> string -> response;
  (** [None] when the write numbered [n] succeeds, else the error message *)
  fs_write : nat -> option string;
  (** [new Date().toISOString()] after [n] charged requests *)
  clock : nat -> string;
  (** [href] of every [.makers li a], [None] where the attribute is absent *)
  makers_hrefs : string -> list (option string);
  (** [$("h1").text()] *)
  h1_text : string -> string;
  (** [$(".specs-photo-main img").attr("src")] *)
  photo_src : string -> option string;
  (** for each table of [#specs-list]: the text of its first [th] and, per
      row, the texts of [.ttl] and [.nfo] *)
  specs_tables : string -> list (string * list (string * string))
}.

(** ** Process state *)

Record state := mkState {
  creditsUsed : nat;
  seenProducts : ledger;
  allScrapedProducts : list Product.t;
  (** [seen_products.json]; [None] when absent or unreadable *)
  state_file : option ledger;
  (** the files of [scraped_products/], by file name *)
  brand_files : gmap string (list Product.t);
  fs_ops : nat;
  trace : list event
}.

Definition emit (e : event) (s : state) : state :=
  mkState (creditsUsed s) (seenProducts s) (allScrapedProducts s)
          (state_file s) (brand_files s) (fs_ops s) (trace s ++ [e]).

Definition set_creditsUsed (n : nat) (s : state) : state :=
  mkState n (seenProducts s) (allScrapedProducts s)
          (state_file s) (brand_files s) (fs_ops s) (trace s).

Definition set_seenProducts (l : ledger) (s : state) : state :=
  mkState (creditsUsed s) l (allScrapedProducts s)
          (state_file s) (brand_files s) (fs_ops s) (trace s).

Definition set_allScrapedProducts (l : list Product.t) (s : state) : state :=
  mkState (creditsUsed s) (seenProducts s) l
          (state_file s) (brand_files s) (fs_ops s) (trace s).

Definition set_state_file (f : option ledger) (s : state) : state :=
  mkState (creditsUsed s) (seenProducts s) (allScrapedProducts s)
          f (brand_files s) (fs_ops s) (trace s).

Definition set_brand_files (f : gmap string (list Product.t)) (s : state) : state :=
  mkState (creditsUsed s) (seenProducts s) (allScrapedProducts s)
          (state_file s) f (fs_ops s) (trace s).

Definition tick_fs (s : state) : state :=
  mkState (creditsUsed s) (seenProducts s) (allScrapedProducts s)
          (state_file s) (brand_files s) (S (fs_ops s)) (trace s).

(** ** Control: return, throw, [process.exit] *)

Inductive outcome (A : Type) :=
| Return (a : A)
| Throw (message : string)      (* an [Error] with this message *)
| ProcessExit (code : Z)        (* [process.exit(code)]; no handler sees it *)
| OutOfFuel.                    (* the model's loop bound was hit *)

Arguments Return {A} a.
Arguments Throw {A} message.
Arguments ProcessExit {A} code.
Arguments OutOfFuel {A}.

Definition M (A : Type) : Type := state -> outcome A * state.

Definition ret {A} (a : A) : M A := fun s => (Return a, s).
Definition throw {A} (message : string) : M A := fun s => (Throw message, s).
Definition exit {A} (code : Z) : M A := fun s => (ProcessExit code, s).

Definition bind {A B} (m : M A) (k : A -> M B) : M B :=
  fun s =>
    match m s with
    | (Return a, s') => k a s'
    | (Throw msg, s') => (Throw msg, s')
    | (ProcessExit c, s') => (ProcessExit c, s')
    | (OutOfFuel, s') => (OutOfFuel, s')
    end.

(** [try { m } catch (error) { h(error.message) }] *)
Definition try_catch {A} (m : M A) (h : string -> M A) : M A :=
  fun s =>
    match m s with
    | (Throw msg, s') => h msg s'
    | r => r
    end.

Definition get {A} (f : state -> A) : M A := fun s => (Return (f s), s).
Definition modify (f : state -> state) : M unit := fun s => (Return tt, f s).

Notation "'let*' x := m 'in' k" := (bind m (fun x => k))
  (at level 10, x name, m at level 100, k at level 200).
Notation "'do' m 'then' k" := (bind m (fun _ => k))
  (at level 10, m at level 100, k at level 200).

(** [error.message.includes("BLOCK_DETECTED")], the test of every handler *)
Definition is_block (message : string) : bool := Str.includes "BLOCK_DETECTED" message.

(** the status the operating system sees *)
Definition exit_status {A} (o : outcome A) : option Z :=
  match o with
  | Return _ => Some 0%Z
  | Throw _ => Some 1%Z          (* the [.catch] under [runIncrementalScraper()] *)
  | ProcessExit c => Some c
  | OutOfFuel => None
  end.

(** ** The scraper *)

Definition STATE_FILE : string := "seen_products.json".
Definition OUTPUT_DIR : string := "scraped_products".

(** [seenProducts[id]] as a condition: entries are objects, hence truthy *)
Definition is_seen (seen : ledger) (pid : string) : bool :=
  match seen !! pid with Some _ => true | None => false end.

(** [brandProducts.sort((a, b) => b.launchYear - a.launchYear)]: stable,
    newest first *)
Fixpoint insert_by_year (p : Product.t) (l : list Product.t) : list Product.t :=
  match l with
  | [] => [p]
  | q :: t =>
      if Product.launchYear p <? Product.launchYear q
      then q :: insert_by_year p t
      else p :: q :: t
  end.

Definition sortByLaunchYear (l : list Product.t) : list Product.t :=
  fold_right insert_by_year [] l.

(** the object stored under [seenProducts[productId]] *)
Definition ledger_entry (productId : string) (product : Product.t) : jsobj :=
  [ ("id", JStr productId);
    ("name", JStr (Product.name product));
    ("scrapedAt", JStr (Product.scrapedAt product)) ].

(** what one turn of a loop body asks of its loop *)
Inductive turn (A : Type) :=
| Break (a : A)
| Continue (a : A).

Arguments Break {A} a.
Arguments Continue {A} a.

Section Scraper.

Context (W : world).

(** [!API_KEY] is false *)
Definition api_key_set : bool :=
  match API_KEY W with
  | Some k => negb (Str.is_empty k)
  | None => false
  end.

(** *** State management *)

(** a missing or unreadable file gives the empty ledger *)
Definition loadSeenProducts : M ledger :=
  get (fun s => default ∅ (state_file s)).

(** the argument is always the one shared [seenProducts] object; the
    [catch] swallows a failed write, which leaves the file as it was *)
Definition saveSeenProducts : M unit :=
  fun s =>
    match fs_write W (fs_ops s) with
    | None =>
        (Return tt,
         emit (EvSaveSeen (seenProducts s) true)
              (set_state_file (Some (seenProducts s)) (tick_fs s)))
    | Some _ =>
        (Return tt, emit (EvSaveSeen (seenProducts s) false) (tick_fs s))
    end.

(** one answer of the file system stands for the whole attempt (directory,
    read, write); the [catch] swallows a failure *)
Definition appendScrapedProduct (product : Product.t) : M unit :=
  fun s =>
    match fs_write W (fs_ops s) with
    | None =>
        let brandFile :=
          OUTPUT_DIR +:+ "/" +:+ Str.toLowerCase (Product.brand product) +:+ ".json" in
        let brandProducts := default [] (brand_files s !! brandFile) in
        let sorted := sortByLaunchYear (brandProducts ++ [product]) in
        (Return tt,
         emit (EvAppend product true)
              (set_brand_files (<[brandFile := sorted]> (brand_files s)) (tick_fs s)))
    | Some _ =>
        (Return tt, emit (EvAppend product false) (tick_fs s))
    end.

(** *** The ScraperAPI layer *)

(** [await axios.get(apiUrl, ...)]: the answer is that of the request charged
    last; the proxy URL is determined by the target URL *)
Definition axios (url : string) : M string :=
  fun s =>
    let r := axios_get W (creditsUsed s) url in
    match r with
    | NetError message => (Throw message, emit (EvFetch url r) s)
    | Body data => (Return data, emit (EvFetch url r) s)
    end.

(** the debug snapshot; its directory is not part of the state *)
Definition saveSnapshot : M unit :=
  fun s =>
    match fs_write W (fs_ops s) with
    | None => (Return tt, tick_fs s)
    | Some message => (Throw message, tick_fs s)
    end.

Definition fetchWithScraperAPI (url : string) (isErrorSnapshot : bool) : M string :=
  do modify (fun s => emit (EvCharge (S (creditsUsed s)))
                           (set_creditsUsed (S (creditsUsed s)) s)) then
  let* credits := get creditsUsed in
  if MAX_CREDITS <=? credits then exit 0
  else if negb api_key_set
  then throw "SCRAPERAPI_KEY environment variable is required"
  else
    try_catch
      (let* data := axios url in
       if isBlocked data
       then throw "BLOCK_DETECTED: Page contains blocking indicators"
       else
         do (if SAVE_HTML_SNAPSHOTS W && negb isErrorSnapshot
             then saveSnapshot else ret tt) then
         ret data)
      (fun message =>
         if is_block message then throw message
         else throw ("ScraperAPI request failed: " +:+ message)).

(** *** The parsing layer *)

(** the references of a listing page: [{ url, id }] for every [href] ending
    in [.php] whose full URL carries a product identifier *)
Definition parseBrandListing (html : string) : list Link.t :=
  flat_map
    (fun href =>
       match href with
       | Some h =>
           if Str.endsWith ".php" h then
             let fullUrl := BASE +:+ "/" +:+ h in
             match extractProductId fullUrl with
             | Some productId => [Link.mk fullUrl productId]
             | None => []
             end
           else []
       | None => []
       end)
    (makers_hrefs W html).

(** [specs[section][key] = val] for the rows with both texts *)
Definition build_section (rows : list (string * string)) : gmap string string :=
  fold_left
    (fun sec row =>
       let key := Str.trim (fst row) in
       let val := Str.trim (snd row) in
       if negb (Str.is_empty key) && negb (Str.is_empty val)
       then <[key := val]> sec else sec)
    rows ∅.

(** [specs[section] = {}] and its rows, for every table with a heading *)
Definition build_specs (tables : list (string * list (string * string))) : specsObj :=
  fold_left
    (fun sp table =>
       let section := Str.trim (fst table) in
       if Str.is_empty section then sp
       else <[section := build_section (snd table)]> sp)
    tables ∅.

Definition parseProductPage (html url brand : string) : M Product.t :=
  let name := Str.trim (h1_text W html) in
  if Str.is_empty name then throw "Could not extract product name"
  else
    let image :=
      match photo_src W html with
      | Some src => if Str.is_empty src then None else Some src
      | None => None
      end in
    let sp := build_specs (specs_tables W html) in
    match extractLaunchYear sp with
    | None => throw "Could not extract launch year from Launch.Announced"
    | Some launchYear =>
        if launchYear =? 0
        then throw "Could not extract launch year from Launch.Announced"
        else
          let category := detectCategory sp name in
          let* scrapedAt := get (fun s => clock W (creditsUsed s)) in
          ret (Product.mk (extractProductId url) name brand category
                          launchYear image url sp scrapedAt)
    end.

(** *** Incremental scraping *)

(** the body of the [while (true)] of [getBrandProductLinks]; a
    continuing turn carries [allNewLinks] and [consecutiveOldPages] *)
Definition listingPage (m : BrandMatch.t) (page : nat)
           (allNewLinks : list Link.t) (consecutiveOldPages : nat)
  : M (turn (list Link.t * nat)) :=
  try_catch
    (let* html := fetchWithScraperAPI (pageUrl m page) false in
     let links := parseBrandListing html in
     match links with
     | [] => ret (Break (allNewLinks, consecutiveOldPages))
     | _ :: _ =>
         let* seen := get seenProducts in
         let newLinks :=
           List.filter (fun link => negb (is_seen seen (Link.id link))) links in
         let allNewLinks := allNewLinks ++ newLinks in
         match newLinks with
         | [] =>
             let consecutiveOldPages := S consecutiveOldPages in
             if 3 <=? consecutiveOldPages
             then ret (Break (allNewLinks, consecutiveOldPages))
             else ret (Continue (allNewLinks, consecutiveOldPages))
         | _ :: _ => ret (Continue (allNewLinks, 0))
         end
     end)
    (fun message =>
       if is_block message then throw message
       else ret (Break (allNewLinks, consecutiveOldPages))).

Fixpoint paginate (fuel : nat) (m : BrandMatch.t) (page : nat)
         (allNewLinks : list Link.t) (consecutiveOldPages : nat)
  : M (list Link.t) :=
  match fuel with
  | 0 => fun s => (OutOfFuel, s)
  | S fuel' =>
      let* t := listingPage m page allNewLinks consecutiveOldPages in
      match t with
      | Break (l, _) => ret l
      | Continue (l, c) => paginate fuel' m (S page) l c
      end
  end.

(** Every turn charges a credit and the process leaves when the counter
    reaches [MAX_CREDITS], so [MAX_CREDITS] turns are enough
    ([getBrandProductLinks_total] below). *)
Definition getBrandProductLinks (brandUrl : string) : M (list Link.t) :=
  match matchBrandUrl brandUrl with
  | None => throw ("Invalid brand URL: " +:+ brandUrl)
  | Some m => paginate MAX_CREDITS m 1 [] 0
  end.

Definition scrapeProduct (productUrl brand : string) : M (option Product.t) :=
  match extractProductId productUrl with
  | None => throw ("Could not extract product ID from URL: " +:+ productUrl)
  | Some productId =>
      let* seen := get seenProducts in
      if is_seen seen productId then ret None
      else
        try_catch
          (let* html := fetchWithScraperAPI productUrl false in
           let* product := parseProductPage html productUrl brand in
           if Product.launchYear product <? MIN_LAUNCH_YEAR then ret None
           else
             let entry := ledger_entry productId product in
             do modify (fun s =>
                          emit (EvRecord productId entry)
                               (set_seenProducts (<[productId := entry]> (seenProducts s)) s)) then
             ret (Some product))
          (fun message =>
             if is_block message then throw message else ret None)
  end.

(** *** The main function *)

(** the body of [for (const link of newLinks)]; the value carried is
    [oldProductCount] *)
Definition scrapeLink (brand : string) (link : Link.t) (oldProductCount : nat)
  : M (turn nat) :=
  try_catch
    (let* product := scrapeProduct (Link.url link) brand in
     match product with
     | Some p =>
         do modify (fun s => set_allScrapedProducts (allScrapedProducts s ++ [p]) s) then
         do appendScrapedProduct p then
         ret (Continue 0)
     | None =>
         let oldProductCount := S oldProductCount in
         if 3 <=? oldProductCount
         then ret (Break oldProductCount)
         else ret (Continue oldProductCount)
     end)
    (fun message =>
       if is_block message then throw message
       else ret (Continue oldProductCount)).

Fixpoint scrapeLinks (brand : string) (newLinks : list Link.t) (oldProductCount : nat)
  : M unit :=
  match newLinks with
  | [] => ret tt
  | link :: rest =>
      let* t := scrapeLink brand link oldProductCount in
      match t with
      | Break _ => ret tt
      | Continue c => scrapeLinks brand rest c
      end
  end.

(** the body of [for (const brandCategory of BRAND_CATEGORIES)] *)
Definition processCategory (brandCategory : BrandCategory.t) : M unit :=
  do modify (emit (EvCategory brandCategory)) then
  try_catch
    (let* newLinks := getBrandProductLinks (BrandCategory.url brandCategory) in
     match newLinks with
     | [] => ret tt
     | _ :: _ =>
         do scrapeLinks (BrandCategory.name brandCategory) newLinks 0 then
         saveSeenProducts
     end)
    (fun message =>
       if is_block message then throw message else ret tt).

Fixpoint scrapeCategories (categories : list BrandCategory.t) : M unit :=
  match categories with
  | [] => ret tt
  | brandCategory :: rest =>
      do processCategory brandCategory then scrapeCategories rest
  end.

Definition runIncrementalScraper (categories : list BrandCategory.t) : M unit :=
  let* seen := loadSeenProducts in
  do modify (set_seenProducts seen) then
  do modify (set_allScrapedProducts []) then
  try_catch
    (scrapeCategories categories)
    (fun _ => do saveSeenProducts then exit 1).

(** the module body: the key check, then the run *)
Definition main (categories : list BrandCategory.t) : M unit :=
  if negb api_key_set then exit 1 else runIncrementalScraper categories.

End Scraper.

(** the process as node starts it, over the files it finds *)
Definition boot (file : option ledger) (brands : gmap string (list Product.t)) : state :=
  mkState 0 ∅ [] file brands 0 [].

Definition BRAND_CATEGORIES : list BrandCategory.t :=
  map (fun '(n, u) => BrandCategory.mk n u "phones")
    [ ("apple", "https://www.gsmarena.com/apple-phones-48.php");
      ("samsung", "https://www.gsmarena.com/samsung-phones-9.php");
      ("xiaomi", "https://www.gsmarena.com/xiaomi-phones-80.php");
      ("oppo", "https://www.gsmarena.com/oppo-phones-82.php");
      ("vivo", "https://www.gsmarena.com/vivo-phones-98.php");
      ("google", "https://www.gsmarena.com/google-phones-107.php");
      ("infinix", "https://www.gsmarena.com/infinix-phones-119.php");
      ("tecno", "https://www.gsmarena.com/tecno-phones-120.php");
      ("itel", "https://www.gsmarena.com/itel-phones-131.php");
      ("nothing", "https://www.gsmarena.com/nothing-phones-128.php");
      ("motorola", "https://www.gsmarena.com/motorola-phones-4.php");
      ("realme", "https://www.gsmarena.com/realme-phones-118.php");
      ("oneplus", "https://www.gsmarena.com/oneplus-phones-95.php");
      ("asus", "https://www.gsmarena.com/asus-phones-46.php");
      ("micromax", "https://www.gsmarena.com/micromax-phones-66.php");
      ("nokia", "https://www.gsmarena.com/nokia-phones-1.php");
      ("lenovo", "https://www.gsmarena.com/lenovo-phones-73.php");
      ("honor", "https://www.gsmarena.com/honor-phones-121.php");
      ("sony", "https://www.gsmarena.com/sony-phones-7.php") ].

(** ** The rebuild script

    It reads every [.json] file of [scraped_products/] and writes
    [seen_products.json] anew. *)

Definition rebuild_entry (pid : string) (product : Product.t) : jsobj :=
  [ ("id", JStr pid);
    ("name", JStr (Product.name product));
    ("brand", JStr (Product.brand product));
    ("category", JStr (Product.category product));
    ("launchYear", JNum (Product.launchYear product));
    ("scrapedAt", JStr (Product.scrapedAt product)) ].

Definition rebuild_file (seen : ledger) (products : list Product.t) : ledger :=
  fold_left
    (fun seen product =>
       match Product.id product with
       | Some pid =>
           if Str.is_empty pid then seen
           else <[pid := rebuild_entry pid product]> seen
       | None => seen
       end)
    products seen.

Definition rebuildSeenProducts (files : list (string * list Product.t)) : ledger :=
  fold_left
    (fun seen file =>
       if Str.endsWith ".json" (fst file) then rebuild_file seen (snd file) else seen)
    files ∅.

(** * The upload script

    [uploadAllJsonFiles] connects to the SQL server, reads the names of
    [scraped_products/], and hands every [.json] file to [uploadJsonFile],
    which parses it and sends it in one request to the stored procedure
    [SP_WT_SCM_ItemsSpecs_Insert]. *)

Module Upload.

(** what [JSON.parse(fs.readFileSync(filePath, 'utf8'))] gives *)
Inductive document :=
| Unreadable (message : string)
| NotArray
| Items (data : list string).

(** the world of the script: the server, the directory and its files; the
    answer of the server to a request depends on how many requests came
    before it; [None] is the absence of an error *)
Record world := mkWorld {
  cwd : string;
  connect : option string;
  readdirSync : string -> string + list string;
  readFile : string -> document;
  execute : nat -> list string -> option string;
  close : option string
}.

(** the object [uploadJsonFile] returns; an absent field is [None] *)
Record result := mkResult {
  success : bool;
  successCount : option nat;
  errorCount : option nat;
  error : option string
}.

(** the requests sent so far, and the batches the server has accepted; a
    batch is the array that was sent as one JSON string *)
Record state := mkState {
  calls : nat;
  accepted : list (list string)
}.

Inductive ending :=
| Finished (totalSuccess totalErrors : nat)
| Exited (code : Z).

Definition join (dir file : string) : string := dir +:+ "/" +:+ file.

Definition uploadJsonFile (W : world) (filePath : string) (s : state) : result * state :=
  match readFile W filePath with
  | Unreadable message => (mkResult false None None (Some message), s)
  | NotArray => (mkResult false None None (Some "Not an array"), s)
  | Items data =>
      match execute W (calls s) data with
      | None =>
          (mkResult true (Some (length data)) (Some 0) None,
           mkState (S (calls s)) (accepted s ++ [data]))
      | Some message =>
          (mkResult false None None (Some message), mkState (S (calls s)) (accepted s))
      end
  end.

(** one turn of the [for (const filePath of files)] loop *)
Definition uploadNext (W : world) (acc : nat * nat * state) (filePath : string)
  : nat * nat * state :=
  let '(totalSuccess, totalErrors, s) := acc in
  let (r, s1) := uploadJsonFile W filePath s in
  if success r
  then (totalSuccess + default 0 (successCount r),
        totalErrors + default 0 (errorCount r), s1)
  else (totalSuccess, totalErrors, s1).

Definition uploadAllJsonFiles (W : world) (s : state) : ending * state :=
  let scrapedProductsDir := join (cwd W) "scraped_products" in
  match connect W with
  | Some _ => (Exited 1, s)
  | None =>
      match readdirSync W scrapedProductsDir with
      | inl _ => (Exited 1, s)
      | inr names =>
          let files :=
            map (join scrapedProductsDir) (List.filter (Str.endsWith ".json") names) in
          let '(totalSuccess, totalErrors, s1) := fold_left (uploadNext W) files (0, 0, s) in
          match close W with
          | None => (Finished totalSuccess totalErrors, s1)
          | Some _ => (Exited 1, s1)
          end
      end
  end.

(** the arrays held by the files at the given paths, in order *)
Definition arrays (W : world) (files : list string) : list (list string) :=
  flat_map (fun f => match readFile W f with Items data => [data] | _ => [] end) files.

(** a directory with two arrays, a file that is no array, a file that is no
    JSON and a text file; the server refuses the second request *)
Definition depot : world :=
  {| cwd := "/srv";
     connect := None;
     readdirSync := fun dir =>
       if String.eqb dir "/srv/scraped_products"
       then inr ["acme.json"; "notes.txt"; "bad.json"; "map.json"; "zeta.json"; "omega.json"]
       else inl "ENOENT";
     readFile := fun f =>
       if String.eqb f "/srv/scraped_products/acme.json" then Items ["a1"; "a2"]
       else if String.eqb f "/srv/scraped_products/notes.txt" then Items ["n"]
       else if String.eqb f "/srv/scraped_products/bad.json" then Unreadable "Unexpected token"
       else if String.eqb f "/srv/scraped_products/map.json" then NotArray
       else if String.eqb f "/srv/scraped_products/zeta.json" then Items ["z1"; "z2"; "z3"]
       else if String.eqb f "/srv/scraped_products/omega.json" then Items ["o1"]
       else Unreadable "ENOENT";
     execute := fun n data => if n =? 1 then Some "Timeout" else None;
     close := None |}.

End Upload.

(** * Vocabulary of the statements

    Predicates on traces, outcomes and states in which the properties below
    are stated. *)

(** ** Reading traces *)

Definition is_save (e : event) : bool :=
  match e with EvSaveSeen _ _ => true | _ => false end.

(** events of the network layer *)
Definition is_net (e : event) : bool :=
  match e with
  | EvCharge _ | EvFetch _ _ => true
  | _ => false
  end.

(** the URLs requested, in order *)
Definition fetch_urls (t : list event) : list string :=
  flat_map (fun e => match e with EvFetch url _ => [url] | _ => [] end) t.

(** the two events after which a run must not go on: a charge that reaches
    the ceiling, and a response whose body shows a block *)
Definition fatal (e : event) : bool :=
  match e with
  | EvCharge n => MAX_CREDITS <=? n
  | EvFetch _ (Body data) => isBlocked data
  | _ => false
  end.

(** the ledger after the assignments recorded in a trace *)
Fixpoint replay (t : list event) (l : ledger) : ledger :=
  match t with
  | [] => l
  | EvRecord pid e :: t' => replay t' (<[pid := e]> l)
  | _ :: t' => replay t' l
  end.

(** ** Outcomes *)

(** an outcome without its value *)
Inductive kind :=
| KReturn
| KThrow (message : string)
| KExit (code : Z)
| KFuel.

Definition kind_of {A} (o : outcome A) : kind :=
  match o with
  | Return _ => KReturn
  | Throw message => KThrow message
  | ProcessExit c => KExit c
  | OutOfFuel => KFuel
  end.

(** how a computation must end once a fatal event has happened *)
Definition fatal_outcome (e : event) (k : kind) : Prop :=
  match e with
  | EvCharge _ => k = KExit 0
  | _ => exists message, k = KThrow message /\ is_block message = true
  end.

(** a fatal event is the last event, and decides the outcome *)
Definition fatal_last (t : list event) (k : kind) : Prop :=
  forall pre e post,
    t = pre ++ e :: post -> fatal e = true -> post = [] /\ fatal_outcome e k.

(** outcomes after which the caller goes on *)
Definition goes_on (k : kind) : Prop :=
  match k with
  | KReturn => True
  | KThrow message => is_block message = false
  | _ => False
  end.

(** ** Invariants of computations *)

(** [t] is what the step from [s] to [s'] put on the trace; the ledger
    changed by the assignments in [t] and lost nothing; a fatal event, if
    any, came last *)
Record sound (s : state) (t : list event) (k : kind) (s' : state) : Prop := mkSound {
  sound_trace : trace s' = trace s ++ t;
  sound_replay : seenProducts s' = replay t (seenProducts s);
  sound_mono : seenProducts s ⊆ seenProducts s';
  sound_fatal : fatal_last t k
}.

Definition obeys {A} (m : M A) : Prop :=
  forall s, exists t, sound s t (kind_of (m s).1) (m s).2.

(** below the ceiling a step stays below it, or leaves the process with
    status 0 exactly at the ceiling; the loop bound never ends it *)
Definition within_budget (s : state) (k : kind) (s' : state) : Prop :=
  creditsUsed s < MAX_CREDITS ->
  match k with
  | KExit c => c = 0%Z /\ creditsUsed s' = MAX_CREDITS
  | KFuel => False
  | _ => creditsUsed s' < MAX_CREDITS
  end.

Definition budgeted {A} (m : M A) : Prop :=
  forall s, within_budget s (kind_of (m s).1) (m s).2.

(** whatever is thrown is a Block *)
Definition block_only {A} (m : M A) : Prop :=
  forall s message, (m s).1 = Throw message -> is_block message = true.

(** a step that touched nothing but the counter, the write count and the
    trace, and put only network events on the trace *)
Record quiet (s s' : state) : Prop := mkQuiet {
  quiet_seen : seenProducts s' = seenProducts s;
  quiet_all : allScrapedProducts s' = allScrapedProducts s;
  quiet_file : state_file s' = state_file s;
  quiet_brands : brand_files s' = brand_files s;
  quiet_credits : creditsUsed s <= creditsUsed s';
  quiet_trace : exists t, trace s' = trace s ++ t /\ forallb is_net t = true
}.

(** ** States and outcomes the lemmas name *)

(** after [creditsUsed++] *)
Definition charged (s : state) : state :=
  emit (EvCharge (S (creditsUsed s))) (set_creditsUsed (S (creditsUsed s)) s).

(** the assignment [seenProducts[productId] = {...}] *)
Definition recorded (pid : string) (e : jsobj) (s : state) : state :=
  emit (EvRecord pid e) (set_seenProducts (<[pid := e]> (seenProducts s)) s).

(** the state in which the category loop starts *)
Definition loaded (s : state) : state :=
  set_allScrapedProducts [] (set_seenProducts (default ∅ (state_file s)) s).

(** what the handler of [fetchWithScraperAPI] throws for a caught message *)
Definition request_failed {A} (message : string) : outcome A :=
  if is_block message then Throw message
  else Throw ("ScraperAPI request failed: " +:+ message).

(** every way [fetchWithScraperAPI] can end *)
Inductive fetched (W : world) (url : string) (s : state) : outcome string -> state -> Prop :=
| fetched_ceiling :
    MAX_CREDITS <= S (creditsUsed s) ->
    fetched W url s (ProcessExit 0) (charged s)
| fetched_no_key :
    S (creditsUsed s) < MAX_CREDITS ->
    api_key_set W = false ->
    fetched W url s (Throw "SCRAPERAPI_KEY environment variable is required") (charged s)
| fetched_rejected message s' :
    S (creditsUsed s) < MAX_CREDITS ->
    axios_get W (S (creditsUsed s)) url = NetError message ->
    s' = emit (EvFetch url (NetError message)) (charged s) ->
    fetched W url s (request_failed message) s'
| fetched_blocked data s' :
    S (creditsUsed s) < MAX_CREDITS ->
    axios_get W (S (creditsUsed s)) url = Body data ->
    isBlocked data = true ->
    s' = emit (EvFetch url (Body data)) (charged s) ->
    fetched W url s (Throw "BLOCK_DETECTED: Page contains blocking indicators") s'
| fetched_snapshot_failed data message s' :
    S (creditsUsed s) < MAX_CREDITS ->
    axios_get W (S (creditsUsed s)) url = Body data ->
    isBlocked data = false ->
    s' = tick_fs (emit (EvFetch url (Body data)) (charged s)) ->
    fetched W url s (request_failed message) s'
| fetched_body data s' :
    S (creditsUsed s) < MAX_CREDITS ->
    api_key_set W = true ->
    axios_get W (S (creditsUsed s)) url = Body data ->
    isBlocked data = false ->
    s' = emit (EvFetch url (Body data)) (charged s) \/
    s' = tick_fs (emit (EvFetch url (Body data)) (charged s)) ->
    fetched W url s (Return data) s'.

(** ** Listing pages *)

(** the references of a listing body that the ledger does not hold *)
Definition unseen (W : world) (seen : ledger) (data : string) : list Link.t :=
  List.filter (fun link => negb (is_seen seen (Link.id link))) (parseBrandListing W data).

(** the turn taken on a listing body that was fetched *)
Definition page_turn (W : world) (seen : ledger) (data : string)
           (allNewLinks : list Link.t) (consecutiveOldPages : nat)
  : turn (list Link.t * nat) :=
  match parseBrandListing W data with
  | [] => Break (allNewLinks, consecutiveOldPages)
  | _ :: _ =>
      match unseen W seen data with
      | [] =>
          if 3 <=? S consecutiveOldPages
          then Break (allNewLinks ++ [], S consecutiveOldPages)
          else Continue (allNewLinks ++ [], S consecutiveOldPages)
      | new => Continue (allNewLinks ++ new, 0)
      end
  end.

(** ** Synthetic sites

    Small worlds on which the scraper is run in the examples below.  A body
    is a short token; the cheerio queries look it up in a table of pages. *)

Module Demo.

Record page := mkPage {
  hrefs : list (option string);
  h1 : string;
  src : option string;
  tables : list (string * list (string * string))
}.

Fixpoint assoc {A} (k : string) (l : list (string * A)) : option A :=
  match l with
  | [] => None
  | (k', v) :: t => if String.eqb k k' then Some v else assoc k t
  end.

Definition blank : page := mkPage [] "" None [].

Definition world_of (site : nat -> string -> response) (pages : list (string * page))
           (fs : nat -> option string) : world :=
  {| API_KEY := Some "key";
     SAVE_HTML_SNAPSHOTS := false;
     axios_get := site;
     fs_write := fs;
     clock := fun n => "T" +:+ pretty n;
     makers_hrefs := fun html => hrefs (default blank (assoc html pages));
     h1_text := fun html => h1 (default blank (assoc html pages));
     photo_src := fun html => src (default blank (assoc html pages));
     specs_tables := fun html => tables (default blank (assoc html pages)) |}.

(** a site given by a table from URL to body; other URLs give an empty page *)
Definition by_url (table : list (string * string)) (n : nat) (url : string) : response :=
  Body (default "nothing" (assoc url table)).

Definition disk_ok (n : nat) : option string := None.
Definition disk_readonly (n : nat) : option string := Some "EACCES: permission denied".

Definition acme_url : string := "https://www.gsmarena.com/acme-phones-1.php".
Definition acme : BrandCategory.t := BrandCategory.mk "acme" acme_url "phones".
Definition acme_match : BrandMatch.t := BrandMatch.mk "acme" "phones" "1".

(** a product page announced at the given date *)
Definition phone (announced : string) : page :=
  mkPage [] " Acme One " (Some "one.jpg")
         [ ("Launch", [("Announced", announced)]);
           ("Display", [("Size", "6.1 inches")]);
           ("Battery", [("Type", "Li-Ion")]);
           ("SIM", [("SIM", "Nano-SIM")]) ].

Definition pages : list (string * page) :=
  [ ("list-ab", mkPage [Some "a-1.php"; Some "b-2.php"] "" None []);
    ("list-a", mkPage [Some "a-1.php"] "" None []);
    ("list-x", mkPage [Some "x-1.php"; Some "x-2.php"; Some "x-3.php"; Some "x-4.php"] "" None []);
    ("list-old", mkPage [Some "z-9.php"] "" None []);
    ("phone-2024", phone "2024, January 17");
    ("phone-2019", phone "2019, March 3");
    ("broken", mkPage [] "" None []) ].

(** one listing page with a 2024 phone and a 2019 phone *)
Definition shop : world :=
  world_of (by_url [ (acme_url, "list-ab");
                     ("https://www.gsmarena.com/a-1.php", "phone-2024");
                     ("https://www.gsmarena.com/b-2.php", "phone-2019") ])
           pages disk_ok.

(** the same site on a disk that refuses every write *)
Definition shop_readonly : world :=
  world_of (by_url [ (acme_url, "list-ab");
                     ("https://www.gsmarena.com/a-1.php", "phone-2024");
                     ("https://www.gsmarena.com/b-2.php", "phone-2019") ])
           pages disk_readonly.

(** the same site, whose second product page is an anti-bot page *)
Definition guarded : world :=
  world_of (by_url [ (acme_url, "list-ab");
                     ("https://www.gsmarena.com/a-1.php", "phone-2024");
                     ("https://www.gsmarena.com/b-2.php", "Access Denied") ])
           pages disk_ok.

(** one listing page with a single 2024 phone *)
Definition solo : world :=
  world_of (by_url [ (acme_url, "list-a");
                     ("https://www.gsmarena.com/a-1.php", "phone-2024") ])
           pages disk_ok.

(** three product pages without a title, then a 2024 phone *)
Definition flaky : world :=
  world_of (by_url [ (acme_url, "list-x");
                     ("https://www.gsmarena.com/x-1.php", "broken");
                     ("https://www.gsmarena.com/x-2.php", "broken");
                     ("https://www.gsmarena.com/x-3.php", "broken");
                     ("https://www.gsmarena.com/x-4.php", "phone-2024") ])
           pages disk_ok.

(** a new phone on the first listing page, and behind it page after page of
    the one old reference the ledger already holds *)
Definition archive : world :=
  world_of (fun n url => if String.eqb url acme_url then Body "list-a" else Body "list-old")
           pages disk_ok.

Definition archive_ledger : ledger :=
  {[ "9" := [("id", JStr "9"); ("name", JStr "Acme Zero"); ("scrapedAt", JStr "T0")] ]}.

(** a listing that never ends for five hundred pages, each with one new
    reference, then the product pages *)
Definition endless : world :=
  {| API_KEY := Some "key";
     SAVE_HTML_SNAPSHOTS := false;
     axios_get := fun n url => Body (pretty n);
     fs_write := disk_ok;
     clock := fun n => "T" +:+ pretty n;
     makers_hrefs := fun html =>
       if String.eqb html "500" then [] else [Some ("x-" +:+ html +:+ ".php")];
     h1_text := fun html => "Acme " +:+ html;
     photo_src := fun html => None;
     specs_tables := fun html => [("Launch", [("Announced", "2024")])] |}.

Definition malformed : BrandCategory.t :=
  BrandCategory.mk "typo" "https://www.gsmarena.com/makers.php3" "phones".

(** a process that has charged 948 requests and holds an empty ledger *)
Definition near_ceiling : state := mkState 948 ∅ [] None ∅ 0 [].

End Demo.

(** ** Vocabulary of the further properties *)

(** the products handed to the sink, in order *)
Definition appended (t : list event) : list Product.t :=
  flat_map (fun e => match e with EvAppend p _ => [p] | _ => [] end) t.

(** what the parser guarantees of a product it returns *)
Definition well_formed (p : Product.t) : Prop :=
  Product.name p <> "" /\
  extractLaunchYear (Product.specs p) = Some (Product.launchYear p) /\
  Product.category p = detectCategory (Product.specs p) (Product.name p) /\
  Product.id p = extractProductId (Product.url p).

(** the accepted products of a run that loaded the ledger [loadedLedger]:
    pairwise distinct identifiers, new to the loaded ledger, each with its
    entry in the current ledger, each within the year filter *)
Record tidy (loadedLedger : ledger) (s : state) : Prop := mkTidy {
  tidy_loaded : loadedLedger ⊆ seenProducts s;
  tidy_nodup : NoDup (map Product.id (allScrapedProducts s));
  tidy_each :
    forall p, In p (allScrapedProducts s) ->
      well_formed p /\ MIN_LAUNCH_YEAR <= Product.launchYear p /\
      exists pid, Product.id p = Some pid /\
                  loadedLedger !! pid = None /\
                  seenProducts s !! pid = Some (ledger_entry pid p)
}.

(** one for the exit at the ceiling, which charges without a request *)
Definition unserved (k : kind) : nat :=
  match k with
  | KExit 0 => 1
  | _ => 0
  end.

(** the ledger file holds what the in-memory ledger holds *)
Definition in_sync (s : state) : Prop :=
  default ∅ (state_file s) = seenProducts s.

Definition is_exit (k : kind) : bool :=
  match k with KExit _ => true | _ => false end.

(** newest first *)
Definition newer_or_same (a b : Product.t) : Prop :=
  Product.launchYear b <= Product.launchYear a.

(** the number of requests issued so far *)
Definition requests (s : state) : nat := length (fetch_urls (trace s)).

(** each request is charged, and the exit at the ceiling charges one
    request that is not issued *)
Definition metered (s : state) (k : kind) (s' : state) : Prop :=
  requests s' + creditsUsed s + unserved k <= requests s + creditsUsed s' /\
  requests s <= requests s'.

(** the products accepted during a step are those handed to the sink *)
Definition delivered (s : state) (k : kind) (s' : state) : Prop :=
  exists new,
    allScrapedProducts s' = allScrapedProducts s ++ new /\
    appended (trace s') = appended (trace s) ++ new.

Definition keeps_tidy (loadedLedger : ledger) (s : state) (k : kind) (s' : state) : Prop :=
  tidy loadedLedger s -> tidy loadedLedger s'.

(** the file [appendScrapedProduct] keeps a product in *)
Definition brand_file_of (p : Product.t) : string :=
  OUTPUT_DIR +:+ "/" +:+ Str.toLowerCase (Product.brand p) +:+ ".json".

(** the content of a brand file; a file that does not exist counts as empty *)
Definition shelf (s : state) (f : string) : list Product.t :=
  default [] (brand_files s !! f).

(** the products of a given launch year, in order *)
Definition of_year (y : nat) (l : list Product.t) : list Product.t :=
  List.filter (fun q => Product.launchYear q =? y) l.

(** brand files lose nothing, and what was accepted has been shelved *)
Definition shelved (W : world) (s : state) (k : kind) (s' : state) : Prop :=
  (forall n, fs_write W n = None) ->
  (forall f q, In q (shelf s f) -> In q (shelf s' f)) /\
  exists new,
    allScrapedProducts s' = allScrapedProducts s ++ new /\
    forall q, In q new -> In q (shelf s' (brand_file_of q)).

(** the products the rebuild script reads, in the order it reads them *)
Definition json_products (files : list (string * list Product.t)) : list Product.t :=
  flat_map (fun file => if Str.endsWith ".json" (fst file) then snd file else []) files.

(** the products that carry the identifier [pid] *)
Definition with_id (pid : string) (l : list Product.t) : list Product.t :=
  List.filter (fun p => bool_decide (Product.id p = Some pid)) l.

(** every key the ledger gained belongs to a product accepted meanwhile, and
    every product a brand file gained is one of them, in the file of its
    brand *)
Definition accounted (s : state) (k : kind) (s' : state) : Prop :=
  exists new,
    allScrapedProducts s' = allScrapedProducts s ++ new /\
    (forall pid, seenProducts s' !! pid <> None ->
                 seenProducts s !! pid <> None \/
                 exists p, In p new /\ Product.id p = Some pid) /\
    (forall f q, In q (shelf s' f) ->
                 In q (shelf s f) \/ (In q new /\ f = brand_file_of q)).

(** with a key, every credit charged is a request sent, but for the one
    charged at the ceiling *)
Definition paid (W : world) (s : state) (k : kind) (s' : state) : Prop :=
  api_key_set W = true ->
  requests s' + creditsUsed s + unserved k = requests s + creditsUsed s'.

(** the product a run over [Demo.shop] accepts *)
Definition shop_product : Product.t :=
  Product.mk (Some "1") "Acme One" "acme" "phone" 2024 (Some "one.jpg")
             "https://www.gsmarena.com/a-1.php"
             (build_specs (Demo.tables (Demo.phone "2024, January 17"))) "T3".

(** the text does not start with a byte that continues one of the two
    sequences [Str.lower_chars] reads as one letter *)
Definition starts_clean (l : list ascii) : Prop :=
  match l with
  | [] => True
  | c :: _ =>
      Str.is_byte 132 c = false /\ Str.is_byte 170 c = false /\ Str.is_byte 176 c = false
  end.

(** * Properties *)

(** ** The string utilities on examples *)

Example extractProductId_ok :
  extractProductId "https://www.gsmarena.com/samsung_galaxy_s23-12082.php" = Some "12082".
Proof. reflexivity. Qed.

Example extractProductId_listing :
  extractProductId "https://www.gsmarena.com/apple-phones-48.php" = Some "48".
Proof. reflexivity. Qed.

Example extractProductId_none :
  extractProductId "https://www.gsmarena.com/makers.php3" = None.
Proof. reflexivity. Qed.

Example isBlocked_captcha : isBlocked "<h1>Please solve this CAPTCHA</h1>" = true.
Proof. reflexivity. Qed.

(** the Kelvin sign lower-cases to [k] *)
Example isBlocked_kelvin :
  isBlocked ("Bloc" +:+ Str.of_chars (map ascii_of_nat [226; 132; 170]) +:+ "ed") = true.
Proof. vm_compute. reflexivity. Qed.

Example isBlocked_plain : isBlocked "<div class=makers></div>" = false.
Proof. reflexivity. Qed.

Example find_year_ok : find_year false (Str.chars "2024, January 17") = Some 2024.
Proof. reflexivity. Qed.

Example find_year_boundary : find_year false (Str.chars "Exp. x2024; 2019") = Some 2019.
Proof. reflexivity. Qed.

Example matchBrandUrl_apple :
  matchBrandUrl "https://www.gsmarena.com/apple-phones-48.php"
  = Some {| BrandMatch.slug := "apple"; BrandMatch.type := "phones"; BrandMatch.id := "48" |}.
Proof. reflexivity. Qed.

Example matchBrandUrl_hyphen :
  matchBrandUrl "https://www.gsmarena.com/o-2-Watch-7.PHP"
  = Some {| BrandMatch.slug := "o-2"; BrandMatch.type := "Watch"; BrandMatch.id := "7" |}.
Proof. reflexivity. Qed.

Example matchBrandUrl_bad : matchBrandUrl "https://www.gsmarena.com/makers.php3" = None.
Proof. reflexivity. Qed.

Example pageUrl_2 :
  pageUrl {| BrandMatch.slug := "apple"; BrandMatch.type := "phones"; BrandMatch.id := "48" |} 2
  = "https://www.gsmarena.com/apple-phones-f-48-0-p2.php".
Proof. reflexivity. Qed.

Example trim_title : Str.trim "  Acme One  " = "Acme One".
Proof. reflexivity. Qed.

(** a no-break space, a line separator and a byte order mark go as well; a
    lone byte of such a sequence stays *)
Example trim_nbsp :
  Str.trim (Str.of_chars (map ascii_of_nat
              [194; 160; 32; 65; 32; 66; 226; 128; 168; 239; 187; 191; 9]))
  = "A B".
Proof. reflexivity. Qed.

Example trim_keeps_other_bytes :
  Str.trim (Str.of_chars (map ascii_of_nat [195; 160; 65; 160]))
  = Str.of_chars (map ascii_of_nat [195; 160; 65; 160]).
Proof. reflexivity. Qed.

Example parseBrandListing_shop :
  parseBrandListing Demo.shop "list-ab"
  = [ Link.mk "https://www.gsmarena.com/a-1.php" "1";
      Link.mk "https://www.gsmarena.com/b-2.php" "2" ].
Proof. reflexivity. Qed.

Example detectCategory_phone :
  detectCategory (build_specs (Demo.tables (Demo.phone "2024"))) "Acme One" = "phone".
Proof. vm_compute. reflexivity. Qed.

Example detectCategory_watch :
  detectCategory (build_specs [ ("Display", [("Size", "1.4 inches")]);
                                ("Battery", [("Type", "Li-Ion")]) ])
                 "Acme Watch 2" = "watch".
Proof. vm_compute. reflexivity. Qed.

Example extractLaunchYear_missing :
  extractLaunchYear (build_specs [ ("Launch", [("Status", "Available")]) ]) = None.
Proof. vm_compute. reflexivity. Qed.

(** every listing URL of the shipped configuration matches the pattern *)
Example BRAND_CATEGORIES_well_formed :
  forallb (fun bc => match matchBrandUrl (BrandCategory.url bc) with
                     | Some _ => true
                     | None => false
                     end) BRAND_CATEGORIES = true.
Proof. vm_compute. reflexivity. Qed.

(** ** Lists of events *)

Lemma app_cons_split {A} (t1 t2 pre post : list A) (e : A) :
  t1 ++ t2 = pre ++ e :: post ->
  (exists post1, t1 = pre ++ e :: post1 /\ post = post1 ++ t2) \/
  (exists pre2, pre = t1 ++ pre2 /\ t2 = pre2 ++ e :: post).
Proof.
  revert pre. induction t1 as [|a t1 IH]; intros pre H; simpl in H.
  - right. exists pre. split; [reflexivity | exact H].
  - destruct pre as [|b pre]; simpl in H.
    + injection H as -> <-. left. exists t1. split; reflexivity.
    + injection H as -> H. destruct (IH pre H) as [[p1 [-> ->]] | [p2 [-> ->]]].
      * left. exists p1. split; reflexivity.
      * right. exists p2. split; reflexivity.
Qed.

Lemma replay_app (t1 t2 : list event) (l : ledger) :
  replay (t1 ++ t2) l = replay t2 (replay t1 l).
Proof.
  revert l. induction t1 as [|ev t1 IH]; intros l; simpl; [reflexivity |].
  destruct ev; apply IH.
Qed.

Lemma fatal_last_nil (k : kind) : fatal_last [] k.
Proof. intros [|x pre] ev post H; discriminate H. Qed.

Lemma fatal_last_quiet (e : event) (k : kind) : fatal e = false -> fatal_last [e] k.
Proof.
  intros He [|x [|y pre]] e' post H Hf; simpl in H; try discriminate H.
  injection H as <- <-. congruence.
Qed.

Lemma fatal_last_goes_on (t : list event) (k : kind) :
  fatal_last t k -> goes_on k -> forall e, In e t -> fatal e = false.
Proof.
  intros Hl Hk e Hin. destruct (fatal e) eqn:He; [exfalso | reflexivity].
  apply in_split in Hin as [pre [post ->]].
  destruct (Hl pre e post eq_refl He) as [_ Ho].
  destruct e as [bc | n | u r | pid o | l ok | p ok]; simpl in Ho, He;
    try discriminate He.
  - subst k. exact Hk.
  - destruct Ho as [msg [-> Hb]]. simpl in Hk. congruence.
Qed.

Lemma fatal_last_app (t1 t2 : list event) (k1 k2 : kind) :
  fatal_last t1 k1 -> goes_on k1 -> fatal_last t2 k2 -> fatal_last (t1 ++ t2) k2.
Proof.
  intros H1 Hk H2 pre e post Heq Hf.
  destruct (app_cons_split _ _ _ _ _ Heq) as [[p1 [-> ->]] | [p2 [-> ->]]].
  - assert (fatal e = false) as Hq
        by (apply (fatal_last_goes_on _ _ H1 Hk); apply in_elt).
    congruence.
  - eapply H2; eauto.
Qed.

Lemma sound_refl (s : state) (k : kind) : sound s [] k s.
Proof.
  constructor; simpl; auto using fatal_last_nil.
  symmetry. apply app_nil_r.
Qed.

Lemma sound_seq (s s1 s2 : state) (t1 t2 : list event) (k1 k2 : kind) :
  sound s t1 k1 s1 -> goes_on k1 -> sound s1 t2 k2 s2 -> sound s (t1 ++ t2) k2 s2.
Proof.
  intros [Ht1 Hr1 Hm1 Hf1] Hk [Ht2 Hr2 Hm2 Hf2]. constructor.
  - rewrite Ht2, Ht1. symmetry. apply app_assoc.
  - rewrite Hr2, Hr1. symmetry. apply replay_app.
  - etransitivity; eassumption.
  - eapply fatal_last_app; eassumption.
Qed.

(** ** The combinators keep computations sound *)

Lemma obeys_ret {A} (a : A) : obeys (ret a).
Proof. intros s. exists []. apply sound_refl. Qed.

Lemma obeys_throw {A} (message : string) : obeys (@throw A message).
Proof. intros s. exists []. apply sound_refl. Qed.

Lemma obeys_exit {A} (c : Z) : obeys (@exit A c).
Proof. intros s. exists []. apply sound_refl. Qed.

Lemma obeys_get {A} (f : state -> A) : obeys (get f).
Proof. intros s. exists []. apply sound_refl. Qed.

Lemma obeys_bind {A B} (m : M A) (k : A -> M B) :
  obeys m -> (forall a, obeys (k a)) -> obeys (bind m k).
Proof.
  intros Hm Hk s. unfold bind. destruct (Hm s) as [t1 H1].
  destruct (m s) as [[a | msg | c |] s1]; simpl in H1.
  - destruct (Hk a s1) as [t2 H2]. exists (t1 ++ t2).
    eapply sound_seq; [exact H1 | exact I | exact H2].
  - exists t1. exact H1.
  - exists t1. exact H1.
  - exists t1. exact H1.
Qed.

Lemma obeys_try_catch {A} (m : M A) (h : string -> M A) :
  obeys m ->
  (forall message, is_block message = false -> obeys (h message)) ->
  (forall message, is_block message = true -> h message = throw message) ->
  obeys (try_catch m h).
Proof.
  intros Hm Hh Hb s. unfold try_catch. destruct (Hm s) as [t1 H1].
  destruct (m s) as [[a | msg | c |] s1]; simpl in H1; try (exists t1; exact H1).
  destruct (is_block msg) eqn:Hmsg.
  - rewrite (Hb msg Hmsg). exists t1. exact H1.
  - destruct (Hh msg Hmsg s1) as [t2 H2]. exists (t1 ++ t2).
    eapply sound_seq; [exact H1 | exact Hmsg | exact H2].
Qed.

(** a handler of the shape every inner [catch] has *)
Lemma obeys_rethrow {A} (m : M A) (k : M A) :
  obeys m -> obeys k ->
  obeys (try_catch m (fun message => if is_block message then throw message else k)).
Proof.
  intros Hm Hk. apply obeys_try_catch; [exact Hm | |].
  - intros msg ->. exact Hk.
  - intros msg ->. reflexivity.
Qed.

(** ** One charged request *)

Lemma fetchWithScraperAPI_unfold (W : world) (url : string) (b : bool) (s : state) :
  fetchWithScraperAPI W url b s =
  if MAX_CREDITS <=? S (creditsUsed s) then (ProcessExit 0, charged s)
  else if negb (api_key_set W)
  then (Throw "SCRAPERAPI_KEY environment variable is required", charged s)
  else
    let r := axios_get W (S (creditsUsed s)) url in
    let s2 := emit (EvFetch url r) (charged s) in
    match r with
    | NetError message => (request_failed message, s2)
    | Body data =>
        if isBlocked data
        then (Throw "BLOCK_DETECTED: Page contains blocking indicators", s2)
        else if SAVE_HTML_SNAPSHOTS W && negb b then
          match fs_write W (fs_ops s) with
          | None => (Return data, tick_fs s2)
          | Some message => (request_failed message, tick_fs s2)
          end
        else (Return data, s2)
    end.
Proof.
  unfold fetchWithScraperAPI, bind, modify, get, try_catch, axios, saveSnapshot,
    request_failed, exit, throw, ret, charged.
  cbn -[isBlocked is_block Nat.leb MAX_CREDITS String.append].
  destruct (MAX_CREDITS <=? S (creditsUsed s)); [reflexivity |].
  destruct (negb (api_key_set W)); [reflexivity |].
  cbn -[isBlocked is_block String.append].
  destruct (axios_get W (S (creditsUsed s)) url) as [msg | data];
    cbn -[isBlocked is_block String.append].
  - destruct (is_block msg); reflexivity.
  - destruct (isBlocked data); [reflexivity |].
    destruct (SAVE_HTML_SNAPSHOTS W && negb b);
      cbn -[isBlocked is_block String.append]; [| reflexivity].
    destruct (fs_write W (fs_ops s)) as [msg |];
      cbn -[isBlocked is_block String.append]; [| reflexivity].
    destruct (is_block msg); reflexivity.
Qed.

Lemma quiet_refl (s : state) : quiet s s.
Proof.
  constructor; auto. exists []. split; [symmetry; apply app_nil_r | reflexivity].
Qed.

Lemma quiet_trans (s1 s2 s3 : state) : quiet s1 s2 -> quiet s2 s3 -> quiet s1 s3.
Proof.
  intros [A1 B1 C1 D1 E1 [t1 [T1 N1]]] [A2 B2 C2 D2 E2 [t2 [T2 N2]]].
  constructor; try congruence; try lia.
  exists (t1 ++ t2). split.
  - rewrite T2, T1. symmetry. apply app_assoc.
  - rewrite forallb_app, N1, N2. reflexivity.
Qed.

Lemma quiet_charged (s : state) : quiet s (charged s).
Proof.
  constructor; simpl; auto. exists [EvCharge (S (creditsUsed s))]. split; reflexivity.
Qed.

Lemma quiet_fetched (s : state) (url : string) (r : response) :
  quiet s (emit (EvFetch url r) (charged s)).
Proof.
  constructor; simpl; auto.
  exists [EvCharge (S (creditsUsed s)); EvFetch url r]. split; [| reflexivity].
  rewrite <- app_assoc. reflexivity.
Qed.

Lemma quiet_fetched_tick (s : state) (url : string) (r : response) :
  quiet s (tick_fs (emit (EvFetch url r) (charged s))).
Proof.
  constructor; simpl; auto.
  exists [EvCharge (S (creditsUsed s)); EvFetch url r]. split; [| reflexivity].
  rewrite <- app_assoc. reflexivity.
Qed.

Lemma is_block_request_failed {A} (message : string) (m' : string) :
  @request_failed A message = Throw m' ->
  is_block m' = is_block message \/ is_block message = false.
Proof.
  unfold request_failed. destruct (is_block message) eqn:Hb; intros H.
  - injection H as <-. left. congruence.
  - right. reflexivity.
Qed.

Lemma fetchWithScraperAPI_fetched (W : world) (url : string) (b : bool) (s : state) :
  fetched W url s (fetchWithScraperAPI W url b s).1 (fetchWithScraperAPI W url b s).2.
Proof.
  rewrite fetchWithScraperAPI_unfold.
  destruct (MAX_CREDITS <=? S (creditsUsed s)) eqn:Hc.
  { apply Nat.leb_le in Hc. constructor. exact Hc. }
  apply Nat.leb_gt in Hc.
  destruct (api_key_set W) eqn:Hk; simpl negb; cbv iota.
  2:{ constructor; assumption. }
  cbv zeta.
  destruct (axios_get W (S (creditsUsed s)) url) as [msg | data] eqn:Hr.
  { simpl. eapply fetched_rejected; eauto. }
  destruct (isBlocked data) eqn:Hb.
  { simpl. eapply fetched_blocked; eauto. }
  destruct (SAVE_HTML_SNAPSHOTS W && negb b).
  - destruct (fs_write W (fs_ops s)) as [msg |]; simpl.
    + eapply fetched_snapshot_failed; eauto.
    + eapply fetched_body; eauto.
  - simpl. eapply fetched_body; eauto.
Qed.

Lemma fetched_quiet (W : world) (url : string) (s : state) (o : outcome string) (s' : state) :
  fetched W url s o s' -> quiet s s' /\ creditsUsed s' = S (creditsUsed s).
Proof.
  intros H. destruct H; subst;
    try (destruct H3 as [-> | ->]);
    (split; [| reflexivity]);
    auto using quiet_charged, quiet_fetched, quiet_fetched_tick.
Qed.

Lemma fetched_sound (W : world) (url : string) (s : state) (o : outcome string) (s' : state) :
  fetched W url s o s' -> exists t, sound s t (kind_of o) s'.
Proof.
  assert (Hone : forall n k, (MAX_CREDITS <=? n) = false \/ k = KExit 0 ->
                             fatal_last [EvCharge n] k).
  { intros n k Hn [|x [|y pre]] e post H Hf; simpl in H; try discriminate H.
    injection H as <- <-. change ((MAX_CREDITS <=? n) = true) in Hf.
    destruct Hn as [Hn | ->]; [congruence |].
    split; reflexivity. }
  assert (Htwo : forall n u r k,
             (MAX_CREDITS <=? n) = false ->
             fatal (EvFetch u r) = false \/
               (exists message, k = KThrow message /\ is_block message = true) ->
             fatal_last [EvCharge n; EvFetch u r] k).
  { intros n u r k Hn Hr [|x [|y [|z pre]]] e post H Hf; simpl in H; try discriminate H.
    - injection H as <- <-. change ((MAX_CREDITS <=? n) = true) in Hf. congruence.
    - injection H as _ <- <-. destruct Hr as [Hr | Hr]; [congruence |].
      split; [reflexivity | exact Hr]. }
  assert (Hlt : forall n, n < MAX_CREDITS -> (MAX_CREDITS <=? n) = false)
    by (intros n Hn; apply Nat.leb_gt; exact Hn).
  intros H. destruct H; subst.
  - exists [EvCharge (S (creditsUsed s))]. constructor; simpl; auto.
  - exists [EvCharge (S (creditsUsed s))]. constructor; simpl; auto.
  - exists [EvCharge (S (creditsUsed s)); EvFetch url (NetError message)].
    constructor; simpl; auto. rewrite <- app_assoc. reflexivity.
  - exists [EvCharge (S (creditsUsed s)); EvFetch url (Body data)].
    constructor; simpl; auto.
    + rewrite <- app_assoc. reflexivity.
    + apply Htwo; auto. right. eexists. split; reflexivity.
  - exists [EvCharge (S (creditsUsed s)); EvFetch url (Body data)].
    constructor; simpl; auto. rewrite <- app_assoc. reflexivity.
  - exists [EvCharge (S (creditsUsed s)); EvFetch url (Body data)].
    destruct H3 as [-> | ->]; constructor; simpl; auto;
      rewrite <- app_assoc; reflexivity.
Qed.

(** at the ceiling the call charges, and leaves the process at once *)
Lemma fetchWithScraperAPI_at_ceiling (W : world) (url : string) (b : bool) (s : state) :
  MAX_CREDITS <= S (creditsUsed s) ->
  fetchWithScraperAPI W url b s = (ProcessExit 0, charged s).
Proof.
  intros H. rewrite fetchWithScraperAPI_unfold.
  apply Nat.leb_le in H. rewrite H. reflexivity.
Qed.

Lemma fetchWithScraperAPI_obeys (W : world) (url : string) (b : bool) :
  obeys (fetchWithScraperAPI W url b).
Proof.
  intros s. eapply fetched_sound. apply fetchWithScraperAPI_fetched.
Qed.

(** ** One listing page *)

Lemma listingPage_unfold (W : world) (m : BrandMatch.t) (page : nat)
      (l : list Link.t) (c : nat) (s : state) :
  listingPage W m page l c s =
  match fetchWithScraperAPI W (pageUrl m page) false s with
  | (Return data, s1) => (Return (page_turn W (seenProducts s1) data l c), s1)
  | (Throw message, s1) =>
      if is_block message then (Throw message, s1) else (Return (Break (l, c)), s1)
  | (ProcessExit code, s1) => (ProcessExit code, s1)
  | (OutOfFuel, s1) => (OutOfFuel, s1)
  end.
Proof.
  unfold listingPage, try_catch, bind.
  destruct (fetchWithScraperAPI W (pageUrl m page) false s) as [[data | msg | code |] s1];
    try reflexivity.
  - unfold page_turn, unseen, get, ret.
    destruct (parseBrandListing W data) as [|x links]; [reflexivity |].
    destruct (List.filter _ (x :: links)); [| reflexivity].
    destruct (3 <=? S c); reflexivity.
  - unfold throw, ret. destruct (is_block msg); reflexivity.
Qed.

Lemma listingPage_cases (W : world) (m : BrandMatch.t) (page : nat)
      (l : list Link.t) (c : nat) (s : state) :
  let r := listingPage W m page l c s in
  quiet s r.2 /\ creditsUsed r.2 = S (creditsUsed s) /\
  match r.1 with
  | Return t =>
      S (creditsUsed s) < MAX_CREDITS /\
      (t = Break (l, c) \/
       exists data,
         axios_get W (S (creditsUsed s)) (pageUrl m page) = Body data /\
         t = page_turn W (seenProducts s) data l c)
  | Throw message => is_block message = true
  | ProcessExit code => code = 0%Z /\ MAX_CREDITS <= S (creditsUsed s)
  | OutOfFuel => False
  end.
Proof.
  cbv zeta. rewrite listingPage_unfold.
  pose proof (fetchWithScraperAPI_fetched W (pageUrl m page) false s) as Hf.
  destruct (fetched_quiet _ _ _ _ _ Hf) as [Hq Hc].
  destruct (fetchWithScraperAPI W (pageUrl m page) false s) as [o s1].
  simpl in Hf, Hq, Hc.
  assert (Hthrow : forall message,
             S (creditsUsed s) < MAX_CREDITS ->
             let r := if is_block message
                      then (@Throw (turn (list Link.t * nat)) message, s1)
                      else (Return (Break (l, c)), s1) in
             quiet s r.2 /\ creditsUsed r.2 = S (creditsUsed s) /\
             match r.1 with
             | Return t =>
                 S (creditsUsed s) < MAX_CREDITS /\
                 (t = Break (l, c) \/
                  exists data,
                    axios_get W (S (creditsUsed s)) (pageUrl m page) = Body data /\
                    t = page_turn W (seenProducts s) data l c)
             | Throw message => is_block message = true
             | ProcessExit code => code = 0%Z /\ MAX_CREDITS <= S (creditsUsed s)
             | OutOfFuel => False
             end).
  { intros msg Hlt. destruct (is_block msg) eqn:Hb; simpl; auto. }
  destruct Hf as [Hmax | Hlt Hkey | msg s' Hlt Hr -> | data s' Hlt Hr Hb ->
                  | data msg s' Hlt Hr Hb -> | data s' Hlt Hkey Hr Hb Hs'].
  - simpl. auto.
  - apply (Hthrow _ Hlt).
  - unfold request_failed. destruct (is_block msg) eqn:Hb.
    + rewrite Hb. simpl. auto.
    + apply (Hthrow _ Hlt).
  - simpl. auto.
  - unfold request_failed. destruct (is_block msg) eqn:Hb'.
    + rewrite Hb'. simpl. auto.
    + apply (Hthrow _ Hlt).
  - simpl. split; [exact Hq |]. split; [exact Hc |]. split; [exact Hlt |].
    right. exists data. split; [exact Hr |].
    rewrite (quiet_seen _ _ Hq). reflexivity.
Qed.

Lemma listingPage_obeys (W : world) (m : BrandMatch.t) (page : nat)
      (l : list Link.t) (c : nat) :
  obeys (listingPage W m page l c).
Proof.
  unfold listingPage. apply obeys_rethrow; [| apply obeys_ret].
  apply obeys_bind; [apply fetchWithScraperAPI_obeys |].
  intros html. destruct (parseBrandListing W html); [apply obeys_ret |].
  apply obeys_bind; [apply obeys_get |]. intros seen.
  destruct (List.filter _ _); [| apply obeys_ret].
  destruct (3 <=? S c); apply obeys_ret.
Qed.

(** ** Pagination *)

Lemma paginate_unfold (W : world) (fuel : nat) (m : BrandMatch.t) (page : nat)
      (l : list Link.t) (c : nat) (s : state) :
  paginate W (S fuel) m page l c s =
  match listingPage W m page l c s with
  | (Return (Break (l', _)), s1) => (Return l', s1)
  | (Return (Continue (l', c')), s1) => paginate W fuel m (S page) l' c' s1
  | (Throw message, s1) => (Throw message, s1)
  | (ProcessExit code, s1) => (ProcessExit code, s1)
  | (OutOfFuel, s1) => (OutOfFuel, s1)
  end.
Proof.
  simpl. unfold bind.
  destruct (listingPage W m page l c s) as [[[[l' c'] | [l' c']] | msg | code |] s1];
    reflexivity.
Qed.

(** the loop bound is never what ends the pagination *)
Lemma paginate_total (W : world) (fuel : nat) :
  forall (m : BrandMatch.t) (page : nat) (l : list Link.t) (c : nat) (s : state),
    1 <= fuel -> MAX_CREDITS <= fuel + creditsUsed s ->
    (paginate W fuel m page l c s).1 <> OutOfFuel.
Proof.
  induction fuel as [|fuel IH]; intros m page l c s Hf Hc; [lia |].
  rewrite paginate_unfold.
  pose proof (listingPage_cases W m page l c s) as H. cbv zeta in H.
  destruct (listingPage W m page l c s) as [[[[l' c'] | [l' c']] | msg | code |] s1];
    simpl in H; try (simpl; discriminate).
  - destruct H as [_ [Hs1 [Hlt _]]]. apply IH; lia.
  - destruct H as [_ [_ []]].
Qed.

Lemma paginate_quiet (W : world) (fuel : nat) :
  forall (m : BrandMatch.t) (page : nat) (l : list Link.t) (c : nat) (s : state),
    quiet s (paginate W fuel m page l c s).2.
Proof.
  induction fuel as [|fuel IH]; intros m page l c s; [apply quiet_refl |].
  rewrite paginate_unfold.
  pose proof (listingPage_cases W m page l c s) as H. cbv zeta in H.
  destruct (listingPage W m page l c s) as [[[[l' c'] | [l' c']] | msg | code |] s1];
    simpl in H; destruct H as [Hq _]; simpl; try exact Hq.
  eapply quiet_trans; [exact Hq | apply IH].
Qed.

Lemma paginate_obeys (W : world) (fuel : nat) :
  forall (m : BrandMatch.t) (page : nat) (l : list Link.t) (c : nat),
    obeys (paginate W fuel m page l c).
Proof.
  induction fuel as [|fuel IH]; intros m page l c.
  - intros s. exists []. apply sound_refl.
  - simpl. apply obeys_bind; [apply listingPage_obeys |].
    intros [[l' c'] | [l' c']]; [apply obeys_ret | apply IH].
Qed.

(** If no page from [from] on shows an unseen reference, pagination charges
    at most the pages before [from] and three more, and from [from] on it
    adds nothing to the references gathered. *)
Lemma paginate_bound (W : world) (from : nat) (fuel : nat) :
  forall (m : BrandMatch.t) (page : nat) (l : list Link.t) (c : nat) (s : state),
    c < 3 ->
    (forall p n data,
        from <= p -> axios_get W n (pageUrl m p) = Body data ->
        unseen W (seenProducts s) data = []) ->
    let r := paginate W fuel m page l c s in
    creditsUsed r.2 <= creditsUsed s + ((from - page) + 3 - (if from <=? page then c else 0))
    /\ (from <= page -> forall l', r.1 = Return l' -> l' = l).
Proof.
  induction fuel as [|fuel IH]; intros m page l c s Hc Hold; cbv zeta.
  { simpl. split; [lia | intros _ l' H; discriminate H]. }
  rewrite paginate_unfold.
  pose proof (listingPage_cases W m page l c s) as H. cbv zeta in H.
  destruct (listingPage W m page l c s) as [[[[l' c'] | [l' c']] | msg | code |] s1];
    simpl in H; destruct H as [Hq [Hs1 H]]; simpl.
  - (* the loop is left *)
    split; [destruct (from <=? page); lia |].
    intros Hfrom l0 Hl0. injection Hl0 as <-.
    destruct H as [_ [H | [data [Hr H]]]]; [congruence |].
    unfold page_turn in H. rewrite (Hold _ _ _ Hfrom Hr) in H.
    destruct (parseBrandListing W data); [congruence |].
    destruct (3 <=? S c); [| discriminate H].
    injection H as -> _. apply app_nil_r.
  - (* one more page *)
    destruct H as [_ [H | [data [Hr H]]]]; [discriminate H |].
    assert (Hold' : forall p n data,
               from <= p -> axios_get W n (pageUrl m p) = Body data ->
               unseen W (seenProducts s1) data = []).
    { rewrite (quiet_seen _ _ Hq). exact Hold. }
    unfold page_turn in H.
    destruct (parseBrandListing W data) as [|x links] eqn:Hlinks; [discriminate H |].
    destruct (from <=? page) eqn:Hfrom.
    + apply Nat.leb_le in Hfrom. rewrite (Hold _ _ _ Hfrom Hr) in H.
      destruct (3 <=? S c) eqn:H3; [discriminate H |].
      injection H as -> ->. apply Nat.leb_gt in H3.
      specialize (IH m (S page) (l ++ []) (S c) s1 H3 Hold'). cbv zeta in IH.
      destruct IH as [IHc IHl].
      assert ((from <=? S page) = true) as Hfrom' by (apply Nat.leb_le; lia).
      rewrite Hfrom' in IHc. split; [lia |].
      intros _ l0 Hl0. rewrite (IHl ltac:(lia) l0 Hl0). apply app_nil_r.
    + apply Nat.leb_gt in Hfrom.
      assert (c' < 3) as Hc'.
      { destruct (unseen W (seenProducts s) data).
        - destruct (3 <=? S c) eqn:H3; [discriminate H |].
          injection H as _ ->. apply Nat.leb_gt in H3. exact H3.
        - injection H as _ ->. lia. }
      specialize (IH m (S page) l' c' s1 Hc' Hold'). cbv zeta in IH.
      destruct IH as [IHc _]. split; [| lia].
      destruct (from <=? S page); lia.
  - split; [destruct (from <=? page); lia | intros _ l0 Hl0; discriminate Hl0].
  - split; [destruct (from <=? page); lia | intros _ l0 Hl0; discriminate Hl0].
  - destruct H.
Qed.

(** ** The budget: the combinators keep computations within it *)

Lemma budgeted_ret {A} (a : A) : budgeted (ret a).
Proof. intros s H. exact H. Qed.

Lemma budgeted_throw {A} (message : string) : budgeted (@throw A message).
Proof. intros s H. exact H. Qed.

Lemma budgeted_get {A} (f : state -> A) : budgeted (get f).
Proof. intros s H. exact H. Qed.

Lemma budgeted_modify (f : state -> state) :
  (forall s, creditsUsed (f s) = creditsUsed s) -> budgeted (modify f).
Proof. intros Hf s H. simpl. rewrite Hf. exact H. Qed.

Lemma budgeted_bind {A B} (m : M A) (k : A -> M B) :
  budgeted m -> (forall a, budgeted (k a)) -> budgeted (bind m k).
Proof.
  intros Hm Hk s Hs. unfold bind. specialize (Hm s Hs).
  destruct (m s) as [[a | msg | c |] s1]; simpl in Hm; try exact Hm.
  apply Hk. exact Hm.
Qed.

Lemma budgeted_try_catch {A} (m : M A) (h : string -> M A) :
  budgeted m -> (forall message, budgeted (h message)) -> budgeted (try_catch m h).
Proof.
  intros Hm Hh s Hs. unfold try_catch. specialize (Hm s Hs).
  destruct (m s) as [[a | msg | c |] s1]; simpl in Hm; try exact Hm.
  apply Hh. exact Hm.
Qed.

Lemma budgeted_rethrow {A} (m : M A) (a : A) :
  budgeted m ->
  budgeted (try_catch m (fun message => if is_block message then throw message else ret a)).
Proof.
  intros Hm. apply budgeted_try_catch; [exact Hm |].
  intros msg. destruct (is_block msg); [apply budgeted_throw | apply budgeted_ret].
Qed.

Lemma fetchWithScraperAPI_budgeted (W : world) (url : string) (b : bool) :
  budgeted (fetchWithScraperAPI W url b).
Proof.
  intros s Hs.
  pose proof (fetchWithScraperAPI_fetched W url b s) as Hf.
  destruct (fetched_quiet _ _ _ _ _ Hf) as [_ Hc].
  destruct (fetchWithScraperAPI W url b s) as [o s1]. simpl in *.
  destruct Hf; subst; simpl; try lia.
  - unfold request_failed. destruct (is_block message); simpl; lia.
  - unfold request_failed. destruct (is_block message); simpl; lia.
Qed.

(** ** Handlers that let only a Block through *)

Lemma block_only_ret {A} (a : A) : block_only (ret a).
Proof. intros s msg H. discriminate H. Qed.

Lemma block_only_bind {A B} (m : M A) (k : A -> M B) :
  block_only m -> (forall a, block_only (k a)) -> block_only (bind m k).
Proof.
  intros Hm Hk s msg. unfold bind. specialize (Hm s).
  destruct (m s) as [[a | msg' | c |] s1]; simpl in *; intros H; try discriminate H.
  - eapply Hk. exact H.
  - injection H as <-. apply Hm. reflexivity.
Qed.

Lemma block_only_rethrow {A} (m : M A) (a : A) :
  block_only (try_catch m (fun message => if is_block message then throw message else ret a)).
Proof.
  intros s msg. unfold try_catch.
  destruct (m s) as [[x | msg' | c |] s1]; simpl; intros H; try discriminate H.
  destruct (is_block msg') eqn:Hb; simpl in H; [| discriminate H].
  injection H as <-. exact Hb.
Qed.

(** ** Steps that leave the ledger alone *)

Lemma obeys_modify_silent (f : state -> state) :
  (forall s, trace (f s) = trace s) ->
  (forall s, seenProducts (f s) = seenProducts s) ->
  obeys (modify f).
Proof.
  intros Ht Hs s. exists []. simpl. constructor; simpl.
  - rewrite Ht. symmetry. apply app_nil_r.
  - apply Hs.
  - rewrite Hs. reflexivity.
  - apply fatal_last_nil.
Qed.

Lemma sound_emit (e : event) (s s' : state) (k : kind) :
  fatal e = false -> replay [e] (seenProducts s) = seenProducts s ->
  trace s' = trace s ++ [e] -> seenProducts s' = seenProducts s ->
  sound s [e] k s'.
Proof.
  intros He Hr Ht Hs. constructor.
  - exact Ht.
  - rewrite Hr. exact Hs.
  - rewrite Hs. reflexivity.
  - apply fatal_last_quiet. exact He.
Qed.

Lemma saveSeenProducts_obeys (W : world) : obeys (saveSeenProducts W).
Proof.
  intros s. unfold saveSeenProducts.
  destruct (fs_write W (fs_ops s)); simpl.
  - exists [EvSaveSeen (seenProducts s) false]. apply sound_emit; reflexivity.
  - exists [EvSaveSeen (seenProducts s) true]. apply sound_emit; reflexivity.
Qed.

Lemma saveSeenProducts_budgeted (W : world) : budgeted (saveSeenProducts W).
Proof.
  intros s H. unfold saveSeenProducts. destruct (fs_write W (fs_ops s)); exact H.
Qed.

Lemma appendScrapedProduct_obeys (W : world) (p : Product.t) :
  obeys (appendScrapedProduct W p).
Proof.
  intros s. unfold appendScrapedProduct.
  destruct (fs_write W (fs_ops s)); simpl.
  - exists [EvAppend p false]. apply sound_emit; reflexivity.
  - exists [EvAppend p true]. apply sound_emit; reflexivity.
Qed.

Lemma appendScrapedProduct_budgeted (W : world) (p : Product.t) :
  budgeted (appendScrapedProduct W p).
Proof.
  intros s H. unfold appendScrapedProduct. destruct (fs_write W (fs_ops s)); exact H.
Qed.

(** ** Parsing a product page *)

Lemma parseProductPage_cases (W : world) (html url brand : string) (s : state) :
  let r := parseProductPage W html url brand s in
  r.2 = s /\
  match r.1 with
  | Return p =>
      Product.id p = extractProductId url /\
      Product.name p = Str.trim (h1_text W html) /\
      Product.scrapedAt p = clock W (creditsUsed s) /\
      extractLaunchYear (Product.specs p) = Some (Product.launchYear p)
  | Throw message => is_block message = false
  | _ => False
  end.
Proof.
  cbv zeta. unfold parseProductPage.
  destruct (Str.is_empty (Str.trim (h1_text W html))); [split; reflexivity |].
  destruct (extractLaunchYear (build_specs (specs_tables W html))) as [y |] eqn:Hy;
    [| split; reflexivity].
  destruct (y =? 0); [split; reflexivity |].
  simpl. auto.
Qed.

(** ** One product *)

Lemma scrapeProduct_unfold (W : world) (url brand : string) (s : state) :
  scrapeProduct W url brand s =
  match extractProductId url with
  | None => (Throw ("Could not extract product ID from URL: " +:+ url), s)
  | Some pid =>
      if is_seen (seenProducts s) pid then (Return None, s)
      else
        match fetchWithScraperAPI W url false s with
        | (Return html, s1) =>
            match (parseProductPage W html url brand s1).1 with
            | Return p =>
                if Product.launchYear p <? MIN_LAUNCH_YEAR then (Return None, s1)
                else (Return (Some p), recorded pid (ledger_entry pid p) s1)
            | _ => (Return None, s1)
            end
        | (Throw message, s1) =>
            if is_block message then (Throw message, s1) else (Return None, s1)
        | (ProcessExit c, s1) => (ProcessExit c, s1)
        | (OutOfFuel, s1) => (OutOfFuel, s1)
        end
  end.
Proof.
  unfold scrapeProduct. destruct (extractProductId url) as [pid |]; [| reflexivity].
  unfold bind at 1. unfold get at 1. cbv iota beta.
  destruct (is_seen (seenProducts s) pid); [reflexivity |].
  unfold try_catch, bind.
  destruct (fetchWithScraperAPI W url false s) as [[html | msg | c |] s1]; try reflexivity.
  - pose proof (parseProductPage_cases W html url brand s1) as Hp. cbv zeta in Hp.
    destruct (parseProductPage W html url brand s1) as [[p | msg | c |] s2];
      simpl in Hp; destruct Hp as [-> Hp]; simpl.
    + destruct (Product.launchYear p <? MIN_LAUNCH_YEAR); reflexivity.
    + rewrite Hp. reflexivity.
    + destruct Hp.
    + destruct Hp.
  - unfold throw, ret. destruct (is_block msg); reflexivity.
Qed.

Lemma scrapeProduct_obeys (W : world) (url brand : string) : obeys (scrapeProduct W url brand).
Proof.
  intros s. rewrite scrapeProduct_unfold.
  destruct (extractProductId url) as [pid |]; [| exists []; apply sound_refl].
  destruct (is_seen (seenProducts s) pid) eqn:Hseen; [exists []; apply sound_refl |].
  pose proof (fetchWithScraperAPI_fetched W url false s) as Hf.
  destruct (fetched_quiet _ _ _ _ _ Hf) as [Hq _].
  destruct (fetched_sound _ _ _ _ _ Hf) as [t1 H1].
  destruct (fetchWithScraperAPI W url false s) as [[html | msg | c |] s1];
    simpl in Hq, H1; simpl; try (exists t1; exact H1).
  - assert (Hnone : exists t, sound s t KReturn s1) by (exists t1; exact H1).
    destruct ((parseProductPage W html url brand s1).1) as [p | msg | c |]; try exact Hnone.
    destruct (Product.launchYear p <? MIN_LAUNCH_YEAR); [exact Hnone |].
    exists (t1 ++ [EvRecord pid (ledger_entry pid p)]). simpl.
    eapply sound_seq; [exact H1 | exact I |].
    constructor; simpl; auto.
    + apply insert_subseteq. rewrite (quiet_seen _ _ Hq).
      unfold is_seen in Hseen. destruct (seenProducts s !! pid); [discriminate | reflexivity].
    + apply fatal_last_quiet. reflexivity.
  - destruct (is_block msg) eqn:Hb; simpl.
    + exists t1. exact H1.
    + exists t1. destruct H1 as [Ht Hr Hm Hl]. constructor; auto.
      intros pre e post Heq He.
      assert (fatal e = false) as Hq'.
      { apply (fatal_last_goes_on _ _ Hl Hb). rewrite Heq. apply in_elt. }
      congruence.
Qed.

Lemma scrapeProduct_budgeted (W : world) (url brand : string) :
  budgeted (scrapeProduct W url brand).
Proof.
  intros s Hs. rewrite scrapeProduct_unfold.
  destruct (extractProductId url) as [pid |]; [| exact Hs].
  destruct (is_seen (seenProducts s) pid); [exact Hs |].
  pose proof (fetchWithScraperAPI_budgeted W url false s Hs) as Hb.
  destruct (fetchWithScraperAPI W url false s) as [[html | msg | c |] s1];
    simpl in Hb; simpl; try exact Hb.
  - destruct ((parseProductPage W html url brand s1).1) as [p | msg | c |]; try exact Hb.
    destruct (Product.launchYear p <? MIN_LAUNCH_YEAR); exact Hb.
  - destruct (is_block msg); exact Hb.
Qed.

(** ** The pagination of one category *)

Lemma listingPage_budgeted (W : world) (m : BrandMatch.t) (page : nat)
      (l : list Link.t) (c : nat) :
  budgeted (listingPage W m page l c).
Proof.
  unfold listingPage. apply budgeted_rethrow.
  apply budgeted_bind; [apply fetchWithScraperAPI_budgeted |].
  intros html. destruct (parseBrandListing W html); [apply budgeted_ret |].
  apply budgeted_bind; [apply budgeted_get |]. intros seen.
  destruct (List.filter _ _); [| apply budgeted_ret].
  destruct (3 <=? S c); apply budgeted_ret.
Qed.

Lemma paginate_budgeted (W : world) (fuel : nat) :
  forall (m : BrandMatch.t) (page : nat) (l : list Link.t) (c : nat) (s : state),
    1 <= fuel -> MAX_CREDITS <= fuel + creditsUsed s ->
    within_budget s (kind_of (paginate W fuel m page l c s).1) (paginate W fuel m page l c s).2.
Proof.
  induction fuel as [|fuel IH]; intros m page l c s Hf Hc Hs; [lia |].
  rewrite paginate_unfold.
  pose proof (listingPage_cases W m page l c s) as H. cbv zeta in H.
  pose proof (listingPage_budgeted W m page l c s Hs) as Hb.
  destruct (listingPage W m page l c s) as [[[[l' c'] | [l' c']] | msg | code |] s1];
    simpl in H, Hb; simpl; try exact Hb.
  destruct H as [_ [Hs1 [Hlt _]]]. apply IH; lia.
Qed.

Lemma paginate_block_only (W : world) (fuel : nat) :
  forall (m : BrandMatch.t) (page : nat) (l : list Link.t) (c : nat),
    block_only (paginate W fuel m page l c).
Proof.
  induction fuel as [|fuel IH]; intros m page l c.
  - intros s msg H. discriminate H.
  - simpl. apply block_only_bind.
    + unfold listingPage. apply block_only_rethrow.
    + intros [[l' c'] | [l' c']]; [apply block_only_ret | apply IH].
Qed.

Lemma getBrandProductLinks_obeys (W : world) (brandUrl : string) :
  obeys (getBrandProductLinks W brandUrl).
Proof.
  unfold getBrandProductLinks.
  destruct (matchBrandUrl brandUrl); [apply paginate_obeys | apply obeys_throw].
Qed.

Lemma getBrandProductLinks_budgeted (W : world) (brandUrl : string) :
  budgeted (getBrandProductLinks W brandUrl).
Proof.
  intros s Hs. unfold getBrandProductLinks.
  destruct (matchBrandUrl brandUrl); [| exact Hs].
  apply paginate_budgeted; unfold MAX_CREDITS in *; lia.
Qed.

Lemma getBrandProductLinks_quiet (W : world) (brandUrl : string) (s : state) :
  quiet s (getBrandProductLinks W brandUrl s).2.
Proof.
  unfold getBrandProductLinks.
  destruct (matchBrandUrl brandUrl); [apply paginate_quiet | apply quiet_refl].
Qed.

(** the pagination never stops for want of loop turns *)
Lemma getBrandProductLinks_total (W : world) (brandUrl : string) (s : state) :
  (getBrandProductLinks W brandUrl s).1 <> OutOfFuel.
Proof.
  unfold getBrandProductLinks.
  destruct (matchBrandUrl brandUrl); [| discriminate].
  apply paginate_total; unfold MAX_CREDITS; lia.
Qed.

(** only a malformed listing URL makes it throw anything but a Block *)
Lemma getBrandProductLinks_throws (W : world) (brandUrl : string) (s : state) (message : string) :
  (getBrandProductLinks W brandUrl s).1 = Throw message ->
  is_block message = true \/
  (matchBrandUrl brandUrl = None /\ message = "Invalid brand URL: " +:+ brandUrl).
Proof.
  unfold getBrandProductLinks.
  destruct (matchBrandUrl brandUrl) as [m |]; intros H.
  - left. eapply paginate_block_only. exact H.
  - right. injection H as <-. split; reflexivity.
Qed.

(** ** The items of one category *)

Lemma scrapeLink_obeys (W : world) (brand : string) (link : Link.t) (n : nat) :
  obeys (scrapeLink W brand link n).
Proof.
  unfold scrapeLink. apply obeys_rethrow; [| apply obeys_ret].
  apply obeys_bind; [apply scrapeProduct_obeys |].
  intros [p |].
  - apply obeys_bind; [apply obeys_modify_silent; reflexivity |]. intros _.
    apply obeys_bind; [apply appendScrapedProduct_obeys |]. intros _.
    apply obeys_ret.
  - destruct (3 <=? S n); apply obeys_ret.
Qed.

Lemma scrapeLink_budgeted (W : world) (brand : string) (link : Link.t) (n : nat) :
  budgeted (scrapeLink W brand link n).
Proof.
  unfold scrapeLink. apply budgeted_rethrow.
  apply budgeted_bind; [apply scrapeProduct_budgeted |].
  intros [p |].
  - apply budgeted_bind; [apply budgeted_modify; reflexivity |]. intros _.
    apply budgeted_bind; [apply appendScrapedProduct_budgeted |]. intros _.
    apply budgeted_ret.
  - destruct (3 <=? S n); apply budgeted_ret.
Qed.

Lemma scrapeLinks_obeys (W : world) (brand : string) (links : list Link.t) :
  forall n, obeys (scrapeLinks W brand links n).
Proof.
  induction links as [|link rest IH]; intros n; simpl; [apply obeys_ret |].
  apply obeys_bind; [apply scrapeLink_obeys |].
  intros [c | c]; [apply obeys_ret | apply IH].
Qed.

Lemma scrapeLinks_budgeted (W : world) (brand : string) (links : list Link.t) :
  forall n, budgeted (scrapeLinks W brand links n).
Proof.
  induction links as [|link rest IH]; intros n; simpl; [apply budgeted_ret |].
  apply budgeted_bind; [apply scrapeLink_budgeted |].
  intros [c | c]; [apply budgeted_ret | apply IH].
Qed.

Lemma scrapeLinks_block_only (W : world) (brand : string) (links : list Link.t) :
  forall n, block_only (scrapeLinks W brand links n).
Proof.
  induction links as [|link rest IH]; intros n; simpl; [apply block_only_ret |].
  apply block_only_bind; [unfold scrapeLink; apply block_only_rethrow |].
  intros [c | c]; [apply block_only_ret | apply IH].
Qed.

(** ** Categories *)

Lemma obeys_banner (bc : BrandCategory.t) : obeys (modify (emit (EvCategory bc))).
Proof. intros s. exists [EvCategory bc]. apply sound_emit; reflexivity. Qed.

Lemma processCategory_obeys (W : world) (bc : BrandCategory.t) : obeys (processCategory W bc).
Proof.
  unfold processCategory. apply obeys_bind; [apply obeys_banner |]. intros _.
  apply obeys_rethrow; [| apply obeys_ret].
  apply obeys_bind; [apply getBrandProductLinks_obeys |].
  intros [|x links]; [apply obeys_ret |].
  apply obeys_bind; [apply scrapeLinks_obeys |]. intros _.
  apply saveSeenProducts_obeys.
Qed.

Lemma processCategory_budgeted (W : world) (bc : BrandCategory.t) :
  budgeted (processCategory W bc).
Proof.
  unfold processCategory. apply budgeted_bind; [apply budgeted_modify; reflexivity |].
  intros _. apply budgeted_rethrow.
  apply budgeted_bind; [apply getBrandProductLinks_budgeted |].
  intros [|x links]; [apply budgeted_ret |].
  apply budgeted_bind; [apply scrapeLinks_budgeted |]. intros _.
  apply saveSeenProducts_budgeted.
Qed.

Lemma scrapeCategories_obeys (W : world) (cats : list BrandCategory.t) :
  obeys (scrapeCategories W cats).
Proof.
  induction cats as [|bc rest IH]; simpl; [apply obeys_ret |].
  apply obeys_bind; [apply processCategory_obeys | intros _; exact IH].
Qed.

Lemma scrapeCategories_budgeted (W : world) (cats : list BrandCategory.t) :
  budgeted (scrapeCategories W cats).
Proof.
  induction cats as [|bc rest IH]; simpl; [apply budgeted_ret |].
  apply budgeted_bind; [apply processCategory_budgeted | intros _; exact IH].
Qed.

(** ** The run *)

Lemma runIncrementalScraper_unfold (W : world) (cats : list BrandCategory.t) (s : state) :
  runIncrementalScraper W cats s =
  match scrapeCategories W cats (loaded s) with
  | (Throw _, s1) => (ProcessExit 1, (saveSeenProducts W s1).2)
  | r => r
  end.
Proof.
  unfold runIncrementalScraper, loadSeenProducts, bind, get, modify, try_catch, exit, loaded.
  destruct (scrapeCategories W cats _) as [[[] | msg | c |] s1]; try reflexivity.
  unfold saveSeenProducts. destruct (fs_write W (fs_ops s1)); reflexivity.
Qed.

(** without a key the module body leaves before the run starts *)
Lemma main_without_key (W : world) (cats : list BrandCategory.t) (s : state) :
  api_key_set W = false -> main W cats s = (ProcessExit 1, s).
Proof. intros H. unfold main. rewrite H. reflexivity. Qed.

(** a run never stops for want of loop turns, and the counter never passes
    the ceiling *)
Lemma runIncrementalScraper_total (W : world) (cats : list BrandCategory.t) (s : state) :
  creditsUsed s < MAX_CREDITS ->
  (runIncrementalScraper W cats s).1 <> OutOfFuel /\
  creditsUsed (runIncrementalScraper W cats s).2 <= MAX_CREDITS.
Proof.
  intros Hs. rewrite runIncrementalScraper_unfold.
  pose proof (scrapeCategories_budgeted W cats (loaded s) Hs) as Hb.
  destruct (scrapeCategories W cats (loaded s)) as [[[] | msg | c |] s1]; simpl in Hb; simpl.
  - split; [discriminate | lia].
  - split; [discriminate |].
    unfold saveSeenProducts. destruct (fs_write W (fs_ops s1)); simpl; lia.
  - split; [discriminate | lia].
  - destruct Hb.
Qed.

(** ** Which pages a pagination requests *)

Lemma fetched_trace (W : world) (url : string) (s : state) (o : outcome string) (s' : state) :
  fetched W url s o s' ->
  exists t, trace s' = trace s ++ t /\
            forall u r, In (EvFetch u r) t -> u = url.
Proof.
  assert (Hone : forall n u r, In (EvFetch u r) [EvCharge n] -> u = url).
  { intros n u r [H | []]. discriminate H. }
  assert (Htwo : forall n x u r, In (EvFetch u r) [EvCharge n; EvFetch url x] -> u = url).
  { intros n x u r [H | [H | []]]; [discriminate H | injection H as <- _; reflexivity]. }
  intros H.
  destruct H as [Hmax | Hlt Hkey | msg s' Hlt Hr -> | data s' Hlt Hr Hb ->
                 | data msg s' Hlt Hr Hb -> | data s' Hlt Hkey Hr Hb [-> | ->]].
  - exists [EvCharge (S (creditsUsed s))]. split; [reflexivity | apply Hone].
  - exists [EvCharge (S (creditsUsed s))]. split; [reflexivity | apply Hone].
  - exists [EvCharge (S (creditsUsed s)); EvFetch url (NetError msg)]. split; [| apply Htwo].
    simpl. rewrite <- app_assoc. reflexivity.
  - exists [EvCharge (S (creditsUsed s)); EvFetch url (Body data)]. split; [| apply Htwo].
    simpl. rewrite <- app_assoc. reflexivity.
  - exists [EvCharge (S (creditsUsed s)); EvFetch url (Body data)]. split; [| apply Htwo].
    simpl. rewrite <- app_assoc. reflexivity.
  - exists [EvCharge (S (creditsUsed s)); EvFetch url (Body data)]. split; [| apply Htwo].
    simpl. rewrite <- app_assoc. reflexivity.
  - exists [EvCharge (S (creditsUsed s)); EvFetch url (Body data)]. split; [| apply Htwo].
    simpl. rewrite <- app_assoc. reflexivity.
Qed.

Lemma listingPage_state (W : world) (m : BrandMatch.t) (page : nat)
      (l : list Link.t) (c : nat) (s : state) :
  (listingPage W m page l c s).2 = (fetchWithScraperAPI W (pageUrl m page) false s).2.
Proof.
  rewrite listingPage_unfold.
  destruct (fetchWithScraperAPI W (pageUrl m page) false s) as [[data | msg | code |] s1];
    try reflexivity.
  destruct (is_block msg); reflexivity.
Qed.

(** the pages requested are numbered from [page] on, one per credit *)
Lemma paginate_pages (W : world) (fuel : nat) :
  forall (m : BrandMatch.t) (page : nat) (l : list Link.t) (c : nat) (s : state),
    let r := paginate W fuel m page l c s in
    exists t, trace r.2 = trace s ++ t /\
              forall u resp, In (EvFetch u resp) t ->
                exists p, page <= p /\ p < page + (creditsUsed r.2 - creditsUsed s) /\
                          u = pageUrl m p.
Proof.
  induction fuel as [|fuel IH]; intros m page l c s; cbv zeta.
  { exists []. simpl. split; [symmetry; apply app_nil_r | intros u resp []]. }
  rewrite paginate_unfold.
  pose proof (listingPage_cases W m page l c s) as H. cbv zeta in H.
  pose proof (listingPage_state W m page l c s) as Hst.
  pose proof (fetchWithScraperAPI_fetched W (pageUrl m page) false s) as Hf.
  apply fetched_trace in Hf. rewrite <- Hst in Hf. destruct Hf as [t1 [Ht1 Hu1]].
  assert (Hhere : forall s1 : state,
             creditsUsed s1 = S (creditsUsed s) ->
             forall u resp, In (EvFetch u resp) t1 ->
               exists p, page <= p /\ p < page + (creditsUsed s1 - creditsUsed s) /\
                         u = pageUrl m p).
  { intros s1 Hs1 u resp Hin. exists page. rewrite (Hu1 _ _ Hin). repeat split; lia. }
  destruct (listingPage W m page l c s) as [[[[l' c'] | [l' c']] | msg | code |] s1];
    simpl in H, Ht1; destruct H as [Hq [Hs1 H]]; simpl;
    try (exists t1; split; [exact Ht1 | apply Hhere; exact Hs1]).
  - destruct (IH m (S page) l' c' s1) as [t2 [Ht2 Hu2]].
    pose proof (quiet_credits _ _ (paginate_quiet W fuel m (S page) l' c' s1)) as Hge.
    exists (t1 ++ t2). split.
    + rewrite Ht2, Ht1. symmetry. apply app_assoc.
    + intros u resp Hin. apply in_app_or in Hin as [Hin | Hin].
      * exists page. rewrite (Hu1 _ _ Hin). repeat split; lia.
      * destruct (Hu2 _ _ Hin) as [p [Hp1 [Hp2 ->]]].
        exists p. repeat split; lia.
Qed.

(** ** The final flush *)

Lemma saveSeenProducts_cases (W : world) (s : state) :
  exists ok s',
    saveSeenProducts W s = (Return tt, s') /\
    trace s' = trace s ++ [EvSaveSeen (seenProducts s) ok] /\
    seenProducts s' = seenProducts s /\
    creditsUsed s' = creditsUsed s /\
    allScrapedProducts s' = allScrapedProducts s /\
    state_file s' = (if ok then Some (seenProducts s) else state_file s) /\
    ok = match fs_write W (fs_ops s) with None => true | Some _ => false end.
Proof.
  unfold saveSeenProducts. destruct (fs_write W (fs_ops s)).
  - exists false. eexists. repeat split.
  - exists true. eexists. repeat split.
Qed.

Lemma is_block_invalid_brand_url (brandUrl : string) :
  is_block ("Invalid brand URL: " +:+ brandUrl) = is_block brandUrl.
Proof. reflexivity. Qed.

(** ** The run as a whole *)

Lemma single_split {A} (x e : A) (pre post : list A) :
  [x] = pre ++ e :: post -> pre = [] /\ x = e /\ post = [].
Proof.
  destruct pre as [|y pre]; simpl; intros H.
  - injection H as -> <-. auto.
  - injection H as _ H. destruct pre; discriminate H.
Qed.

Lemma replay_fetch (url : string) (r : response) (pre : list event) (l : ledger) :
  replay (pre ++ [EvFetch url r]) l = replay pre l.
Proof. rewrite replay_app. reflexivity. Qed.

(** C1, as amended: from any state below the ceiling, if a run charges a
    credit that reaches [MAX_CREDITS], the process ends there: the request
    is not issued, no later request is issued or charged, the counter stands
    at the ceiling, and the process leaves with status 0. *)
Theorem credit_ceiling_exits_with_status_zero
        (W : world) (cats : list BrandCategory.t) (s : state)
        (pre post : list event) (n : nat) :
  creditsUsed s < MAX_CREDITS ->
  trace (runIncrementalScraper W cats s).2 = trace s ++ pre ++ EvCharge n :: post ->
  MAX_CREDITS <= n ->
  existsb is_net post = false /\
  (runIncrementalScraper W cats s).1 = ProcessExit 0 /\
  exit_status (runIncrementalScraper W cats s).1 = Some 0%Z /\
  creditsUsed (runIncrementalScraper W cats s).2 = MAX_CREDITS.
Proof.
  intros Hs Ht Hn. rewrite runIncrementalScraper_unfold in *.
  destruct (scrapeCategories_obeys W cats (loaded s)) as [t [Htr _ _ Hfl]].
  pose proof (scrapeCategories_budgeted W cats (loaded s) Hs) as Hb.
  assert (Hfatal : fatal (EvCharge n) = true) by (apply Nat.leb_le; exact Hn).
  change (trace (loaded s)) with (trace s) in Htr.
  destruct (scrapeCategories W cats (loaded s)) as [[[] | msg | c |] s1];
    simpl in Htr, Hfl, Hb.
  - simpl in Ht. rewrite Htr in Ht. apply app_inv_head in Ht.
    destruct (Hfl _ _ _ Ht Hfatal) as [_ Hk]. discriminate Hk.
  - exfalso. destruct (saveSeenProducts_cases W s1) as [ok [s2 [Hsave [Ht2 _]]]].
    simpl in Ht. rewrite Hsave in Ht. simpl in Ht.
    rewrite Ht2, Htr, <- app_assoc in Ht. apply app_inv_head in Ht.
    destruct (app_cons_split _ _ _ _ _ Ht) as [[p1 [Hp1 _]] | [p2 [_ Hp2]]].
    + destruct (Hfl _ _ _ Hp1 Hfatal) as [_ Hk]. discriminate Hk.
    + apply single_split in Hp2 as [_ [Hp2 _]]. discriminate Hp2.
  - simpl in Ht. rewrite Htr in Ht. apply app_inv_head in Ht.
    destruct (Hfl _ _ _ Ht Hfatal) as [-> Hk]. injection Hk as ->.
    destruct Hb as [_ Hb]. simpl. auto.
  - destruct Hb.
Qed.

(** C1, as stated, fails: on a listing of five hundred pages the run
    reaches the ceiling while scraping products; the process leaves with
    status 0, not 1, and nothing was flushed: 449 entries are in memory, the
    ledger file was never written. *)
Lemma credit_ceiling_counterexample :
  let r := runIncrementalScraper Demo.endless [Demo.acme] (boot None ∅) in
  (exit_status r.1, creditsUsed r.2, size (seenProducts r.2), state_file r.2,
   last (trace r.2), existsb is_save (trace r.2))
  = (Some 0%Z, MAX_CREDITS, 449, None, Some (EvCharge MAX_CREDITS), false).
Proof. vm_compute. reflexivity. Qed.

(** the theorem on the shop, entered two credits below the ceiling *)
Lemma credit_ceiling_witness :
  (runIncrementalScraper Demo.shop [Demo.acme] Demo.near_ceiling).1 = ProcessExit 0 /\
  creditsUsed (runIncrementalScraper Demo.shop [Demo.acme] Demo.near_ceiling).2 = MAX_CREDITS.
Proof.
  destruct (credit_ceiling_exits_with_status_zero
              Demo.shop [Demo.acme] Demo.near_ceiling
              [EvCategory Demo.acme; EvCharge 949; EvFetch Demo.acme_url (Body "list-ab")]
              [] 950) as [_ [H1 [_ H2]]].
  - unfold MAX_CREDITS. simpl. lia.
  - vm_compute. reflexivity.
  - unfold MAX_CREDITS. lia.
  - split; assumption.
Defined.

(** ** A run over a source whose every reference is already in the ledger *)

Section AllSeen.

Context (W : world) (seen : ledger).
Hypothesis all_seen :
  forall n url data, axios_get W n url = Body data -> unseen W seen data = [].

Lemma getBrandProductLinks_all_seen (brandUrl : string) (s : state) :
  seenProducts s = seen ->
  creditsUsed (getBrandProductLinks W brandUrl s).2 <= creditsUsed s + 3 /\
  forall l, (getBrandProductLinks W brandUrl s).1 = Return l -> l = [].
Proof.
  intros Hs. unfold getBrandProductLinks.
  destruct (matchBrandUrl brandUrl) as [m |].
  - assert (Hold : forall p n data,
               0 <= p -> axios_get W n (pageUrl m p) = Body data ->
               unseen W (seenProducts s) data = []).
    { intros p n data _ H. rewrite Hs. eapply all_seen. exact H. }
    destruct (paginate_bound W 0 MAX_CREDITS m 1 [] 0 s ltac:(lia) Hold) as [Hc Hl].
    change (0 - 1 + 3 - (if 0 <=? 1 then 0 else 0)) with 3 in Hc.
    split; [exact Hc |]. intros l H. apply Hl; [lia | exact H].
  - simpl. split; [lia | intros l H; discriminate H].
Qed.

Lemma processCategory_all_seen (bc : BrandCategory.t) (s : state) :
  seenProducts s = seen ->
  (processCategory W bc s).2
  = (getBrandProductLinks W (BrandCategory.url bc) (emit (EvCategory bc) s)).2 /\
  creditsUsed (processCategory W bc s).2 <= creditsUsed s + 3 /\
  seenProducts (processCategory W bc s).2 = seen /\
  allScrapedProducts (processCategory W bc s).2 = allScrapedProducts s.
Proof.
  intros Hs.
  pose proof (getBrandProductLinks_all_seen (BrandCategory.url bc) (emit (EvCategory bc) s) Hs)
    as [Hc Hl].
  pose proof (getBrandProductLinks_quiet W (BrandCategory.url bc) (emit (EvCategory bc) s))
    as [Hq1 Hq2 _ _ _ _].
  assert (Hstate : (processCategory W bc s).2
                   = (getBrandProductLinks W (BrandCategory.url bc) (emit (EvCategory bc) s)).2).
  { unfold processCategory, bind, modify, try_catch.
    destruct (getBrandProductLinks W (BrandCategory.url bc) (emit (EvCategory bc) s))
      as [[l | msg | c |] s1]; try reflexivity.
    - rewrite (Hl l eq_refl). reflexivity.
    - destruct (is_block msg); reflexivity. }
  rewrite Hstate. repeat split.
  - exact Hc.
  - rewrite Hq1. exact Hs.
  - exact Hq2.
Qed.

Lemma scrapeCategories_all_seen (cats : list BrandCategory.t) :
  forall s,
    seenProducts s = seen ->
    creditsUsed (scrapeCategories W cats s).2 <= creditsUsed s + 3 * length cats /\
    seenProducts (scrapeCategories W cats s).2 = seen /\
    allScrapedProducts (scrapeCategories W cats s).2 = allScrapedProducts s.
Proof.
  induction cats as [|bc rest IH]; intros s Hs.
  - simpl. repeat split; [lia | exact Hs].
  - destruct (processCategory_all_seen bc s Hs) as [_ [Hc [Hseen Hall]]].
    simpl. unfold bind.
    destruct (processCategory W bc s) as [[[] | msg | c |] s1]; simpl in *;
      try (repeat split; [lia | exact Hseen | exact Hall]).
    destruct (IH s1 Hseen) as [IHc [IHs IHa]].
    repeat split; [lia | exact IHs | congruence].
Qed.

End AllSeen.

(** C3, as amended: when the ledger a run starts from already holds every
    reference the source lists, the run accepts nothing, leaves the ledger
    as it was, and each category costs its pagination and nothing else: at
    most three charged requests (the early stop comes after three pages
    without an unseen reference, not after the first). *)
Theorem rerun_charges_only_pagination
        (W : world) (cats : list BrandCategory.t)
        (file : option ledger) (brands : gmap string (list Product.t)) :
  (forall n url data,
      axios_get W n url = Body data -> unseen W (default ∅ file) data = []) ->
  creditsUsed (runIncrementalScraper W cats (boot file brands)).2 <= 3 * length cats /\
  seenProducts (runIncrementalScraper W cats (boot file brands)).2 = default ∅ file /\
  allScrapedProducts (runIncrementalScraper W cats (boot file brands)).2 = [] /\
  forall bc s,
    seenProducts s = default ∅ file ->
    (processCategory W bc s).2
    = (getBrandProductLinks W (BrandCategory.url bc) (emit (EvCategory bc) s)).2 /\
    creditsUsed (processCategory W bc s).2 <= creditsUsed s + 3.
Proof.
  intros Hall. rewrite runIncrementalScraper_unfold.
  destruct (scrapeCategories_all_seen W _ Hall cats (loaded (boot file brands)) eq_refl)
    as [Hc [Hs Ha]].
  simpl in Hc, Ha.
  assert (Hcat : forall bc s,
             seenProducts s = default ∅ file ->
             (processCategory W bc s).2
             = (getBrandProductLinks W (BrandCategory.url bc) (emit (EvCategory bc) s)).2 /\
             creditsUsed (processCategory W bc s).2 <= creditsUsed s + 3).
  { intros bc s Hseen.
    destruct (processCategory_all_seen W _ Hall bc s Hseen) as [H1 [H2 _]]. auto. }
  destruct (scrapeCategories W cats (loaded (boot file brands))) as [[[] | msg | c |] s1];
    simpl in *; auto.
  destruct (saveSeenProducts_cases W s1) as [ok [s2 [Hsave [_ [Hseen [Hcr [Hal _]]]]]]].
  rewrite Hsave. simpl.
  split; [lia |]. split; [congruence |]. split; [congruence |]. exact Hcat.
Qed.

(** C3, as stated, fails: the second run over the unchanged shop, started
    from the ledger the first run wrote, charges three requests for its one
    category: the first listing page, the second listing page, and the page
    of the product the first run had left out of the ledger. *)
Lemma rerun_counterexample :
  let run1 := runIncrementalScraper Demo.shop [Demo.acme] (boot None ∅) in
  let run2 := runIncrementalScraper Demo.shop [Demo.acme]
                                    (boot (state_file run1.2) (brand_files run1.2)) in
  (run1.1, run2.1, creditsUsed run2.2, fetch_urls (trace run2.2))
  = (Return tt, Return tt, 3,
     [ "https://www.gsmarena.com/acme-phones-1.php";
       "https://www.gsmarena.com/acme-phones-f-1-0-p2.php";
       "https://www.gsmarena.com/b-2.php" ]).
Proof. vm_compute. reflexivity. Qed.

(** the theorem on the second run over the solo site *)
Lemma rerun_witness :
  creditsUsed
    (runIncrementalScraper Demo.solo [Demo.acme]
       (boot (state_file (runIncrementalScraper Demo.solo [Demo.acme] (boot None ∅)).2) ∅)).2
  <= 3 * 1.
Proof.
  refine (proj1 (rerun_charges_only_pagination
                   Demo.solo [Demo.acme]
                   (state_file (runIncrementalScraper Demo.solo [Demo.acme] (boot None ∅)).2)
                   ∅ _)).
  intros n url data H.
  cbn [axios_get Demo.solo Demo.world_of Demo.by_url] in H. injection H as <-.
  unfold Demo.assoc.
  destruct (String.eqb url Demo.acme_url); [vm_compute; reflexivity |].
  destruct (String.eqb url "https://www.gsmarena.com/a-1.php"); vm_compute; reflexivity.
Defined.

(** ** Flushing between categories *)

Lemma processCategory_unfold (W : world) (bc : BrandCategory.t) (s : state) :
  processCategory W bc s =
  match getBrandProductLinks W (BrandCategory.url bc) (emit (EvCategory bc) s) with
  | (Return [], s1) => (Return tt, s1)
  | (Return (x :: links), s1) =>
      match scrapeLinks W (BrandCategory.name bc) (x :: links) 0 s1 with
      | (Return _, s2) => saveSeenProducts W s2
      | (Throw message, s2) =>
          if is_block message then (Throw message, s2) else (Return tt, s2)
      | (ProcessExit c, s2) => (ProcessExit c, s2)
      | (OutOfFuel, s2) => (OutOfFuel, s2)
      end
  | (Throw message, s1) =>
      if is_block message then (Throw message, s1) else (Return tt, s1)
  | (ProcessExit c, s1) => (ProcessExit c, s1)
  | (OutOfFuel, s1) => (OutOfFuel, s1)
  end.
Proof.
  unfold processCategory, bind, modify, try_catch.
  destruct (getBrandProductLinks W (BrandCategory.url bc) (emit (EvCategory bc) s))
    as [[[|x links] | msg | c |] s1]; try reflexivity.
  - destruct (scrapeLinks W (BrandCategory.name bc) (x :: links) 0 s1)
      as [[[] | msg | c |] s2]; try reflexivity.
    + destruct (saveSeenProducts_cases W s2) as [ok [s3 [-> _]]]. reflexivity.
    + unfold throw, ret. destruct (is_block msg); reflexivity.
  - unfold throw, ret. destruct (is_block msg); reflexivity.
Qed.

(** C4, as amended: when a category comes to its end and the loop goes on,
    then, if its pagination gave at least one new reference, the last thing
    done was one flush of the whole in-memory ledger, after the items were
    scraped: the ledger is what the items left, and the file holds it
    exactly when the write succeeds (it is as it was when the write fails);
    otherwise (no new reference, or an error caught at the category
    boundary) the category did nothing beyond its pagination: no flush, and
    the ledger and its file are as before. *)
Theorem category_end_flush (W : world) (bc : BrandCategory.t) (s : state) :
  let r := processCategory W bc s in
  let g := getBrandProductLinks W (BrandCategory.url bc) (emit (EvCategory bc) s) in
  r.1 = Return tt ->
  match g.1 with
  | Return (x :: links) =>
      let l := scrapeLinks W (BrandCategory.name bc) (x :: links) 0 g.2 in
      (exists t,
          trace l.2 = trace s ++ t /\
          trace r.2
          = trace s ++ t
            ++ [EvSaveSeen (seenProducts r.2)
                           match fs_write W (fs_ops l.2) with
                           | None => true
                           | Some _ => false
                           end]) /\
      seenProducts r.2 = seenProducts l.2 /\
      state_file r.2 = match fs_write W (fs_ops l.2) with
                       | None => Some (seenProducts r.2)
                       | Some _ => state_file l.2
                       end
  | _ =>
      r.2 = g.2 /\ seenProducts r.2 = seenProducts s /\ state_file r.2 = state_file s /\
      exists t, trace r.2 = trace s ++ EvCategory bc :: t /\ existsb is_save t = false
  end.
Proof.
  cbv zeta. rewrite processCategory_unfold.
  pose proof (getBrandProductLinks_quiet W (BrandCategory.url bc) (emit (EvCategory bc) s))
    as [Hq1 _ Hq3 _ _ [t1 [Ht1 Hnet]]].
  assert (Hnosave : existsb is_save t1 = false).
  { clear Ht1. induction t1 as [|e t1 IH]; [reflexivity |].
    simpl in Hnet. apply andb_true_iff in Hnet as [He Hnet].
    simpl. rewrite (IH Hnet). destruct e; try discriminate He; reflexivity. }
  assert (Hidle :
            let s1 := (getBrandProductLinks W (BrandCategory.url bc) (emit (EvCategory bc) s)).2 in
            s1 = s1 /\ seenProducts s1 = seenProducts s /\
            state_file s1 = state_file s /\
            exists t, trace s1 = trace s ++ EvCategory bc :: t /\
                      existsb is_save t = false).
  { simpl. repeat split; [exact Hq1 | exact Hq3 |].
    exists t1. split; [| exact Hnosave]. rewrite Ht1. simpl.
    rewrite <- app_assoc. reflexivity. }
  destruct (getBrandProductLinks W (BrandCategory.url bc) (emit (EvCategory bc) s))
    as [[[|x links] | msg | c |] s1]; simpl in Hq1, Hq3, Ht1, Hidle; cbn [fst snd].
  - intros _. exact Hidle.
  - destruct (scrapeLinks_obeys W (BrandCategory.name bc) (x :: links) 0 s1) as [t2 [Ht2 _ _ _]].
    pose proof (scrapeLinks_block_only W (BrandCategory.name bc) (x :: links) 0 s1) as Hblock.
    destruct (scrapeLinks W (BrandCategory.name bc) (x :: links) 0 s1)
      as [[[] | msg | c |] s2]; simpl in Ht2, Hblock; cbn [fst snd].
    + intros _. unfold saveSeenProducts.
      destruct (fs_write W (fs_ops s2)); cbn [fst snd]; simpl.
      * split; [| split; reflexivity].
        exists ([EvCategory bc] ++ t1 ++ t2). rewrite Ht2, Ht1. simpl.
        rewrite <- !app_assoc. split; reflexivity.
      * split; [| split; reflexivity].
        exists ([EvCategory bc] ++ t1 ++ t2). rewrite Ht2, Ht1. simpl.
        rewrite <- !app_assoc. split; reflexivity.
    + rewrite (Hblock msg eq_refl). simpl. intros H. discriminate H.
    + intros H. discriminate H.
    + intros H. discriminate H.
  - destruct (is_block msg); simpl; intros H; [discriminate H |].
    exact Hidle.
  - intros H. discriminate H.
  - intros H. discriminate H.
Qed.

(** C4, as stated, fails: over the solo site, started from the ledger of
    an earlier run, a category with a malformed URL (a failure caught at the
    category boundary) and a category with nothing new both come to their
    end, and no flush follows either of them: nothing is written at all. *)
Lemma category_end_flush_counterexample :
  let run1 := runIncrementalScraper Demo.solo [Demo.acme] (boot None ∅) in
  let r := runIncrementalScraper Demo.solo [Demo.malformed; Demo.acme]
                                 (boot (state_file run1.2) (brand_files run1.2)) in
  (r.1, fs_ops r.2, trace r.2)
  = (Return tt, 0,
     [ EvCategory Demo.malformed;
       EvCategory Demo.acme;
       EvCharge 1;
       EvFetch "https://www.gsmarena.com/acme-phones-1.php" (Body "list-a");
       EvCharge 2;
       EvFetch "https://www.gsmarena.com/acme-phones-f-1-0-p2.php" (Body "nothing") ]).
Proof. vm_compute. reflexivity. Qed.

(** the theorem on the one category of the shop, whose disk accepts the
    write: the file holds the ledger *)
Lemma category_end_flush_witness :
  let r := processCategory Demo.shop Demo.acme (boot None ∅) in
  (exists t, trace r.2 = [] ++ t ++ [EvSaveSeen (seenProducts r.2) true]) /\
  state_file r.2 = Some (seenProducts r.2) /\
  size (seenProducts r.2) = 1.
Proof.
  cbv zeta.
  destruct (category_end_flush Demo.shop Demo.acme (boot None ∅)) as [[t [_ Ht]] [_ Hf]].
  - vm_compute. reflexivity.
  - split; [exists t; exact Ht |]. split; [exact Hf |]. vm_compute. reflexivity.
Defined.

(** ** The early stop of pagination *)

(** C7: while a category is paginated, a page with references of which
    none is unseen adds one to the counter, and the third such page in a row
    ends the pagination; a page with an unseen reference puts the counter
    back to zero.  So when no page from the third on shows an unseen
    reference, at most five pages are requested, all among pages 1 to 5,
    and the pagination does end. *)
Theorem pagination_stops_by_page_five
        (W : world) (brandUrl : string) (m : BrandMatch.t) (s : state) :
  matchBrandUrl brandUrl = Some m ->
  (forall p n data,
      3 <= p -> axios_get W n (pageUrl m p) = Body data ->
      unseen W (seenProducts s) data = []) ->
  (getBrandProductLinks W brandUrl s).1 <> OutOfFuel /\
  creditsUsed (getBrandProductLinks W brandUrl s).2 <= creditsUsed s + 5 /\
  (exists t,
      trace (getBrandProductLinks W brandUrl s).2 = trace s ++ t /\
      forall u resp, In (EvFetch u resp) t ->
                     exists p, 1 <= p /\ p <= 5 /\ u = pageUrl m p) /\
  forall page l c s0 data s1,
    fetchWithScraperAPI W (pageUrl m page) false s0 = (Return data, s1) ->
    parseBrandListing W data <> [] ->
    listingPage W m page l c s0
    = (Return match unseen W (seenProducts s1) data with
              | [] => if 3 <=? S c then Break (l, S c) else Continue (l, S c)
              | new => Continue (l ++ new, 0)
              end, s1).
Proof.
  intros Hm Hold.
  pose proof (getBrandProductLinks_total W brandUrl s) as Htotal.
  unfold getBrandProductLinks in *. rewrite Hm in *.
  destruct (paginate_bound W 3 MAX_CREDITS m 1 [] 0 s ltac:(lia) Hold) as [Hc _].
  change (3 - 1 + 3 - (if 3 <=? 1 then 0 else 0)) with 5 in Hc.
  destruct (paginate_pages W MAX_CREDITS m 1 [] 0 s) as [t [Ht Hu]].
  split; [exact Htotal |]. split; [exact Hc |]. split.
  - exists t. split; [exact Ht |]. intros u resp Hin.
    destruct (Hu u resp Hin) as [p [Hp1 [Hp2 ->]]]. exists p. repeat split; lia.
  - intros page l c s0 data s1 Hfetch Hlinks.
    rewrite listingPage_unfold, Hfetch. unfold page_turn.
    destruct (parseBrandListing W data) as [|x links]; [congruence |].
    destruct (unseen W (seenProducts s1) data); [| reflexivity].
    rewrite app_nil_r. reflexivity.
Qed.

(** the theorem on the archive: one new page, then old pages without end *)
Lemma pagination_stops_by_page_five_witness :
  creditsUsed
    (getBrandProductLinks Demo.archive Demo.acme_url
       (set_seenProducts Demo.archive_ledger (boot None ∅))).2 <= 0 + 5.
Proof.
  refine (proj1 (proj2 (pagination_stops_by_page_five
                          Demo.archive Demo.acme_url Demo.acme_match
                          (set_seenProducts Demo.archive_ledger (boot None ∅)) _ _))).
  - reflexivity.
  - intros p n data Hp H.
    destruct p as [|[|[|p]]]; try lia.
    lazy in H. injection H as <-. vm_compute. reflexivity.
Defined.

(** ** A malformed listing URL *)

(** C8, as amended: a listing URL that does not match the pattern makes
    [getBrandProductLinks] throw before anything is charged; unless the URL
    text itself contains the Block marker, the error is caught at the
    category boundary, the state is untouched but for the banner, and the
    loop goes on with the next category. *)
Theorem malformed_url_skips_the_category
        (W : world) (bc : BrandCategory.t) (rest : list BrandCategory.t) (s : state) :
  matchBrandUrl (BrandCategory.url bc) = None ->
  is_block (BrandCategory.url bc) = false ->
  getBrandProductLinks W (BrandCategory.url bc) s
  = (Throw ("Invalid brand URL: " +:+ BrandCategory.url bc), s) /\
  processCategory W bc s = (Return tt, emit (EvCategory bc) s) /\
  scrapeCategories W (bc :: rest) s = scrapeCategories W rest (emit (EvCategory bc) s).
Proof.
  intros Hm Hb.
  assert (Hg : forall s0, getBrandProductLinks W (BrandCategory.url bc) s0
                          = (Throw ("Invalid brand URL: " +:+ BrandCategory.url bc), s0)).
  { intros s0. unfold getBrandProductLinks. rewrite Hm. reflexivity. }
  assert (Hp : processCategory W bc s = (Return tt, emit (EvCategory bc) s)).
  { rewrite processCategory_unfold, Hg, is_block_invalid_brand_url, Hb. reflexivity. }
  split; [apply Hg |]. split; [exact Hp |].
  simpl. unfold bind. rewrite Hp. reflexivity.
Qed.

(** C8, as stated, fails: with a malformed URL first in the list, the run
    goes on to the next category, scrapes it, and ends with status 0. *)
Lemma malformed_url_counterexample :
  let r := runIncrementalScraper Demo.shop [Demo.malformed; Demo.acme] (boot None ∅) in
  (exit_status r.1, creditsUsed r.2, length (allScrapedProducts r.2),
   fetch_urls (trace r.2))
  = (Some 0%Z, 4, 1,
     [ "https://www.gsmarena.com/acme-phones-1.php";
       "https://www.gsmarena.com/acme-phones-f-1-0-p2.php";
       "https://www.gsmarena.com/a-1.php";
       "https://www.gsmarena.com/b-2.php" ]).
Proof. vm_compute. reflexivity. Qed.

(** the theorem on a URL with a trailing character too many *)
Lemma malformed_url_witness :
  processCategory Demo.shop Demo.malformed (boot None ∅)
  = (Return tt, emit (EvCategory Demo.malformed) (boot None ∅)).
Proof.
  refine (proj1 (proj2 (malformed_url_skips_the_category
                          Demo.shop Demo.malformed [] (boot None ∅) _ _))).
  - reflexivity.
  - reflexivity.
Defined.

(** ** The ledger only grows *)

Lemma scrapeProduct_cases (W : world) (url brand : string) (s : state) :
  match (scrapeProduct W url brand s).1 with
  | Return (Some p) =>
      exists pid html s1,
        extractProductId url = Some pid /\
        seenProducts s !! pid = None /\
        fetchWithScraperAPI W url false s = (Return html, s1) /\
        (parseProductPage W html url brand s1).1 = Return p /\
        MIN_LAUNCH_YEAR <= Product.launchYear p /\
        seenProducts (scrapeProduct W url brand s).2
        = <[pid := ledger_entry pid p]> (seenProducts s)
  | _ => seenProducts (scrapeProduct W url brand s).2 = seenProducts s
  end.
Proof.
  rewrite scrapeProduct_unfold.
  destruct (extractProductId url) as [pid |]; [| reflexivity].
  destruct (is_seen (seenProducts s) pid) eqn:Hseen; [reflexivity |].
  pose proof (fetchWithScraperAPI_fetched W url false s) as Hf.
  apply fetched_quiet in Hf as [[Hq _ _ _ _ _] _].
  destruct (fetchWithScraperAPI W url false s) as [[html | msg | c |] s1];
    simpl in Hq; simpl; try exact Hq.
  - destruct ((parseProductPage W html url brand s1).1) as [p | msg | c |] eqn:Hp;
      try exact Hq.
    destruct (Product.launchYear p <? MIN_LAUNCH_YEAR) eqn:Hy; [exact Hq |].
    exists pid, html, s1. simpl. rewrite Hq. repeat split.
    + unfold is_seen in Hseen. destruct (seenProducts s !! pid); [discriminate | reflexivity].
    + exact Hp.
    + apply Nat.ltb_ge. exact Hy.
  - destruct (is_block msg); exact Hq.
Qed.

(** C9: [scrapeProduct] puts an entry into the ledger only for an
    identifier the ledger did not hold, after the page was fetched, parsed
    and found to be of [MIN_LAUNCH_YEAR] or later; in every other case
    (among them the rejection by the year filter) it leaves the ledger as it
    is.  Pagination, the sink and the flush do not touch the ledger, and over
    a category as over a whole run every entry present before is still
    present, unchanged, afterwards. *)
Theorem ledger_is_append_only (W : world) :
  (forall url brand s,
      match (scrapeProduct W url brand s).1 with
      | Return (Some p) =>
          exists pid html s1,
            extractProductId url = Some pid /\
            seenProducts s !! pid = None /\
            fetchWithScraperAPI W url false s = (Return html, s1) /\
            (parseProductPage W html url brand s1).1 = Return p /\
            MIN_LAUNCH_YEAR <= Product.launchYear p /\
            seenProducts (scrapeProduct W url brand s).2
            = <[pid := ledger_entry pid p]> (seenProducts s)
      | _ => seenProducts (scrapeProduct W url brand s).2 = seenProducts s
      end) /\
  (forall brandUrl s,
      seenProducts (getBrandProductLinks W brandUrl s).2 = seenProducts s) /\
  (forall p s, seenProducts (appendScrapedProduct W p s).2 = seenProducts s) /\
  (forall s, seenProducts (saveSeenProducts W s).2 = seenProducts s) /\
  (forall bc s, seenProducts s ⊆ seenProducts (processCategory W bc s).2) /\
  (forall cats s,
      default ∅ (state_file s) ⊆ seenProducts (runIncrementalScraper W cats s).2).
Proof.
  split; [apply scrapeProduct_cases |].
  split; [intros brandUrl s; apply (quiet_seen _ _ (getBrandProductLinks_quiet W brandUrl s)) |].
  split; [intros p s; unfold appendScrapedProduct;
          destruct (fs_write W (fs_ops s)); reflexivity |].
  split; [intros s; unfold saveSeenProducts;
          destruct (fs_write W (fs_ops s)); reflexivity |].
  split.
  - intros bc s. destruct (processCategory_obeys W bc s) as [t [_ _ Hm _]]. exact Hm.
  - intros cats s. rewrite runIncrementalScraper_unfold.
    destruct (scrapeCategories_obeys W cats (loaded s)) as [t [_ _ Hm _]].
    change (seenProducts (loaded s)) with (default (∅ : ledger) (state_file s)) in Hm.
    destruct (scrapeCategories W cats (loaded s)) as [[[] | msg | c |] s1];
      simpl in Hm; simpl; try exact Hm.
    destruct (saveSeenProducts_cases W s1) as [ok [s2 [Hsave [_ [Hseen _]]]]].
    rewrite Hsave. simpl. rewrite Hseen. exact Hm.
Qed.

(** ** The flush *)

(** C10: [saveSeenProducts] always returns: a failed write is swallowed,
    the in-memory ledger is the same afterwards, and the file is rewritten
    only when the write succeeds.  On a disk that refuses every write a run
    goes on to the next category after the failed flush and ends with
    status 0 while the ledger file is still absent. *)
Theorem flush_never_raises :
  (forall W s,
      (saveSeenProducts W s).1 = Return tt /\
      seenProducts (saveSeenProducts W s).2 = seenProducts s /\
      creditsUsed (saveSeenProducts W s).2 = creditsUsed s /\
      state_file (saveSeenProducts W s).2
      = match fs_write W (fs_ops s) with
        | None => Some (seenProducts s)
        | Some _ => state_file s
        end) /\
  let r := runIncrementalScraper Demo.shop_readonly [Demo.acme; Demo.acme] (boot None ∅) in
  exit_status r.1 = Some 0%Z /\
  size (seenProducts r.2) = 1 /\
  state_file r.2 = None /\
  exists pre post l, trace r.2 = pre ++ EvSaveSeen l false :: EvCategory Demo.acme :: post.
Proof.
  split.
  - intros W s. unfold saveSeenProducts.
    destruct (fs_write W (fs_ops s)); repeat split.
  - cbv zeta. split; [vm_compute; reflexivity |].
    split; [vm_compute; reflexivity |].
    split; [vm_compute; reflexivity |].
    exists (take 11 (trace (runIncrementalScraper Demo.shop_readonly
                              [Demo.acme; Demo.acme] (boot None ∅)).2)).
    exists (drop 13 (trace (runIncrementalScraper Demo.shop_readonly
                              [Demo.acme; Demo.acme] (boot None ∅)).2)).
    exists (seenProducts (runIncrementalScraper Demo.shop_readonly
                            [Demo.acme; Demo.acme] (boot None ∅)).2).
    vm_compute. reflexivity.
Qed.

(** ** What the ledger file holds *)

(** C5 fails on the scraper: the entry [scrapeProduct] records, and
    [saveSeenProducts] writes, has the fields [id], [name] and [scrapedAt]
    only; the rebuild script writes [category] and [launchYear] (and
    [brand]) for the same product. *)
Lemma ledger_entry_lacks_category_and_launchYear :
  let r := runIncrementalScraper Demo.shop [Demo.acme] (boot None ∅) in
  state_file r.2
  = Some {[ "1" := [ ("id", JStr "1"); ("name", JStr "Acme One"); ("scrapedAt", JStr "T3") ] ]}
  /\ (forall pid p,
         has_field "category" (ledger_entry pid p) = false /\
         has_field "launchYear" (ledger_entry pid p) = false /\
         fields (ledger_entry pid p) = ["id"; "name"; "scrapedAt"])
  /\ (forall pid p,
         fields (rebuild_entry pid p)
         = ["id"; "name"; "brand"; "category"; "launchYear"; "scrapedAt"])
  /\ rebuildSeenProducts (map_to_list (brand_files r.2))
     = {[ "1" := [ ("id", JStr "1"); ("name", JStr "Acme One"); ("brand", JStr "acme");
                   ("category", JStr "phone"); ("launchYear", JNum 2024);
                   ("scrapedAt", JStr "T3") ] ]}.
Proof.
  cbv zeta. split; [vm_compute; reflexivity |].
  split; [intros pid p; repeat split |].
  split; [intros pid p; reflexivity |].
  vm_compute. reflexivity.
Qed.

(** ** The abandonment counter *)

(** C6 fails on the code: [oldProductCount] goes up whenever
    [scrapeProduct] returns no product, whatever the reason.  On the flaky
    site three product pages without a title follow each other; the run
    gives up the category after them and never requests the fourth
    reference, a 2024 phone. *)
Lemma extraction_failures_abandon_the_category :
  (forall W brand link n s,
      (scrapeLink W brand link n s).1
      = match (scrapeProduct W (Link.url link) brand s).1 with
        | Return (Some _) => Return (Continue 0)
        | Return None => Return (if 3 <=? S n then Break (S n) else Continue (S n))
        | Throw message =>
            if is_block message then Throw message else Return (Continue n)
        | ProcessExit c => ProcessExit c
        | OutOfFuel => OutOfFuel
        end) /\
  let r := runIncrementalScraper Demo.flaky [Demo.acme] (boot None ∅) in
  (r.1, allScrapedProducts r.2, fetch_urls (trace r.2))
  = (Return tt, [],
     [ "https://www.gsmarena.com/acme-phones-1.php";
       "https://www.gsmarena.com/acme-phones-f-1-0-p2.php";
       "https://www.gsmarena.com/x-1.php";
       "https://www.gsmarena.com/x-2.php";
       "https://www.gsmarena.com/x-3.php" ]) /\
  (parseProductPage Demo.flaky "broken" "https://www.gsmarena.com/x-1.php" "acme"
                    (boot None ∅)).1
  = Throw "Could not extract product name" /\
  exists p,
    (parseProductPage Demo.flaky "phone-2024" "https://www.gsmarena.com/x-4.php" "acme"
                      (boot None ∅)).1 = Return p /\
    Product.launchYear p = 2024.
Proof.
  split.
  - intros W brand link n s. unfold scrapeLink, try_catch, bind.
    destruct (scrapeProduct W (Link.url link) brand s) as [[[p |] | msg | c |] s1];
      simpl; try reflexivity.
    + unfold appendScrapedProduct. destruct (fs_write W _); reflexivity.
    + destruct n as [|[|n]]; reflexivity.
    + unfold throw, ret. destruct (is_block msg); reflexivity.
  - cbv zeta. split; [vm_compute; reflexivity |].
    split; [vm_compute; reflexivity |].
    eexists. split; vm_compute; reflexivity.
Qed.

(** * Further properties of the scraper *)

(** ** Strings and their characters *)

Lemma chars_of_chars (l : list ascii) : Str.chars (Str.of_chars l) = l.
Proof. apply list_ascii_of_string_of_list_ascii. Qed.

Lemma of_chars_chars (s : string) : Str.of_chars (Str.chars s) = s.
Proof. apply string_of_list_ascii_of_string. Qed.

Lemma chars_app (a b : string) : Str.chars (a +:+ b) = Str.chars a ++ Str.chars b.
Proof. induction a as [|c a IH]; simpl; [reflexivity | rewrite IH; reflexivity]. Qed.

Lemma of_chars_app (a b : list ascii) :
  Str.of_chars (a ++ b) = Str.of_chars a +:+ Str.of_chars b.
Proof. induction a as [|c a IH]; simpl; [reflexivity | rewrite IH; reflexivity]. Qed.

Lemma chars_inj (a b : string) : Str.chars a = Str.chars b -> a = b.
Proof. intros H. rewrite <- (of_chars_chars a), <- (of_chars_chars b), H. reflexivity. Qed.

Lemma take_drop_while (p : ascii -> bool) (l : list ascii) :
  Str.take_while p l ++ Str.drop_while p l = l.
Proof.
  induction l as [|c l IH]; simpl; [reflexivity |].
  destruct (p c); simpl; [rewrite IH |]; reflexivity.
Qed.

Lemma take_while_all (p : ascii -> bool) (l : list ascii) :
  forallb p (Str.take_while p l) = true.
Proof.
  induction l as [|c l IH]; simpl; [reflexivity |].
  destruct (p c) eqn:Hc; simpl; [rewrite Hc, IH |]; reflexivity.
Qed.

Lemma take_while_stop (p : ascii -> bool) (l r : list ascii) (x : ascii) :
  forallb p l = true -> p x = false ->
  Str.take_while p (l ++ x :: r) = l /\ Str.drop_while p (l ++ x :: r) = x :: r.
Proof.
  intros Hl Hx. induction l as [|c l IH]; simpl.
  - rewrite Hx. split; reflexivity.
  - simpl in Hl. apply andb_true_iff in Hl as [Hc Hl]. rewrite Hc.
    destruct (IH Hl) as [-> ->]. split; reflexivity.
Qed.

Lemma forallb_rev {A} (p : A -> bool) (l : list A) :
  forallb p (rev l) = forallb p l.
Proof.
  induction l as [|x l IH]; simpl; [reflexivity |].
  rewrite forallb_app, IH. simpl. rewrite andb_true_r. apply andb_comm.
Qed.

Lemma digit_val_bound (c : ascii) : Str.is_digit c = true -> Str.digit_val c <= 9.
Proof.
  unfold Str.is_digit, Str.between, Str.digit_val. intros H.
  apply andb_true_iff in H as [_ H]. apply Nat.leb_le in H. lia.
Qed.

(** ** Product identifiers *)

(** X1: a URL that ends in a hyphen, a non-empty run of digits and [.php]
    gives exactly those digits as its identifier, whatever comes before. *)
Theorem extractProductId_of_product_url (pre ds : string) :
  ds <> "" ->
  forallb Str.is_digit (Str.chars ds) = true ->
  extractProductId (pre +:+ "-" +:+ ds +:+ ".php") = Some ds.
Proof.
  intros Hne Hds. unfold extractProductId.
  rewrite !chars_app, !rev_app_distr. simpl rev at 1.
  rewrite <- !app_assoc.
  change (["p"; "h"; "p"; "."] ++ rev (Str.chars ds) ++ rev (Str.chars "-") ++ rev (Str.chars pre))%char
    with ("p" :: "h" :: "p" :: "." :: (rev (Str.chars ds) ++ "-" :: rev (Str.chars pre)))%char.
  cbv iota beta.
  assert (Hrev : forallb Str.is_digit (rev (Str.chars ds)) = true)
    by (rewrite forallb_rev; exact Hds).
  destruct (take_while_stop Str.is_digit (rev (Str.chars ds)) (rev (Str.chars pre)) "-"%char
                            Hrev eq_refl) as [-> ->].
  destruct (rev (Str.chars ds)) as [|d r] eqn:Hr.
  - exfalso. apply Hne. apply chars_inj.
    rewrite <- (rev_involutive (Str.chars ds)), Hr. reflexivity.
  - rewrite <- Hr, rev_involutive, of_chars_chars. reflexivity.
Qed.

Lemma extractProductId_of_product_url_witness :
  extractProductId ("https://www.gsmarena.com/samsung_galaxy_s23" +:+ "-" +:+ "12082" +:+ ".php")
  = Some "12082".
Proof.
  apply (extractProductId_of_product_url "https://www.gsmarena.com/samsung_galaxy_s23" "12082").
  - discriminate.
  - reflexivity.
Defined.

Lemma extractProductId_shape (url pid : string) :
  extractProductId url = Some pid ->
  pid <> "" /\
  forallb Str.is_digit (Str.chars pid) = true /\
  exists pre, url = pre +:+ "-" +:+ pid +:+ ".php".
Proof.
  unfold extractProductId. intros H.
  repeat match type of H with
         | context [match ?x with _ => _ end] => destruct x eqn:?; try discriminate H
         end.
  injection H as <-.
  match goal with
  | Hrev : rev (Str.chars url) = _, Htake : Str.take_while _ ?r = ?d :: ?ds,
    Hdrop : Str.drop_while _ ?r = _ :: ?rest |- _ =>
      pose proof (take_drop_while Str.is_digit r) as Hsplit;
      pose proof (take_while_all Str.is_digit r) as Hall;
      rewrite Htake, Hdrop in Hsplit; rewrite Htake in Hall;
      assert (Hrevall : forallb Str.is_digit (rev (d :: ds)) = true)
        by (rewrite forallb_rev; exact Hall);
      split; [| split]
  end.
  - intros Hempty. apply (f_equal Str.chars) in Hempty.
    rewrite chars_of_chars in Hempty. simpl in Hempty.
    match type of Hempty with rev ?l ++ _ = _ => destruct (rev l); discriminate Hempty end.
  - rewrite chars_of_chars. exact Hrevall.
  - match goal with
    | Hrev : rev (Str.chars url) = _, Hdrop : Str.drop_while _ _ = _ :: ?rest |- _ =>
        exists (Str.of_chars (rev rest)); apply chars_inj;
        rewrite !chars_app, !chars_of_chars;
        rewrite <- (rev_involutive (Str.chars url)), Hrev, <- Hsplit
    end.
    simpl. rewrite !rev_app_distr. simpl. rewrite <- !app_assoc. reflexivity.
Qed.

(** X2: an identifier, when there is one, is a non-empty string of digits,
    and the URL ends in a hyphen, that identifier and [.php]. *)
Theorem extractProductId_sound (url pid : string) :
  extractProductId url = Some pid ->
  pid <> "" /\
  forallb Str.is_digit (Str.chars pid) = true /\
  exists pre, url = pre +:+ "-" +:+ pid +:+ ".php".
Proof. apply extractProductId_shape. Qed.


Lemma extractProductId_sound_witness :
  exists pre, "https://www.gsmarena.com/apple-phones-48.php" = pre +:+ "-" +:+ "48" +:+ ".php".
Proof.
  apply (extractProductId_sound "https://www.gsmarena.com/apple-phones-48.php" "48").
  reflexivity.
Defined.

(** ** Block detection *)

Lemma is_plain_not_byte (n : nat) (c : ascii) :
  128 <= n -> Str.is_plain c = true -> Str.is_byte n c = false.
Proof.
  unfold Str.is_plain, Str.is_byte. intros Hn Hc.
  apply Nat.ltb_lt in Hc. apply Nat.eqb_neq. lia.
Qed.

Lemma lower_char_plain (c : ascii) :
  Str.is_plain (Str.lower_char c) = true -> Str.is_plain c = true.
Proof.
  unfold Str.lower_char. destruct (Str.is_upper c) eqn:Hu; [| auto].
  intros _. unfold Str.is_upper, Str.between in Hu.
  apply andb_true_iff in Hu as [_ Hu]. apply Nat.leb_le in Hu.
  unfold Str.is_plain. apply Nat.ltb_lt. lia.
Qed.

Lemma lower_chars_cons (c : ascii) (l : list ascii) :
  Str.is_plain c = true ->
  Str.lower_chars (c :: l) = Str.lower_char c :: Str.lower_chars l.
Proof.
  intros Hc. cbn [Str.lower_chars].
  rewrite (is_plain_not_byte 196 c), (is_plain_not_byte 226 c) by (lia || exact Hc).
  cbn [andb]. destruct l as [|c2 [|c3 t3]]; reflexivity.
Qed.

Lemma lower_chars_plain (l : list ascii) :
  forallb Str.is_plain l = true -> Str.lower_chars l = map Str.lower_char l.
Proof.
  induction l as [|c l IH]; [reflexivity |]. simpl forallb. intros H.
  apply andb_true_iff in H as [Hc Hl].
  rewrite lower_chars_cons by exact Hc. simpl. rewrite IH by exact Hl. reflexivity.
Qed.

Lemma toLowerCase_plain (l : list ascii) :
  forallb Str.is_plain (map Str.lower_char l) = true ->
  Str.toLowerCase (Str.of_chars l) = Str.of_chars (map Str.lower_char l).
Proof.
  intros H. unfold Str.toLowerCase. rewrite chars_of_chars, lower_chars_plain; [reflexivity |].
  rewrite forallb_forall in *. intros c Hc. apply lower_char_plain, H, in_map, Hc.
Qed.

Lemma lower_chars_2 (c1 c2 : ascii) :
  Str.lower_chars [c1; c2]
  = if Str.is_byte 196 c1 && Str.is_byte 176 c2
    then ["i"%char; ascii_of_nat 204; ascii_of_nat 135]
    else [Str.lower_char c1; Str.lower_char c2].
Proof. cbn [Str.lower_chars]. destruct (_ && _); reflexivity. Qed.

Lemma lower_chars_3 (c1 c2 c3 : ascii) (t3 : list ascii) :
  Str.lower_chars (c1 :: c2 :: c3 :: t3)
  = if Str.is_byte 196 c1 && Str.is_byte 176 c2
    then "i"%char :: ascii_of_nat 204 :: ascii_of_nat 135 :: Str.lower_chars (c3 :: t3)
    else if Str.is_byte 226 c1 && Str.is_byte 132 c2 && Str.is_byte 170 c3
         then "k"%char :: Str.lower_chars t3
         else Str.lower_char c1 :: Str.lower_chars (c2 :: c3 :: t3).
Proof. reflexivity. Qed.

Lemma lower_chars_app_clean (n : nat) :
  forall pre l,
    length pre <= n -> starts_clean l ->
    Str.lower_chars (pre ++ l) = Str.lower_chars pre ++ Str.lower_chars l.
Proof.
  induction n as [|n IH]; intros pre l Hn Hl.
  { destruct pre; [reflexivity | simpl in Hn; lia]. }
  destruct pre as [|c1 [|c2 [|c3 t3]]]; [reflexivity | | |].
  - destruct l as [|d1 [|d2 t]]; [reflexivity | |];
      destruct Hl as [H132 [H170 H176]]; cbn [app].
    + rewrite lower_chars_2, H176, andb_false_r. reflexivity.
    + rewrite lower_chars_3, H176, H132, !andb_false_r. reflexivity.
  - destruct l as [|d1 t];
      [change (Str.lower_chars []) with (@nil ascii); rewrite !app_nil_r; reflexivity |].
    destruct Hl as [H132 [H170 H176]]. cbn [app].
    rewrite lower_chars_3, lower_chars_2, H170, andb_false_r.
    destruct (Str.is_byte 196 c1 && Str.is_byte 176 c2); [reflexivity |].
    cbn [app]. f_equal.
    apply (IH [c2] (d1 :: t)); [simpl in *; lia | repeat split; assumption].
  - cbn [app]. rewrite !lower_chars_3.
    destruct (Str.is_byte 196 c1 && Str.is_byte 176 c2).
    + cbn [app]. do 3 f_equal.
      apply (IH (c3 :: t3) l); [simpl in *; lia | exact Hl].
    + destruct (Str.is_byte 226 c1 && Str.is_byte 132 c2 && Str.is_byte 170 c3).
      * cbn [app]. f_equal. apply (IH t3 l); [simpl in *; lia | exact Hl].
      * cbn [app]. f_equal. apply (IH (c2 :: c3 :: t3) l); [simpl in *; lia | exact Hl].
Qed.

Lemma lower_chars_app_plain (n : nat) :
  forall mid post,
    length mid <= n -> forallb Str.is_plain (Str.lower_chars mid) = true ->
    Str.lower_chars (mid ++ post) = Str.lower_chars mid ++ Str.lower_chars post.
Proof.
  induction n as [|n IH]; intros mid post Hn Hp.
  { destruct mid; [reflexivity | simpl in Hn; lia]. }
  destruct mid as [|c1 [|c2 [|c3 t3]]]; [reflexivity | | |].
  - simpl in Hp. apply andb_true_iff in Hp as [Hc _]. apply lower_char_plain in Hc.
    cbn [app]. rewrite lower_chars_cons by exact Hc. reflexivity.
  - rewrite lower_chars_2 in Hp. rewrite lower_chars_2.
    destruct (Str.is_byte 196 c1 && Str.is_byte 176 c2); [simpl in Hp; discriminate Hp |].
    simpl forallb in Hp. apply andb_true_iff in Hp as [Hc1 Hp].
    apply andb_true_iff in Hp as [Hc2 _].
    apply lower_char_plain in Hc1. apply lower_char_plain in Hc2.
    cbn [app]. rewrite (lower_chars_cons c1), (lower_chars_cons c2) by assumption.
    reflexivity.
  - rewrite lower_chars_3 in Hp. cbn [app]. rewrite !lower_chars_3.
    destruct (Str.is_byte 196 c1 && Str.is_byte 176 c2); [simpl in Hp; discriminate Hp |].
    destruct (Str.is_byte 226 c1 && Str.is_byte 132 c2 && Str.is_byte 170 c3).
    + simpl forallb in Hp. cbn [app]. f_equal.
      apply (IH t3 post); [simpl in *; lia | exact Hp].
    + simpl forallb in Hp. apply andb_true_iff in Hp as [_ Hrest].
      cbn [app]. f_equal.
      apply (IH (c2 :: c3 :: t3) post); [simpl in *; lia | exact Hrest].
Qed.

Lemma lower_chars_starts_clean (mid post : list ascii) :
  Str.lower_chars mid <> [] ->
  forallb Str.is_plain (Str.lower_chars mid) = true ->
  starts_clean (mid ++ post).
Proof.
  intros Hne Hp. destruct mid as [|c1 t1]; [exfalso; apply Hne; reflexivity |].
  cbn [app starts_clean].
  assert (Hcases : Str.is_plain c1 = true \/ Str.is_byte 196 c1 = true
                   \/ Str.is_byte 226 c1 = true).
  { destruct (Str.is_byte 196 c1) eqn:H196; [auto |].
    destruct (Str.is_byte 226 c1) eqn:H226; [auto |]. left.
    assert (Hl : Str.lower_chars (c1 :: t1) = Str.lower_char c1 :: Str.lower_chars t1).
    { cbn [Str.lower_chars]. rewrite H196, H226. cbn [andb].
      destruct t1 as [|c2 [|c3 t3]]; reflexivity. }
    rewrite Hl in Hp. simpl in Hp. apply andb_true_iff in Hp as [Hc _].
    apply lower_char_plain. exact Hc. }
  unfold Str.is_byte in *. unfold Str.is_plain in Hcases.
  destruct Hcases as [H | [H | H]];
    [apply Nat.ltb_lt in H | apply Nat.eqb_eq in H | apply Nat.eqb_eq in H];
    repeat split; apply Nat.eqb_neq; lia.
Qed.

Lemma lower_chars_infix (pre mid post : list ascii) :
  Str.lower_chars mid <> [] ->
  forallb Str.is_plain (Str.lower_chars mid) = true ->
  Str.lower_chars (pre ++ mid ++ post)
  = Str.lower_chars pre ++ Str.lower_chars mid ++ Str.lower_chars post.
Proof.
  intros Hne Hp.
  rewrite (lower_chars_app_clean (length pre) pre (mid ++ post));
    [| lia | apply lower_chars_starts_clean; assumption].
  rewrite (lower_chars_app_plain (length mid) mid post); [reflexivity | lia | exact Hp].
Qed.

Lemma prefix_app (n post : string) : String.prefix n (n +:+ post) = true.
Proof.
  induction n as [|c n IH]; simpl; [destruct post; reflexivity |].
  destruct (ascii_dec c c) as [_ | Hc]; [exact IH | contradiction].
Qed.

Lemma includes_prefix (n hay : string) : String.prefix n hay = true -> Str.includes n hay = true.
Proof. intros H. destruct hay; cbn [Str.includes]; rewrite H; reflexivity. Qed.

Lemma includes_app (n pre post : string) : Str.includes n (pre +:+ n +:+ post) = true.
Proof.
  induction pre as [|c pre IH].
  - change ("" +:+ n +:+ post) with (n +:+ post). apply includes_prefix, prefix_app.
  - change (String c pre +:+ n +:+ post) with (String c (pre +:+ n +:+ post)).
    cbn [Str.includes]. rewrite IH. apply orb_true_r.
Qed.

(** X3: a body that anywhere contains one of the indicator phrases, in any
    mix of upper and lower case, is reported as blocked. *)
Theorem isBlocked_detects_any_case (pre mid post keyword : string) :
  In keyword BLOCK_KEYWORDS ->
  Str.toLowerCase mid = keyword ->
  isBlocked (pre +:+ mid +:+ post) = true.
Proof.
  intros Hin Hmid. unfold isBlocked. apply existsb_exists.
  exists keyword. split; [exact Hin |].
  assert (Hkw : forallb (fun k => forallb Str.is_plain (Str.chars k)
                                  && negb (Str.is_empty k)) BLOCK_KEYWORDS = true)
    by (vm_compute; reflexivity).
  rewrite forallb_forall in Hkw. specialize (Hkw keyword Hin).
  apply andb_true_iff in Hkw as [Hplain Hne].
  assert (Hl : Str.lower_chars (Str.chars mid) = Str.chars keyword).
  { rewrite <- Hmid. unfold Str.toLowerCase. rewrite chars_of_chars. reflexivity. }
  unfold Str.toLowerCase. rewrite !chars_app, lower_chars_infix, Hl.
  - rewrite !of_chars_app, of_chars_chars. apply includes_app.
  - rewrite Hl. intros E. apply (f_equal Str.of_chars) in E.
    rewrite of_chars_chars in E. rewrite E in Hne. discriminate Hne.
  - rewrite Hl. exact Hplain.
Qed.

Lemma isBlocked_detects_any_case_witness :
  isBlocked ("<html><h1>" +:+ "Access DENIED" +:+ "</h1></html>") = true.
Proof.
  apply (isBlocked_detects_any_case "<html><h1>" "Access DENIED" "</h1></html>" "access denied").
  - simpl. auto.
  - reflexivity.
Defined.

(** ** The launch year *)

Ltac split_matches H :=
  repeat match type of H with
         | context [match ?x with _ => _ end] => destruct x eqn:?; try discriminate H
         end.

Lemma year_here_range (prev : bool) (l : list ascii) (y : nat) :
  year_here prev l = Some y -> 2000 <= y <= 2099.
Proof.
  unfold year_here. intros H. split_matches H. injection H as <-.
  match goal with
  | Hc : (_ && Str.is_digit ?d1 && Str.is_digit ?d2 && _) = true |- _ =>
      apply andb_true_iff in Hc as [Hc _];
      apply andb_true_iff in Hc as [Hc H2];
      apply andb_true_iff in Hc as [_ H1];
      apply digit_val_bound in H1; apply digit_val_bound in H2;
      unfold Str.parseInt; cbn [fold_left];
      change (Str.digit_val "2") with 2; change (Str.digit_val "0") with 0
  end.
  lia.
Qed.

Lemma find_year_range (l : list ascii) :
  forall prev y, find_year prev l = Some y -> 2000 <= y <= 2099.
Proof.
  induction l as [|c l IH]; intros prev y H; cbn [find_year] in H.
  - destruct (year_here prev []) eqn:Hy; [| discriminate H].
    injection H as <-. eapply year_here_range. exact Hy.
  - destruct (year_here prev (c :: l)) eqn:Hy.
    + injection H as <-. eapply year_here_range. exact Hy.
    + eapply IH. exact H.
Qed.

(** X4: the launch year read from [Launch.Announced], when there is one, lies
    between 2000 and 2099; without a [Launch] section there is none. *)
Theorem extractLaunchYear_range (sp : specsObj) :
  (forall y, extractLaunchYear sp = Some y -> 2000 <= y <= 2099) /\
  (sp !! "Launch" = None -> extractLaunchYear sp = None).
Proof.
  split.
  - intros y H. unfold extractLaunchYear in H. eapply find_year_range. exact H.
  - intros H. unfold extractLaunchYear. rewrite H. reflexivity.
Qed.

Lemma extractLaunchYear_range_witness :
  2000 <= 2024 <= 2099.
Proof.
  apply (proj1 (extractLaunchYear_range
                  (build_specs [("Launch", [("Announced", "2024, January 17")])])) 2024).
  vm_compute. reflexivity.
Defined.

(** ** The category of a product *)

(** X5: the category is one of five names; a page with a non-empty [SIM]
    section is always a phone; a watch has a display and a battery, no SIM,
    and a name containing "watch". *)
Theorem detectCategory_table (sp : specsObj) (name : string) :
  In (detectCategory sp name) ["earbuds"; "watch"; "tablet"; "phone"; "accessory"] /\
  (has_section sp "SIM" = true -> detectCategory sp name = "phone") /\
  (detectCategory sp name = "watch" ->
   has_section sp "Display" = true /\ has_section sp "Battery" = true /\
   has_section sp "SIM" = false /\
   (Str.includes "watch" (Str.toLowerCase name)
    || Str.includes "smartwatch" (Str.toLowerCase name)) = true).
Proof.
  unfold detectCategory.
  destruct (has_section sp "Display"), (has_section sp "Battery"), (has_section sp "SIM"),
    (has_section sp "Sound"), (has_section sp "Body"),
    (Str.includes "watch" (Str.toLowerCase name)),
    (Str.includes "smartwatch" (Str.toLowerCase name));
    cbn [andb negb orb];
    (split; [simpl; tauto |]);
    (split; [intros H; first [reflexivity | discriminate H] |]);
    intros H; first [discriminate H | repeat split].
Qed.

Lemma detectCategory_table_witness :
  detectCategory (build_specs (Demo.tables (Demo.phone "2024"))) "Acme Watch Phone" = "phone".
Proof.
  apply (proj1 (proj2 (detectCategory_table
                         (build_specs (Demo.tables (Demo.phone "2024"))) "Acme Watch Phone"))).
  vm_compute. reflexivity.
Defined.

(** ** The listing-URL pattern *)

Lemma ci_prefix_split (p l : list ascii) :
  Str.ci_prefix p l = true ->
  map Str.lower_char (take (length p) l) = map Str.lower_char p /\
  length (take (length p) l) = length p.
Proof.
  revert l. induction p as [|a p IH]; intros l H; simpl.
  - split; reflexivity.
  - destruct l as [|b l]; simpl in H; [discriminate H |].
    apply andb_true_iff in H as [Hab H]. apply Ascii.eqb_eq in Hab.
    destruct (IH l H) as [IH1 IH2]. simpl. rewrite IH1, IH2, Hab. split; reflexivity.
Qed.

Lemma match_id_sound (l : list ascii) (i : string) :
  match_id l = Some i ->
  exists ds ext rest,
    l = "-"%char :: ds ++ ext ++ rest /\
    ds <> [] /\ forallb Str.is_digit ds = true /\ i = Str.of_chars ds /\
    map Str.lower_char ext = Str.chars ".php".
Proof.
  unfold match_id. intros H.
  destruct l as [|c l]; [discriminate H |].
  destruct (Ascii.eqb c "-") eqn:Hc.
  2:{ exfalso. destruct c as [[] [] [] [] [] [] [] []]; try discriminate H; discriminate Hc. }
  apply Ascii.eqb_eq in Hc. subst c.
  pose proof (take_drop_while Str.is_digit l) as Hsplit.
  pose proof (take_while_all Str.is_digit l) as Hall.
  destruct (Str.take_while Str.is_digit l) as [|d ds] eqn:Ht; [discriminate H |].
  destruct (Str.ci_prefix (Str.chars ".php") (Str.drop_while Str.is_digit l)) eqn:Hp;
    [| discriminate H].
  injection H as <-.
  destruct (ci_prefix_split _ _ Hp) as [Hlow _].
  exists (d :: ds), (take (length (Str.chars ".php")) (Str.drop_while Str.is_digit l)),
    (drop (length (Str.chars ".php")) (Str.drop_while Str.is_digit l)).
  repeat split.
  - rewrite take_drop. rewrite Hsplit. reflexivity.
  - discriminate.
  - exact Hall.
  - exact Hlow.
Qed.

Lemma match_kind_sound (l : list ascii) (ty i : string) :
  match_kind l = Some (ty, i) ->
  exists tyc l2,
    l = "-"%char :: tyc ++ l2 /\
    ty = Str.of_chars tyc /\
    In (Str.of_chars (map Str.lower_char tyc)) LISTING_KINDS /\
    match_id l2 = Some i.
Proof.
  unfold match_kind. intros H.
  destruct l as [|c l]; [discriminate H |].
  destruct (Ascii.eqb c "-") eqn:Hc.
  2:{ exfalso. destruct c as [[] [] [] [] [] [] [] []]; try discriminate H; discriminate Hc. }
  apply Ascii.eqb_eq in Hc. subst c.
  assert (Hkind : forall kind,
             In kind LISTING_KINDS ->
             Str.ci_prefix (Str.chars kind) l = true ->
             forall j, match_id (drop (length (Str.chars kind)) l) = Some j ->
             exists tyc l2,
               "-"%char :: l = "-"%char :: tyc ++ l2 /\
               Str.of_chars (take (length (Str.chars kind)) l) = Str.of_chars tyc /\
               In (Str.of_chars (map Str.lower_char tyc)) LISTING_KINDS /\
               match_id l2 = Some j).
  { intros kind Hin Hp j Hj.
    destruct (ci_prefix_split _ _ Hp) as [Hlow _].
    exists (take (length (Str.chars kind)) l), (drop (length (Str.chars kind)) l).
    repeat split.
    - rewrite take_drop. reflexivity.
    - rewrite Hlow.
      assert (map Str.lower_char (Str.chars kind) = Str.chars kind) as ->.
      { simpl in Hin. destruct Hin as [<- | [<- | [<- | [<- | []]]]]; reflexivity. }
      rewrite of_chars_chars. exact Hin.
    - exact Hj. }
  unfold LISTING_KINDS in H. cbn [fold_right] in H.
  repeat match type of H with
         | (if Str.ci_prefix (Str.chars ?k) l then _ else _) = _ =>
             destruct (Str.ci_prefix (Str.chars k) l) eqn:?
         | match match_id ?x with _ => _ end = _ =>
             destruct (match_id x) eqn:?
         end;
    try discriminate H;
    injection H as <- <-;
    match goal with
    | Hp : Str.ci_prefix (Str.chars ?k) l = true, Hj : match_id _ = Some ?j |- _ =>
        apply (Hkind k); [simpl; tauto | exact Hp | exact Hj]
    end.
Qed.

Lemma match_slug_sound (n : nat) (t : list ascii) (m : BrandMatch.t) :
  match_slug n t = Some m ->
  exists k, 1 <= k /\ k <= n /\
            BrandMatch.slug m = Str.of_chars (take k t) /\
            match_kind (drop k t) = Some (BrandMatch.type m, BrandMatch.id m).
Proof.
  induction n as [|n IH]; intros H; [discriminate H |].
  cbn [match_slug] in H.
  destruct (match_kind (drop (S n) t)) as [[k i] |] eqn:Hk.
  - injection H as <-. exists (S n). repeat split; [lia | lia | exact Hk].
  - destruct (IH H) as [k [H1 [H2 H3]]]. exists k. repeat split; [lia | lia | apply H3 | apply H3].
Qed.

Lemma match_brand_sound (l : list ascii) (m : BrandMatch.t) :
  match_brand l = Some m ->
  exists pre t,
    l = pre ++ "/"%char :: t /\
    match_slug (length (Str.take_while is_slug_char t)) t = Some m.
Proof.
  induction l as [|c l IH]; intros H; [discriminate H |].
  cbn [match_brand] in H.
  destruct (Ascii.eqb c "/") eqn:Hc.
  - apply Ascii.eqb_eq in Hc. subst c.
    destruct (match_slug (length (Str.take_while is_slug_char l)) l) as [m' |] eqn:Hs.
    + injection H as <-. exists [], l. split; [reflexivity | exact Hs].
    + destruct (IH H) as [pre [t [-> Ht]]]. exists ("/"%char :: pre), t. split; [reflexivity | exact Ht].
  - destruct (IH H) as [pre [t [-> Ht]]]. exists (c :: pre), t. split; [reflexivity | exact Ht].
Qed.

Lemma take_of_take_while (p : ascii -> bool) (l : list ascii) (k : nat) :
  k <= length (Str.take_while p l) -> forallb p (take k l) = true /\ length (take k l) = k.
Proof.
  revert k. induction l as [|c l IH]; intros k Hk; simpl in Hk.
  - assert (k = 0) as -> by lia. split; reflexivity.
  - destruct k as [|k]; [split; reflexivity |].
    destruct (p c) eqn:Hc; simpl in Hk; [| lia].
    destruct (IH k ltac:(lia)) as [H1 H2]. simpl. rewrite Hc, H1, H2. split; reflexivity.
Qed.

(** X6: a brand URL accepted by the listing pattern has, after some slash,
    a non-empty slug of letters, digits and hyphens, one of the four listing
    kinds in any letter case, a non-empty numeric identifier and the
    extension [.php] in any letter case; the three captured parts are
    exactly those pieces of the URL. *)
Theorem matchBrandUrl_sound (brandUrl : string) (m : BrandMatch.t) :
  matchBrandUrl brandUrl = Some m ->
  BrandMatch.slug m <> "" /\
  forallb is_slug_char (Str.chars (BrandMatch.slug m)) = true /\
  In (Str.toLowerCase (BrandMatch.type m)) LISTING_KINDS /\
  BrandMatch.id m <> "" /\
  forallb Str.is_digit (Str.chars (BrandMatch.id m)) = true /\
  exists pre ext post,
    Str.toLowerCase ext = ".php" /\
    brandUrl = pre +:+ "/" +:+ BrandMatch.slug m +:+ "-" +:+ BrandMatch.type m +:+ "-"
                   +:+ BrandMatch.id m +:+ ext +:+ post.
Proof.
  unfold matchBrandUrl. intros H.
  destruct (match_brand_sound _ _ H) as [pre [t [Hurl Hslug]]].
  destruct (match_slug_sound _ _ _ Hslug) as [k [Hk1 [Hk2 [Hs Hkind]]]].
  destruct (match_kind_sound _ _ _ Hkind) as [tyc [l2 [Hdrop [Hty [Hin Hid]]]]].
  destruct (match_id_sound _ _ Hid) as [ds [ext [rest [Hl2 [Hne [Hds [Hi Hext]]]]]]].
  destruct (take_of_take_while _ _ _ Hk2) as [Hall Hlen].
  split; [| split; [| split; [| split; [| split]]]].
  - rewrite Hs. intros Hempty. apply (f_equal Str.chars) in Hempty.
    rewrite chars_of_chars in Hempty. rewrite Hempty in Hlen. simpl in Hlen. lia.
  - rewrite Hs, chars_of_chars. exact Hall.
  - rewrite Hty, toLowerCase_plain; [exact Hin |].
    assert (Hk : forallb (fun k => forallb Str.is_plain (Str.chars k)) LISTING_KINDS = true)
      by reflexivity.
    rewrite forallb_forall in Hk. specialize (Hk _ Hin).
    rewrite chars_of_chars in Hk. exact Hk.
  - rewrite Hi. intros Hempty. apply (f_equal Str.chars) in Hempty.
    rewrite chars_of_chars in Hempty. exact (Hne Hempty).
  - rewrite Hi, chars_of_chars. exact Hds.
  - exists (Str.of_chars pre), (Str.of_chars ext), (Str.of_chars rest). split.
    + rewrite toLowerCase_plain; [| rewrite Hext; reflexivity].
      rewrite Hext. reflexivity.
    + apply chars_inj. rewrite !chars_app, !chars_of_chars, Hs, Hty, Hi, !chars_of_chars.
      rewrite Hurl. rewrite <- (take_drop k t) at 1. rewrite Hdrop, Hl2.
      simpl. rewrite <- ?app_assoc. reflexivity.
Qed.

Lemma matchBrandUrl_sound_witness :
  In (Str.toLowerCase "Watch") LISTING_KINDS.
Proof.
  apply (proj1 (proj2 (proj2 (matchBrandUrl_sound
                                "https://www.gsmarena.com/o-2-Watch-7.PHP"
                                (BrandMatch.mk "o-2" "Watch" "7") eq_refl)))).
Defined.

(** ** Lifting a relation on steps to the loops

    A relation between the state before a step, how the step ended and the
    state after it, once it holds of the leaves (pagination, one item, the
    flush, the banner), holds of a whole category and of the category
    loop. *)

Section Lifting.

Context (W : world) (Rel : state -> kind -> state -> Prop).

Hypothesis rel_refl : forall s k, is_exit k = false -> Rel s k s.
Hypothesis rel_trans :
  forall s s1 s2 k1 k, is_exit k1 = false -> Rel s k1 s1 -> Rel s1 k s2 -> Rel s k s2.
Hypothesis rel_kind :
  forall s s1 k k', is_exit k = false -> is_exit k' = false -> Rel s k s1 -> Rel s k' s1.
Hypothesis rel_banner : forall bc s, Rel s KReturn (emit (EvCategory bc) s).
Hypothesis rel_links :
  forall url s,
    Rel s (kind_of (getBrandProductLinks W url s).1) (getBrandProductLinks W url s).2.
Hypothesis rel_link :
  forall brand link n s,
    Rel s (kind_of (scrapeLink W brand link n s).1) (scrapeLink W brand link n s).2.
Hypothesis rel_save : forall s, Rel s KReturn (saveSeenProducts W s).2.

Lemma lift_scrapeLinks (brand : string) (links : list Link.t) :
  forall n s,
    Rel s (kind_of (scrapeLinks W brand links n s).1) (scrapeLinks W brand links n s).2.
Proof.
  induction links as [|link rest IH]; intros n s; simpl.
  - apply rel_refl. reflexivity.
  - unfold bind. pose proof (rel_link brand link n s) as H.
    destruct (scrapeLink W brand link n s) as [[[c | c] | msg | c |] s1]; simpl in H; simpl;
      try exact H.
    eapply rel_trans; [| exact H | apply IH]. reflexivity.
Qed.

Lemma lift_processCategory (bc : BrandCategory.t) (s : state) :
  Rel s (kind_of (processCategory W bc s).1) (processCategory W bc s).2.
Proof.
  rewrite processCategory_unfold.
  pose proof (rel_links (BrandCategory.url bc) (emit (EvCategory bc) s)) as Hl.
  assert (Hstep : forall k s1,
             Rel (emit (EvCategory bc) s) k s1 -> Rel s k s1).
  { intros k s1 H. eapply rel_trans; [| apply rel_banner | exact H]. reflexivity. }
  destruct (getBrandProductLinks W (BrandCategory.url bc) (emit (EvCategory bc) s))
    as [[[|x links] | msg | c |] s1]; simpl in Hl; cbn [fst snd kind_of].
  - apply Hstep. exact Hl.
  - pose proof (lift_scrapeLinks (BrandCategory.name bc) (x :: links) 0 s1) as H2.
    destruct (scrapeLinks W (BrandCategory.name bc) (x :: links) 0 s1)
      as [[[] | msg | c |] s2]; simpl in H2; cbn [fst snd kind_of].
    + destruct (saveSeenProducts_cases W s2) as [ok [s3 [Hsave _]]].
      pose proof (rel_save s2) as H3. rewrite Hsave in *. cbn [fst snd kind_of] in *.
      apply Hstep. apply (rel_trans _ s1 _ KReturn); [reflexivity | exact Hl |].
      apply (rel_trans _ s2 _ KReturn); [reflexivity | exact H2 | exact H3].
    + assert (Rel s (KThrow msg) s2) as H.
      { apply Hstep. eapply rel_trans; [| exact Hl | exact H2]. reflexivity. }
      destruct (is_block msg); simpl; [exact H |].
      eapply rel_kind; [| | exact H]; reflexivity.
    + simpl. apply Hstep. eapply rel_trans; [| exact Hl | exact H2]. reflexivity.
    + simpl. apply Hstep. eapply rel_trans; [| exact Hl | exact H2]. reflexivity.
  - assert (Rel s (KThrow msg) s1) as H by (apply Hstep; exact Hl).
    destruct (is_block msg); simpl; [exact H |].
    eapply rel_kind; [| | exact H]; reflexivity.
  - apply Hstep. exact Hl.
  - apply Hstep. exact Hl.
Qed.

Lemma lift_scrapeCategories (cats : list BrandCategory.t) :
  forall s, Rel s (kind_of (scrapeCategories W cats s).1) (scrapeCategories W cats s).2.
Proof.
  induction cats as [|bc rest IH]; intros s; simpl.
  - apply rel_refl. reflexivity.
  - unfold bind. pose proof (lift_processCategory bc s) as H.
    destruct (processCategory W bc s) as [[[] | msg | c |] s1]; simpl in H; simpl;
      try exact H.
    eapply rel_trans; [| exact H | apply IH]. reflexivity.
Qed.

End Lifting.

(** the leaves, for a relation that holds of one charged request, of the
    recording of an entry and of the handing over of a product *)
Section Leaves.

Context (W : world) (Rel : state -> kind -> state -> Prop).

Hypothesis rel_refl : forall s k, is_exit k = false -> Rel s k s.
Hypothesis rel_trans :
  forall s s1 s2 k1 k, is_exit k1 = false -> Rel s k1 s1 -> Rel s1 k s2 -> Rel s k s2.
Hypothesis rel_kind :
  forall s s1 k k', is_exit k = false -> is_exit k' = false -> Rel s k s1 -> Rel s k' s1.
Hypothesis rel_fetch :
  forall url b s,
    Rel s (kind_of (fetchWithScraperAPI W url b s).1) (fetchWithScraperAPI W url b s).2.
Hypothesis rel_record : forall pid e s, Rel s KReturn (recorded pid e s).
Hypothesis rel_push :
  forall p s,
    Rel s KReturn
        (appendScrapedProduct W p (set_allScrapedProducts (allScrapedProducts s ++ [p]) s)).2.

Lemma leaf_listingPage (m : BrandMatch.t) (page : nat) (l : list Link.t) (c : nat) (s : state) :
  Rel s (kind_of (listingPage W m page l c s).1) (listingPage W m page l c s).2.
Proof.
  rewrite listingPage_unfold. pose proof (rel_fetch (pageUrl m page) false s) as H.
  destruct (fetchWithScraperAPI W (pageUrl m page) false s) as [[data | msg | code |] s1];
    simpl in H; simpl; try exact H.
  destruct (is_block msg); simpl; [exact H |].
  eapply rel_kind; [| | exact H]; reflexivity.
Qed.

Lemma leaf_paginate (fuel : nat) :
  forall (m : BrandMatch.t) (page : nat) (l : list Link.t) (c : nat) (s : state),
    Rel s (kind_of (paginate W fuel m page l c s).1) (paginate W fuel m page l c s).2.
Proof.
  induction fuel as [|fuel IH]; intros m page l c s.
  - simpl. apply rel_refl. reflexivity.
  - rewrite paginate_unfold. pose proof (leaf_listingPage m page l c s) as H.
    destruct (listingPage W m page l c s) as [[[[l' c'] | [l' c']] | msg | code |] s1];
      simpl in H; simpl; try exact H.
    eapply rel_trans; [| exact H | apply IH]. reflexivity.
Qed.

Lemma leaf_getBrandProductLinks (url : string) (s : state) :
  Rel s (kind_of (getBrandProductLinks W url s).1) (getBrandProductLinks W url s).2.
Proof.
  unfold getBrandProductLinks. destruct (matchBrandUrl url).
  - apply leaf_paginate.
  - simpl. apply rel_refl. reflexivity.
Qed.

Lemma leaf_scrapeProduct (url brand : string) (s : state) :
  Rel s (kind_of (scrapeProduct W url brand s).1) (scrapeProduct W url brand s).2.
Proof.
  rewrite scrapeProduct_unfold.
  destruct (extractProductId url) as [pid |]; [| apply rel_refl; reflexivity].
  destruct (is_seen (seenProducts s) pid); [apply rel_refl; reflexivity |].
  pose proof (rel_fetch url false s) as H.
  destruct (fetchWithScraperAPI W url false s) as [[html | msg | c |] s1];
    simpl in H; simpl; try exact H.
  - destruct ((parseProductPage W html url brand s1).1) as [p | msg | c |]; try exact H.
    destruct (Product.launchYear p <? MIN_LAUNCH_YEAR); [exact H |].
    simpl. eapply rel_trans; [| exact H | apply rel_record]. reflexivity.
  - destruct (is_block msg); simpl; [exact H |].
    eapply rel_kind; [| | exact H]; reflexivity.
Qed.

Lemma scrapeLink_unfold (brand : string) (link : Link.t) (n : nat) (s : state) :
  scrapeLink W brand link n s =
  match scrapeProduct W (Link.url link) brand s with
  | (Return (Some p), s1) =>
      (Return (Continue 0),
       (appendScrapedProduct W p
          (set_allScrapedProducts (allScrapedProducts s1 ++ [p]) s1)).2)
  | (Return None, s1) =>
      (Return (if 3 <=? S n then Break (S n) else Continue (S n)), s1)
  | (Throw message, s1) =>
      if is_block message then (Throw message, s1) else (Return (Continue n), s1)
  | (ProcessExit c, s1) => (ProcessExit c, s1)
  | (OutOfFuel, s1) => (OutOfFuel, s1)
  end.
Proof.
  unfold scrapeLink, try_catch, bind, modify.
  destruct (scrapeProduct W (Link.url link) brand s) as [[[p |] | msg | c |] s1];
    try reflexivity.
  - unfold appendScrapedProduct.
    destruct (fs_write W (fs_ops (set_allScrapedProducts (allScrapedProducts s1 ++ [p]) s1)));
      reflexivity.
  - destruct n as [|[|n]]; reflexivity.
  - unfold throw, ret. destruct (is_block msg); reflexivity.
Qed.

Lemma leaf_scrapeLink (brand : string) (link : Link.t) (n : nat) (s : state) :
  Rel s (kind_of (scrapeLink W brand link n s).1) (scrapeLink W brand link n s).2.
Proof.
  rewrite scrapeLink_unfold. pose proof (leaf_scrapeProduct (Link.url link) brand s) as H.
  destruct (scrapeProduct W (Link.url link) brand s) as [[[p |] | msg | c |] s1];
    simpl in H; simpl; try exact H.
  - eapply rel_trans; [| exact H | apply rel_push]. reflexivity.
  - destruct (is_block msg); simpl; [exact H |].
    eapply rel_kind; [| | exact H]; reflexivity.
Qed.

End Leaves.

(** ** Requests and credits *)

Lemma fetch_urls_app (a b : list event) : fetch_urls (a ++ b) = fetch_urls a ++ fetch_urls b.
Proof. apply flat_map_app. Qed.

Lemma appended_app (a b : list event) : appended (a ++ b) = appended a ++ appended b.
Proof. apply flat_map_app. Qed.

Lemma requests_emit (e : event) (s : state) :
  requests (emit e s) = requests s + length (fetch_urls [e]).
Proof. unfold requests. simpl trace. rewrite fetch_urls_app, length_app. reflexivity. Qed.

Lemma metered_refl (s : state) (k : kind) : is_exit k = false -> metered s k s.
Proof. intros H. destruct k; try discriminate H; split; simpl; lia. Qed.

Lemma metered_trans (s s1 s2 : state) (k1 k : kind) :
  is_exit k1 = false -> metered s k1 s1 -> metered s1 k s2 -> metered s k s2.
Proof.
  intros Hk [H1 H1'] [H2 H2']. destruct k1; try discriminate Hk; simpl in H1; split; lia.
Qed.

Lemma metered_kind (s s1 : state) (k k' : kind) :
  is_exit k = false -> is_exit k' = false -> metered s k s1 -> metered s k' s1.
Proof.
  intros Hk Hk' [H1 H2]. destruct k, k'; try discriminate Hk; try discriminate Hk';
    simpl in H1; split; simpl; lia.
Qed.

Lemma metered_fetch (W : world) (url : string) (b : bool) (s : state) :
  metered s (kind_of (fetchWithScraperAPI W url b s).1) (fetchWithScraperAPI W url b s).2.
Proof.
  pose proof (fetchWithScraperAPI_fetched W url b s) as Hf.
  destruct (fetchWithScraperAPI W url b s) as [o s1]. simpl in Hf. simpl.
  assert (Hc : requests (charged s) = requests s).
  { unfold charged. rewrite requests_emit. unfold requests. simpl. lia. }
  assert (Hr : forall r, requests (emit (EvFetch url r) (charged s)) = S (requests s)).
  { intros r. rewrite requests_emit, Hc. simpl. lia. }
  destruct Hf as [Hmax | Hlt Hkey | msg s' Hlt Hr' -> | data s' Hlt Hr' Hb ->
                  | data msg s' Hlt Hr' Hb -> | data s' Hlt Hkey Hr' Hb [-> | ->]];
    unfold metered; simpl kind_of; cbn [unserved];
    try (unfold request_failed; destruct (is_block msg); simpl kind_of; cbn [unserved]);
    try (change (requests (tick_fs ?x)) with (requests x));
    rewrite ?Hr, ?Hc; simpl creditsUsed; split; lia.
Qed.

Lemma metered_record (pid : string) (e : jsobj) (s : state) : metered s KReturn (recorded pid e s).
Proof.
  unfold metered, recorded, requests. simpl trace.
  rewrite fetch_urls_app, length_app. simpl. split; lia.
Qed.

Lemma metered_emit_other (e : event) (s s' : state) :
  fetch_urls [e] = [] -> trace s' = trace s ++ [e] -> creditsUsed s' = creditsUsed s ->
  metered s KReturn s'.
Proof.
  intros He Ht Hc. unfold metered, requests. rewrite Ht, fetch_urls_app, He, app_nil_r, Hc.
  simpl. split; lia.
Qed.

Lemma metered_push (W : world) (p : Product.t) (s : state) :
  metered s KReturn
          (appendScrapedProduct W p (set_allScrapedProducts (allScrapedProducts s ++ [p]) s)).2.
Proof.
  unfold appendScrapedProduct.
  destruct (fs_write W _); simpl;
    (eapply metered_emit_other; [| reflexivity | reflexivity]); reflexivity.
Qed.

Lemma metered_save (W : world) (s : state) : metered s KReturn (saveSeenProducts W s).2.
Proof.
  unfold saveSeenProducts.
  destruct (fs_write W _); simpl;
    (eapply metered_emit_other; [| reflexivity | reflexivity]); reflexivity.
Qed.

Lemma metered_banner (bc : BrandCategory.t) (s : state) :
  metered s KReturn (emit (EvCategory bc) s).
Proof. apply (metered_emit_other (EvCategory bc)); reflexivity. Qed.

Lemma metered_scrapeCategories (W : world) (cats : list BrandCategory.t) (s : state) :
  metered s (kind_of (scrapeCategories W cats s).1) (scrapeCategories W cats s).2.
Proof.
  exact (lift_scrapeCategories W metered metered_refl metered_trans metered_kind
           metered_banner
           (leaf_getBrandProductLinks W metered metered_refl metered_trans metered_kind
              (metered_fetch W))
           (leaf_scrapeLink W metered metered_refl metered_trans metered_kind
              (metered_fetch W) metered_record (metered_push W))
           (metered_save W) cats s).
Qed.

(** X7: in a process started afresh every request issued is charged, the
    counter never passes [MAX_CREDITS], fewer than [MAX_CREDITS] requests are
    ever issued (the charge that reaches the ceiling buys none), and the run
    ends by itself. *)
Theorem run_issues_fewer_requests_than_the_ceiling
        (W : world) (cats : list BrandCategory.t)
        (file : option ledger) (brands : gmap string (list Product.t)) :
  let r := runIncrementalScraper W cats (boot file brands) in
  r.1 <> OutOfFuel /\
  requests r.2 <= creditsUsed r.2 /\
  creditsUsed r.2 <= MAX_CREDITS /\
  requests r.2 < MAX_CREDITS.
Proof.
  cbv zeta. rewrite runIncrementalScraper_unfold.
  assert (Hs : creditsUsed (loaded (boot file brands)) < MAX_CREDITS)
    by (unfold MAX_CREDITS; simpl; lia).
  pose proof (scrapeCategories_budgeted W cats _ Hs) as Hb.
  pose proof (metered_scrapeCategories W cats (loaded (boot file brands))) as [Hm _].
  change (requests (loaded (boot file brands))) with 0 in Hm.
  change (creditsUsed (loaded (boot file brands))) with 0 in Hm.
  destruct (scrapeCategories W cats (loaded (boot file brands))) as [[[] | msg | c |] s1];
    simpl in Hb, Hm; cbn [fst snd].
  - repeat split; [discriminate | lia | lia | lia].
  - destruct (saveSeenProducts_cases W s1) as [ok [s2 [Hsave [Ht [_ [Hc _]]]]]].
    pose proof (metered_save W s1) as [Hm2 _]. rewrite Hsave in *. cbn [fst snd] in *.
    simpl in Hm2. repeat split; [discriminate | lia | lia | lia].
  - destruct Hb as [-> Hb]. simpl in Hm. repeat split; [discriminate | lia | lia | lia].
  - destruct Hb.
Qed.

(** ** What the sink receives *)

Lemma appended_net (t : list event) : forallb is_net t = true -> appended t = [].
Proof.
  induction t as [|e t IH]; [reflexivity |]. simpl. intros H.
  apply andb_true_iff in H as [He Ht]. rewrite (IH Ht).
  destruct e; try discriminate He; reflexivity.
Qed.

Lemma delivered_nothing (s s' : state) (k : kind) (t : list event) :
  allScrapedProducts s' = allScrapedProducts s ->
  trace s' = trace s ++ t -> appended t = [] ->
  delivered s k s'.
Proof.
  intros Ha Ht Hn. exists []. rewrite Ha, Ht, appended_app, Hn, !app_nil_r. split; reflexivity.
Qed.

Lemma delivered_refl (s : state) (k : kind) : is_exit k = false -> delivered s k s.
Proof. intros _. exists []. rewrite !app_nil_r. split; reflexivity. Qed.

Lemma delivered_trans (s s1 s2 : state) (k1 k : kind) :
  is_exit k1 = false -> delivered s k1 s1 -> delivered s1 k s2 -> delivered s k s2.
Proof.
  intros _ [n1 [H1 H1']] [n2 [H2 H2']]. exists (n1 ++ n2).
  rewrite H2, H2', H1, H1', <- !app_assoc. split; reflexivity.
Qed.

Lemma delivered_kind (s s1 : state) (k k' : kind) :
  is_exit k = false -> is_exit k' = false -> delivered s k s1 -> delivered s k' s1.
Proof. intros _ _ H. exact H. Qed.

Lemma delivered_fetch (W : world) (url : string) (b : bool) (s : state) :
  delivered s (kind_of (fetchWithScraperAPI W url b s).1) (fetchWithScraperAPI W url b s).2.
Proof.
  pose proof (fetchWithScraperAPI_fetched W url b s) as Hf.
  apply fetched_quiet in Hf as [[_ Ha _ _ _ [t [Ht Hn]]] _].
  eapply delivered_nothing; [exact Ha | exact Ht | apply appended_net; exact Hn].
Qed.

Lemma delivered_record (pid : string) (e : jsobj) (s : state) :
  delivered s KReturn (recorded pid e s).
Proof. apply (delivered_nothing _ _ _ [EvRecord pid e]); reflexivity. Qed.

Lemma delivered_push (W : world) (p : Product.t) (s : state) :
  delivered s KReturn
            (appendScrapedProduct W p (set_allScrapedProducts (allScrapedProducts s ++ [p]) s)).2.
Proof.
  exists [p]. unfold appendScrapedProduct.
  destruct (fs_write W _); simpl; rewrite appended_app; split; reflexivity.
Qed.

Lemma delivered_save (W : world) (s : state) : delivered s KReturn (saveSeenProducts W s).2.
Proof.
  destruct (saveSeenProducts_cases W s) as [ok [s' [-> [Ht [_ [_ [Ha _]]]]]]].
  eapply delivered_nothing; [exact Ha | exact Ht | reflexivity].
Qed.

Lemma delivered_banner (bc : BrandCategory.t) (s : state) :
  delivered s KReturn (emit (EvCategory bc) s).
Proof. apply (delivered_nothing _ _ _ [EvCategory bc]); reflexivity. Qed.

Lemma delivered_scrapeCategories (W : world) (cats : list BrandCategory.t) (s : state) :
  delivered s (kind_of (scrapeCategories W cats s).1) (scrapeCategories W cats s).2.
Proof.
  exact (lift_scrapeCategories W delivered delivered_refl delivered_trans delivered_kind
           delivered_banner
           (leaf_getBrandProductLinks W delivered delivered_refl delivered_trans delivered_kind
              (delivered_fetch W))
           (leaf_scrapeLink W delivered delivered_refl delivered_trans delivered_kind
              (delivered_fetch W) delivered_record (delivered_push W))
           (delivered_save W) cats s).
Qed.

(** X8: the sink [appendScrapedProduct] is called once for each product the
    run accepts, in the order of acceptance, and for nothing else: at the end
    of a process started afresh the products handed to the sink are the
    list [allScrapedProducts]. *)
Theorem sink_receives_the_accepted_products
        (W : world) (cats : list BrandCategory.t)
        (file : option ledger) (brands : gmap string (list Product.t)) :
  let r := runIncrementalScraper W cats (boot file brands) in
  appended (trace r.2) = allScrapedProducts r.2.
Proof.
  cbv zeta. rewrite runIncrementalScraper_unfold.
  pose proof (delivered_scrapeCategories W cats (loaded (boot file brands)))
    as [new [Ha Ht]].
  change (allScrapedProducts (loaded (boot file brands))) with (@nil Product.t) in Ha.
  change (appended (trace (loaded (boot file brands)))) with (@nil Product.t) in Ht.
  simpl in Ha, Ht.
  destruct (scrapeCategories W cats (loaded (boot file brands))) as [[[] | msg | c |] s1];
    cbn [fst snd] in *; try congruence.
  destruct (saveSeenProducts_cases W s1) as [ok [s2 [-> [Ht2 [_ [_ [Ha2 _]]]]]]].
  cbn [fst snd]. rewrite Ht2, appended_app, Ha2. simpl. rewrite app_nil_r. congruence.
Qed.

(** ** The accepted products *)

Lemma parseProductPage_well_formed (W : world) (html url brand : string) (s : state)
      (p : Product.t) :
  (parseProductPage W html url brand s).1 = Return p ->
  well_formed p /\ Product.url p = url /\ Product.brand p = brand /\
  Product.name p = Str.trim (h1_text W html) /\
  Product.specs p = build_specs (specs_tables W html).
Proof.
  unfold parseProductPage, well_formed.
  destruct (Str.is_empty (Str.trim (h1_text W html))) eqn:Hn; [discriminate |].
  destruct (extractLaunchYear (build_specs (specs_tables W html))) as [y |] eqn:Hy;
    [| discriminate].
  destruct (y =? 0); [discriminate |].
  unfold bind, get, ret. simpl. intros H. injection H as <-. simpl.
  repeat split; try reflexivity; try exact Hy.
  intros E. rewrite E in Hn. discriminate Hn.
Qed.

Lemma tidy_grow (loadedLedger : ledger) (s s' : state) :
  seenProducts s ⊆ seenProducts s' ->
  allScrapedProducts s' = allScrapedProducts s ->
  tidy loadedLedger s -> tidy loadedLedger s'.
Proof.
  intros Hsub Hall [Hl Hn He]. split.
  - etrans; eassumption.
  - rewrite Hall. exact Hn.
  - rewrite Hall. intros p Hp. destruct (He p Hp) as [Hw [Hy [pid [Hid [Hnew Hentry]]]]].
    split; [exact Hw |]. split; [exact Hy |]. exists pid.
    split; [exact Hid |]. split; [exact Hnew |].
    eapply lookup_weaken; eassumption.
Qed.

Lemma tidy_quiet (loadedLedger : ledger) (s s' : state) :
  quiet s s' -> tidy loadedLedger s -> tidy loadedLedger s'.
Proof.
  intros [Hs Ha _ _ _ _]. apply tidy_grow; [rewrite Hs; reflexivity | exact Ha].
Qed.

Lemma scrapeProduct_all (W : world) (url brand : string) (s : state) :
  allScrapedProducts (scrapeProduct W url brand s).2 = allScrapedProducts s.
Proof.
  rewrite scrapeProduct_unfold.
  destruct (extractProductId url) as [pid |]; [| reflexivity].
  destruct (is_seen (seenProducts s) pid); [reflexivity |].
  pose proof (fetchWithScraperAPI_fetched W url false s) as Hf.
  apply fetched_quiet in Hf as [[_ Ha _ _ _ _] _].
  destruct (fetchWithScraperAPI W url false s) as [[html | msg | c |] s1];
    simpl in Ha; simpl; try exact Ha.
  - destruct ((parseProductPage W html url brand s1).1) as [p | msg | c |]; try exact Ha.
    destruct (Product.launchYear p <? MIN_LAUNCH_YEAR); exact Ha.
  - destruct (is_block msg); exact Ha.
Qed.

Lemma keeps_tidy_scrapeLink (W : world) (loadedLedger : ledger)
      (brand : string) (link : Link.t) (n : nat) (s : state) :
  keeps_tidy loadedLedger s (kind_of (scrapeLink W brand link n s).1)
             (scrapeLink W brand link n s).2.
Proof.
  unfold keeps_tidy. intros Ht. rewrite scrapeLink_unfold.
  pose proof (scrapeProduct_cases W (Link.url link) brand s) as Hc.
  pose proof (scrapeProduct_all W (Link.url link) brand s) as Ha.
  destruct (scrapeProduct W (Link.url link) brand s) as [[[p |] | msg | c |] s1];
    cbn [fst snd] in Hc, Ha; cbn [fst snd].
  - destruct Hc as [pid [html [s0 [Hid [Hnew [_ [Hp [Hy Hs]]]]]]]].
    apply parseProductPage_well_formed in Hp as [Hw [Hurl _]].
    assert (Hpid : Product.id p = Some pid).
    { destruct Hw as [_ [_ [_ ->]]]. rewrite Hurl. exact Hid. }
    destruct Ht as [Hl Hn He].
    assert (Hstate : forall s2,
               s2 = (appendScrapedProduct W p
                       (set_allScrapedProducts (allScrapedProducts s1 ++ [p]) s1)).2 ->
               seenProducts s2 = seenProducts s1 /\
               allScrapedProducts s2 = allScrapedProducts s ++ [p]).
    { intros s2 ->. unfold appendScrapedProduct.
      destruct (fs_write W _); simpl; rewrite Ha; split; reflexivity. }
    destruct (Hstate _ eq_refl) as [Hs2 Ha2]. split.
    + rewrite Hs2, Hs. etrans; [exact Hl |]. apply insert_subseteq. exact Hnew.
    + rewrite Ha2, map_app. simpl. apply NoDup_app. split; [exact Hn |]. split.
      * intros i Hi Hj. apply list_elem_of_singleton in Hj. subst i.
        apply list_elem_of_In, in_map_iff in Hi as [q [Hq Hin]].
        destruct (He q Hin) as [_ [_ [qid [Hqid [_ Hentry]]]]].
        rewrite Hpid in Hq. rewrite Hq in Hqid. injection Hqid as <-.
        rewrite Hnew in Hentry. discriminate Hentry.
      * apply NoDup_singleton.
    + rewrite Ha2, Hs2, Hs. intros q Hq. apply in_app_iff in Hq as [Hq | [<- | []]].
      * destruct (He q Hq) as [Hwq [Hyq [qid [Hqid [Hqnew Hentry]]]]].
        split; [exact Hwq |]. split; [exact Hyq |]. exists qid.
        split; [exact Hqid |]. split; [exact Hqnew |].
        rewrite lookup_insert_ne; [exact Hentry |].
        intros ->. rewrite Hnew in Hentry. discriminate Hentry.
      * split; [exact Hw |]. split; [exact Hy |]. exists pid.
        split; [exact Hpid |]. split.
        -- eapply lookup_weaken_None; eassumption.
        -- apply lookup_insert_eq.
  - eapply tidy_grow; [| exact Ha | exact Ht]. rewrite Hc. reflexivity.
  - assert (tidy loadedLedger s1)
      by (eapply tidy_grow; [| exact Ha | exact Ht]; rewrite Hc; reflexivity).
    destruct (is_block msg); assumption.
  - eapply tidy_grow; [| exact Ha | exact Ht]. rewrite Hc. reflexivity.
  - eapply tidy_grow; [| exact Ha | exact Ht]. rewrite Hc. reflexivity.
Qed.

Lemma keeps_tidy_scrapeCategories (W : world) (loadedLedger : ledger)
      (cats : list BrandCategory.t) (s : state) :
  keeps_tidy loadedLedger s (kind_of (scrapeCategories W cats s).1)
             (scrapeCategories W cats s).2.
Proof.
  apply (lift_scrapeCategories W (keeps_tidy loadedLedger)).
  - intros s0 k _ H. exact H.
  - intros s0 s1 s2 k1 k _ H1 H2 H. apply H2, H1, H.
  - intros s0 s1 k k' _ _ H. exact H.
  - intros bc s0. unfold keeps_tidy. apply tidy_grow; reflexivity.
  - intros url s0. unfold keeps_tidy. apply tidy_quiet, getBrandProductLinks_quiet.
  - apply keeps_tidy_scrapeLink.
  - intros s0. destruct (saveSeenProducts_cases W s0) as [ok [s' [-> [_ [Hs [_ [Ha _]]]]]]].
    unfold keeps_tidy. cbn [snd]. apply tidy_grow; [rewrite Hs; reflexivity | exact Ha].
Qed.

Lemma run_tidy (W : world) (cats : list BrandCategory.t)
      (file : option ledger) (brands : gmap string (list Product.t)) :
  tidy (default ∅ file) (runIncrementalScraper W cats (boot file brands)).2.
Proof.
  rewrite runIncrementalScraper_unfold.
  assert (H0 : tidy (default ∅ file) (loaded (boot file brands))).
  { split; simpl; [reflexivity | constructor | intros p []]. }
  pose proof (keeps_tidy_scrapeCategories W (default ∅ file) cats _ H0) as H.
  destruct (scrapeCategories W cats (loaded (boot file brands))) as [[[] | msg | c |] s1];
    cbn [fst snd] in *; try exact H.
  destruct (saveSeenProducts_cases W s1) as [ok [s' [-> [_ [Hs [_ [Ha _]]]]]]].
  cbn [snd]. eapply tidy_grow; [| exact Ha | exact H]. rewrite Hs. reflexivity.
Qed.

(** X9: no product is accepted twice and none that the ledger file already
    held: at the end of a process started afresh the accepted products have
    pairwise distinct identifiers, none of them is a key of the ledger that
    was loaded, and the ledger holds for each of them the entry written at
    its acceptance; every entry of the loaded ledger is still there. *)
Theorem accepted_products_are_new_and_distinct
        (W : world) (cats : list BrandCategory.t)
        (file : option ledger) (brands : gmap string (list Product.t)) :
  let r := runIncrementalScraper W cats (boot file brands) in
  NoDup (map Product.id (allScrapedProducts r.2)) /\
  default ∅ file ⊆ seenProducts r.2 /\
  forall p, In p (allScrapedProducts r.2) ->
    exists pid, extractProductId (Product.url p) = Some pid /\
                Product.id p = Some pid /\
                default ∅ file !! pid = None /\
                seenProducts r.2 !! pid = Some (ledger_entry pid p).
Proof.
  cbv zeta. destruct (run_tidy W cats file brands) as [Hl Hn He].
  split; [exact Hn |]. split; [exact Hl |].
  intros p Hp. destruct (He p Hp) as [[_ [_ [_ Hid]]] [_ [pid [Hpid [Hnew Hentry]]]]].
  exists pid. rewrite <- Hid. auto.
Qed.

Lemma extractLaunchYear_bounds (sp : specsObj) (y : nat) :
  extractLaunchYear sp = Some y -> 2000 <= y <= 2099.
Proof. unfold extractLaunchYear. apply find_year_range. Qed.

Lemma detectCategory_in (sp : specsObj) (name : string) :
  In (detectCategory sp name) ["earbuds"; "watch"; "tablet"; "phone"; "accessory"].
Proof.
  unfold detectCategory.
  repeat match goal with
         | |- context [if ?b then _ else _] => destruct b
         end; simpl; auto 10.
Qed.

(** X10: every product a run accepts was parsed with a name that is not
    empty, carries the launch year read from its own [Launch.Announced] text,
    a year from [MIN_LAUNCH_YEAR] to 2099, and one of the five categories,
    the one [detectCategory] gives for its specifications and name. *)
Theorem accepted_products_pass_the_filter
        (W : world) (cats : list BrandCategory.t)
        (file : option ledger) (brands : gmap string (list Product.t)) :
  let r := runIncrementalScraper W cats (boot file brands) in
  forall p, In p (allScrapedProducts r.2) ->
    Product.name p <> "" /\
    extractLaunchYear (Product.specs p) = Some (Product.launchYear p) /\
    MIN_LAUNCH_YEAR <= Product.launchYear p <= 2099 /\
    Product.category p = detectCategory (Product.specs p) (Product.name p) /\
    In (Product.category p) ["earbuds"; "watch"; "tablet"; "phone"; "accessory"].
Proof.
  cbv zeta. destruct (run_tidy W cats file brands) as [_ _ He].
  intros p Hp. destruct (He p Hp) as [[Hn [Hy [Hc _]]] [Hmin _]].
  split; [exact Hn |]. split; [exact Hy |]. split; [| split; [exact Hc |]].
  - split; [exact Hmin |]. apply extractLaunchYear_bounds in Hy. lia.
  - rewrite Hc. apply detectCategory_in.
Qed.

Lemma accepted_products_pass_the_filter_witness :
  Product.name shop_product <> "" /\
  extractLaunchYear (Product.specs shop_product) = Some (Product.launchYear shop_product) /\
  MIN_LAUNCH_YEAR <= Product.launchYear shop_product <= 2099 /\
  Product.category shop_product
  = detectCategory (Product.specs shop_product) (Product.name shop_product) /\
  In (Product.category shop_product) ["earbuds"; "watch"; "tablet"; "phone"; "accessory"].
Proof.
  apply (accepted_products_pass_the_filter Demo.shop [Demo.acme] None ∅).
  vm_compute. left. reflexivity.
Defined.

(** ** One request *)

(** X11: [fetchWithScraperAPI] charges one credit on every call, before
    anything else.  At the ceiling it leaves with status 0 and issues no
    request, and that is its only exit; a body it returns is the answer of
    the proxy to the request just charged, free of blocking keywords, and
    was asked for with the key set. *)
Theorem fetchWithScraperAPI_charges_first (W : world) (url : string) (b : bool) (s : state) :
  let r := fetchWithScraperAPI W url b s in
  creditsUsed r.2 = S (creditsUsed s) /\
  (MAX_CREDITS <= S (creditsUsed s) ->
   r.1 = ProcessExit 0 /\ requests r.2 = requests s) /\
  (forall c, r.1 = ProcessExit c -> c = 0%Z /\ MAX_CREDITS <= S (creditsUsed s)) /\
  (forall data, r.1 = Return data ->
     api_key_set W = true /\
     axios_get W (S (creditsUsed s)) url = Body data /\
     isBlocked data = false /\
     requests r.2 = S (requests s)) /\
  r.1 <> OutOfFuel.
Proof.
  cbv zeta.
  pose proof (fetchWithScraperAPI_fetched W url b s) as Hf.
  pose proof (fetched_quiet _ _ _ _ _ Hf) as [_ Hc].
  pose proof (fetchWithScraperAPI_at_ceiling W url b s) as Hceil.
  split; [exact Hc |]. split.
  { intros Hmax. rewrite (Hceil Hmax). split; [reflexivity |].
    unfold charged, requests. simpl. rewrite fetch_urls_app. simpl.
    rewrite app_nil_r. reflexivity. }
  destruct (fetchWithScraperAPI W url b s) as [o s1]. cbn [fst snd] in *.
  assert (Hr : forall r, requests (emit (EvFetch url r) (charged s)) = S (requests s)).
  { intros r. unfold charged, requests. simpl. rewrite !fetch_urls_app, !length_app.
    simpl. lia. }
  destruct Hf as [Hmax | Hlt Hkey | msg s' Hlt Hr' -> | data s' Hlt Hr' Hb ->
                  | data msg s' Hlt Hr' Hb -> | data s' Hlt Hkey Hr' Hb Hs'];
    try (unfold request_failed; destruct (is_block msg));
    ((split; [| split]);
     [intros c E; try discriminate E | intros d E; try discriminate E | discriminate]).
  - injection E as <-. split; [reflexivity | exact Hmax].
  - injection E as <-. repeat split; try assumption.
    destruct Hs' as [-> | ->]; [apply Hr | apply (Hr (Body data))].
Qed.

(** ** The references of a listing page *)

(** X12: the references [parseBrandListing] returns are those anchors of the
    page whose [href] ends in [.php] and ends in a product number; each is
    made absolute with [BASE] and carries the number as its identifier. *)
Theorem parseBrandListing_links (W : world) (html : string) (link : Link.t) :
  In link (parseBrandListing W html) <->
  exists h, In (Some h) (makers_hrefs W html) /\
            Str.endsWith ".php" h = true /\
            Link.url link = BASE +:+ "/" +:+ h /\
            extractProductId (Link.url link) = Some (Link.id link).
Proof.
  unfold parseBrandListing. rewrite in_flat_map. split.
  - intros [[h |] [Hin H]]; [| destruct H].
    exists h. destruct (Str.endsWith ".php" h) eqn:He; [| destruct H].
    cbv zeta in H.
    destruct (extractProductId (BASE +:+ "/" +:+ h)) as [pid |] eqn:Hid; [| destruct H].
    destruct H as [<- | []]. simpl. auto.
  - intros [h [Hin [He [Hu Hid]]]]. exists (Some h). split; [exact Hin |].
    rewrite He. cbv zeta. rewrite <- Hu, Hid. left.
    destruct link as [u i]. reflexivity.
Qed.

Lemma parseBrandListing_id (W : world) (html : string) (link : Link.t) :
  In link (parseBrandListing W html) ->
  extractProductId (Link.url link) = Some (Link.id link).
Proof.
  unfold parseBrandListing. rewrite in_flat_map.
  intros [[h |] [Hin H]]; [| destruct H].
  destruct (Str.endsWith ".php" h); [| destruct H]. cbv zeta in H.
  destruct (extractProductId (BASE +:+ "/" +:+ h)) as [pid |] eqn:Hid; [| destruct H].
  destruct H as [<- | []]. exact Hid.
Qed.

(** ** The references of a category *)

Lemma page_turn_links (W : world) (seen : ledger) (data : string)
      (l l' : list Link.t) (c c' : nat) :
  page_turn W seen data l c = Break (l', c') \/
  page_turn W seen data l c = Continue (l', c') ->
  exists extra, l' = l ++ extra /\ forall link, In link extra -> In link (unseen W seen data).
Proof.
  unfold page_turn. intros H.
  destruct (parseBrandListing W data) as [|x rest].
  - exists []. destruct H as [H | H]; [| discriminate H].
    injection H as <- _. split; [symmetry; apply app_nil_r | intros link []].
  - destruct (unseen W seen data) as [|y new].
    + exists []. split; [| intros link []].
      destruct (3 <=? S c); destruct H as [H | H]; try discriminate H;
        injection H as <- _; reflexivity.
    + exists (y :: new). destruct H as [H | H]; [discriminate H |].
      injection H as <- _. split; [reflexivity | auto].
Qed.

Lemma fetched_body_trace (W : world) (url : string) (s : state) (data : string) (s1 : state) :
  fetched W url s (Return data) s1 ->
  trace s1 = trace s ++ [EvCharge (S (creditsUsed s)); EvFetch url (Body data)] /\
  isBlocked data = false.
Proof.
  intros H. remember (Return data) as o eqn:Ho.
  destruct H as [Hmax | Hlt Hkey | msg s' Hlt Hr | d s' Hlt Hr Hb Hs'
                 | d msg s' Hlt Hr Hb Hs' | d s' Hlt Hkey Hr Hb Hs'];
    try discriminate Ho;
    try (unfold request_failed in Ho; destruct (is_block _); discriminate Ho).
  injection Ho as ->. split; [| exact Hb].
  destruct Hs' as [-> | ->]; simpl; rewrite <- app_assoc; reflexivity.
Qed.

Lemma listingPage_turn (W : world) (m : BrandMatch.t) (page : nat)
      (l : list Link.t) (c : nat) (s : state) :
  let r := listingPage W m page l c s in
  exists t,
    trace r.2 = trace s ++ t /\
    seenProducts r.2 = seenProducts s /\
    forall turn,
      r.1 = Return turn ->
      turn = Break (l, c) \/
      exists data,
        In (EvFetch (pageUrl m page) (Body data)) t /\
        isBlocked data = false /\
        turn = page_turn W (seenProducts s) data l c.
Proof.
  cbv zeta. rewrite listingPage_unfold.
  pose proof (fetchWithScraperAPI_fetched W (pageUrl m page) false s) as Hf.
  pose proof (fetched_quiet _ _ _ _ _ Hf) as [[Hs _ _ _ _ [t [Ht _]]] _].
  exists t.
  destruct (fetchWithScraperAPI W (pageUrl m page) false s) as [[data | msg | code |] s1];
    cbn [fst snd] in *.
  - split; [exact Ht |]. split; [exact Hs |].
    intros turn [= <-]. right. exists data. rewrite Hs.
    split; [| split; [| reflexivity]].
    + apply fetched_body_trace in Hf as [Htr _].
      rewrite Htr in Ht. apply app_inv_head in Ht. subst t. right. left. reflexivity.
    + apply fetched_body_trace in Hf as [_ Hb]. exact Hb.
  - destruct (is_block msg); cbn [fst snd];
      (split; [exact Ht |]); (split; [exact Hs |]); intros turn; [discriminate |].
    intros [= <-]. left. reflexivity.
  - split; [exact Ht |]. split; [exact Hs |]. intros turn H. discriminate H.
  - split; [exact Ht |]. split; [exact Hs |]. intros turn H. discriminate H.
Qed.

Lemma paginate_links (W : world) (fuel : nat) :
  forall (m : BrandMatch.t) (page : nat) (l : list Link.t) (c : nat) (s : state),
    let r := paginate W fuel m page l c s in
    exists t,
      trace r.2 = trace s ++ t /\
      forall l',
        r.1 = Return l' ->
        forall link,
          In link l' ->
          In link l \/
          exists p data,
            page <= p /\
            In (EvFetch (pageUrl m p) (Body data)) t /\
            isBlocked data = false /\
            In link (unseen W (seenProducts s) data).
Proof.
  induction fuel as [|fuel IH]; intros m page l c s; cbv zeta.
  { exists []. simpl. split; [symmetry; apply app_nil_r | discriminate]. }
  rewrite paginate_unfold.
  destruct (listingPage_turn W m page l c s) as [t1 [Ht1 [Hs1 Hturn]]].
  destruct (listingPage W m page l c s) as [[[[l1 c1] | [l1 c1]] | msg | code |] s1];
    cbn [fst snd] in *.
  - exists t1. split; [exact Ht1 |]. intros l' [= <-] link Hin.
    destruct (Hturn _ eq_refl) as [H | [data [Hev [Hb H]]]].
    + injection H as -> _. left. exact Hin.
    + symmetry in H.
      destruct (page_turn_links W _ _ _ _ _ _ (or_introl H)) as [extra [-> He]].
      apply in_app_iff in Hin as [Hin | Hin]; [left; exact Hin |].
      right. exists page, data. auto.
  - destruct (IH m (S page) l1 c1 s1) as [t2 [Ht2 Hl2]]. cbv zeta in Ht2, Hl2.
    exists (t1 ++ t2). split; [rewrite Ht2, Ht1, app_assoc; reflexivity |].
    intros l' Hret link Hin.
    destruct (Hturn _ eq_refl) as [H | [data [Hev [Hb H]]]]; [discriminate H |].
    symmetry in H.
    destruct (page_turn_links W _ _ _ _ _ _ (or_intror H)) as [extra [-> He]].
    destruct (Hl2 l' Hret link Hin) as [Hold | [p [data' [Hp [Hev' [Hb' Hnew]]]]]].
    + apply in_app_iff in Hold as [Hold | Hold]; [left; exact Hold |].
      right. exists page, data. split; [lia |].
      split; [apply in_app_iff; left; exact Hev |]. auto.
    + right. exists p, data'. split; [lia |].
      split; [apply in_app_iff; right; exact Hev' |].
      split; [exact Hb' |]. rewrite <- Hs1. exact Hnew.
  - exists t1. split; [exact Ht1 | discriminate].
  - exists t1. split; [exact Ht1 | discriminate].
  - exists t1. split; [exact Ht1 | discriminate].
Qed.

(** X13: every reference [getBrandProductLinks] returns was parsed from the
    body that the site sent, during this very pagination, for one of the
    listing pages of the category, a body without block indicator; it
    carries the number of its own URL as its identifier, and is not a key
    of the ledger the pagination started with. *)
Theorem getBrandProductLinks_returns_unseen
        (W : world) (brandUrl : string) (s : state) (links : list Link.t) :
  (getBrandProductLinks W brandUrl s).1 = Return links ->
  exists m t,
    matchBrandUrl brandUrl = Some m /\
    trace (getBrandProductLinks W brandUrl s).2 = trace s ++ t /\
    forall link,
      In link links ->
      seenProducts s !! Link.id link = None /\
      extractProductId (Link.url link) = Some (Link.id link) /\
      exists page data,
        1 <= page /\
        In (EvFetch (pageUrl m page) (Body data)) t /\
        isBlocked data = false /\
        In link (parseBrandListing W data).
Proof.
  unfold getBrandProductLinks. destruct (matchBrandUrl brandUrl) as [m |]; [| discriminate].
  intros Hret. exists m.
  destruct (paginate_links W MAX_CREDITS m 1 [] 0 s) as [t [Ht Hl]]. cbv zeta in Ht, Hl.
  exists t. split; [reflexivity |]. split; [exact Ht |].
  intros link Hin.
  destruct (Hl links Hret link Hin) as [[] | [p [data [Hp [Hev [Hb Hnew]]]]]].
  unfold unseen in Hnew. apply filter_In in Hnew as [Hparsed Hseen].
  split; [| split; [eapply parseBrandListing_id; exact Hparsed |]].
  - unfold is_seen in Hseen.
    destruct (seenProducts s !! Link.id link); [discriminate | reflexivity].
  - exists p, data. auto.
Qed.

Lemma getBrandProductLinks_returns_unseen_witness :
  exists m t,
    matchBrandUrl Demo.acme_url = Some m /\
    trace (getBrandProductLinks Demo.shop Demo.acme_url (boot None ∅)).2
    = trace (boot None ∅) ++ t /\
    forall link,
      In link [Link.mk "https://www.gsmarena.com/a-1.php" "1";
               Link.mk "https://www.gsmarena.com/b-2.php" "2"] ->
      seenProducts (boot None ∅) !! Link.id link = None /\
      extractProductId (Link.url link) = Some (Link.id link) /\
      exists page data,
        1 <= page /\
        In (EvFetch (pageUrl m page) (Body data)) t /\
        isBlocked data = false /\
        In link (parseBrandListing Demo.shop data).
Proof.
  apply (getBrandProductLinks_returns_unseen Demo.shop Demo.acme_url (boot None ∅)).
  vm_compute. reflexivity.
Defined.

(** ** The cost of one product *)

(** X14: [scrapeProduct] never charges more than once; a reference whose
    identifier the ledger holds costs nothing and changes nothing, any other
    reference with an identifier costs exactly one credit, and a URL without
    a product number is refused before anything is charged.  Whatever it
    throws is a Block or that refusal. *)
Theorem scrapeProduct_cost (W : world) (url brand : string) (s : state) :
  let r := scrapeProduct W url brand s in
  (forall pid,
      extractProductId url = Some pid ->
      (is_seen (seenProducts s) pid = true -> r = (Return None, s)) /\
      (is_seen (seenProducts s) pid = false -> creditsUsed r.2 = S (creditsUsed s))) /\
  (extractProductId url = None ->
   r = (Throw ("Could not extract product ID from URL: " +:+ url), s)) /\
  (forall message, r.1 = Throw message ->
     is_block message = true \/ extractProductId url = None).
Proof.
  cbv zeta. rewrite scrapeProduct_unfold.
  destruct (extractProductId url) as [pid |]; [| repeat split; try discriminate; auto].
  split; [| split; [discriminate |]].
  - intros ? [= <-]. split; intros Hseen; rewrite Hseen; [reflexivity |].
    pose proof (fetchWithScraperAPI_fetched W url false s) as Hf.
    apply fetched_quiet in Hf as [_ Hc].
    destruct (fetchWithScraperAPI W url false s) as [[html | msg | c |] s1];
      cbn [fst snd] in *; try exact Hc.
    + destruct ((parseProductPage W html url brand s1).1) as [p | msg | c |]; try exact Hc.
      destruct (Product.launchYear p <? MIN_LAUNCH_YEAR); exact Hc.
    + destruct (is_block msg); exact Hc.
  - intros message. destruct (is_seen (seenProducts s) pid); [discriminate |].
    destruct (fetchWithScraperAPI W url false s) as [[html | msg | c |] s1];
      cbn [fst snd]; try discriminate.
    + destruct ((parseProductPage W html url brand s1).1) as [p | msg | c |]; try discriminate.
      destruct (Product.launchYear p <? MIN_LAUNCH_YEAR); discriminate.
    + destruct (is_block msg) eqn:Hb; [| discriminate].
      intros [= <-]. left. exact Hb.
Qed.

(** ** The ledger file at the end of a run *)

Lemma in_sync_quiet (s s' : state) : quiet s s' -> in_sync s -> in_sync s'.
Proof. intros [Hs _ Hf _ _ _] H. unfold in_sync in *. rewrite Hs, Hf. exact H. Qed.

Lemma in_sync_save (W : world) (s : state) :
  (forall n, fs_write W n = None) -> in_sync (saveSeenProducts W s).2.
Proof.
  intros Hfs. unfold saveSeenProducts, in_sync. rewrite Hfs. reflexivity.
Qed.

Lemma processCategory_in_sync (W : world) (bc : BrandCategory.t) (s : state) :
  (forall n, fs_write W n = None) ->
  in_sync s -> (processCategory W bc s).1 = Return tt -> in_sync (processCategory W bc s).2.
Proof.
  intros Hfs Hs. rewrite processCategory_unfold.
  pose proof (getBrandProductLinks_quiet W (BrandCategory.url bc) (emit (EvCategory bc) s))
    as Hq.
  assert (H1 : in_sync (getBrandProductLinks W (BrandCategory.url bc) (emit (EvCategory bc) s)).2).
  { eapply in_sync_quiet; [exact Hq | exact Hs]. }
  destruct (getBrandProductLinks W (BrandCategory.url bc) (emit (EvCategory bc) s))
    as [[[|x links] | msg | c |] s1]; cbn [fst snd] in *; try discriminate.
  - intros _. exact H1.
  - pose proof (scrapeLinks_block_only W (BrandCategory.name bc) (x :: links) 0 s1) as Hb.
    destruct (scrapeLinks W (BrandCategory.name bc) (x :: links) 0 s1)
      as [[[] | msg | c |] s2]; cbn [fst snd] in *; try discriminate.
    + intros _. apply in_sync_save. exact Hfs.
    + rewrite (Hb msg eq_refl). discriminate.
  - destruct (is_block msg); [discriminate |]. intros _. exact H1.
Qed.

Lemma scrapeCategories_in_sync (W : world) (cats : list BrandCategory.t) :
  (forall n, fs_write W n = None) ->
  forall s, in_sync s -> (scrapeCategories W cats s).1 = Return tt ->
            in_sync (scrapeCategories W cats s).2.
Proof.
  intros Hfs. induction cats as [|bc rest IH]; intros s Hs; simpl; [intros _; exact Hs |].
  unfold bind. pose proof (processCategory_in_sync W bc s Hfs Hs) as H.
  destruct (processCategory W bc s) as [[[] | msg | c |] s1]; cbn [fst snd] in *;
    try discriminate.
  apply IH. apply H. reflexivity.
Qed.

(** X15: a process started afresh ends in one of three ways: it returns, it
    leaves with status 1, or it leaves with status 0 at the credit ceiling.
    On a disk that accepts every write the ledger file holds, in the first
    two cases, exactly the ledger the process has in memory: nothing that was
    recorded is missing from the file. *)
Theorem ledger_file_is_current_unless_ceiling
        (W : world) (cats : list BrandCategory.t)
        (file : option ledger) (brands : gmap string (list Product.t)) :
  (forall n, fs_write W n = None) ->
  let r := runIncrementalScraper W cats (boot file brands) in
  (r.1 = ProcessExit 0 /\ creditsUsed r.2 = MAX_CREDITS) \/
  ((r.1 = Return tt \/ r.1 = ProcessExit 1) /\
   default ∅ (state_file r.2) = seenProducts r.2).
Proof.
  intros Hfs. cbv zeta. rewrite runIncrementalScraper_unfold.
  assert (H0 : in_sync (loaded (boot file brands))) by reflexivity.
  assert (Hc : creditsUsed (loaded (boot file brands)) < MAX_CREDITS)
    by (unfold MAX_CREDITS; simpl; lia).
  pose proof (scrapeCategories_in_sync W cats Hfs _ H0) as H.
  pose proof (scrapeCategories_budgeted W cats _ Hc) as Hb.
  destruct (scrapeCategories W cats (loaded (boot file brands))) as [[[] | msg | c |] s1];
    cbn [fst snd kind_of] in *.
  - right. split; [left; reflexivity | apply H; reflexivity].
  - right. split; [right; reflexivity | apply in_sync_save; exact Hfs].
  - left. destruct Hb as [-> Hb]. split; [reflexivity | exact Hb].
  - destruct Hb.
Qed.

Lemma ledger_file_is_current_unless_ceiling_witness :
  let r := runIncrementalScraper Demo.shop [Demo.acme] (boot None ∅) in
  (r.1 = ProcessExit 0 /\ creditsUsed r.2 = MAX_CREDITS) \/
  ((r.1 = Return tt \/ r.1 = ProcessExit 1) /\
   default ∅ (state_file r.2) = seenProducts r.2).
Proof.
  apply (ledger_file_is_current_unless_ceiling Demo.shop [Demo.acme] None ∅).
  intros n. reflexivity.
Defined.

(** ** The brand files *)

Lemma insert_by_year_perm (p : Product.t) (l : list Product.t) :
  Permutation (insert_by_year p l) (p :: l).
Proof.
  induction l as [|q t IH]; simpl; [reflexivity |].
  destruct (Product.launchYear p <? Product.launchYear q); [| reflexivity].
  rewrite IH. apply perm_swap.
Qed.

Lemma sortByLaunchYear_perm (l : list Product.t) : Permutation (sortByLaunchYear l) l.
Proof.
  induction l as [|p l IH]; simpl; [reflexivity |].
  rewrite insert_by_year_perm, IH. reflexivity.
Qed.

Lemma insert_by_year_sorted (p : Product.t) (l : list Product.t) :
  StronglySorted newer_or_same l -> StronglySorted newer_or_same (insert_by_year p l).
Proof.
  induction l as [|q t IH]; intros Hs; simpl.
  - constructor; constructor.
  - apply StronglySorted_inv in Hs as [Ht Hq].
    destruct (Product.launchYear p <? Product.launchYear q) eqn:Hlt.
    + apply Nat.ltb_lt in Hlt. constructor; [apply IH; exact Ht |].
      apply Forall_forall. intros x Hx.
      apply list_elem_of_In in Hx.
      apply (Permutation_in _ (insert_by_year_perm p t)) in Hx as [<- | Hx].
      * unfold newer_or_same. lia.
      * rewrite Forall_forall in Hq. apply Hq, list_elem_of_In, Hx.
    + apply Nat.ltb_ge in Hlt. constructor; [constructor; assumption |].
      constructor; [exact Hlt |].
      eapply Forall_impl; [exact Hq |]. unfold newer_or_same. intros x Hx. simpl in *. lia.
Qed.

Lemma sortByLaunchYear_sorted (l : list Product.t) :
  StronglySorted newer_or_same (sortByLaunchYear l).
Proof.
  induction l as [|p l IH]; simpl; [constructor | apply insert_by_year_sorted, IH].
Qed.

Lemma insert_by_year_of_year (y : nat) (p : Product.t) (l : list Product.t) :
  of_year y (insert_by_year p l) = of_year y (p :: l).
Proof.
  unfold of_year. induction l as [|q t IH]; [reflexivity |].
  cbn [insert_by_year].
  destruct (Product.launchYear p <? Product.launchYear q) eqn:Hlt; [| reflexivity].
  apply Nat.ltb_lt in Hlt. cbn [List.filter] in *. rewrite IH.
  destruct (Product.launchYear p =? y) eqn:Hp; [| reflexivity].
  apply Nat.eqb_eq in Hp.
  destruct (Product.launchYear q =? y) eqn:Hq; [| reflexivity].
  apply Nat.eqb_eq in Hq. lia.
Qed.

(** X16: the sort of a brand file keeps every product exactly as often as
    it occurred, puts the newest launch year first, and is stable: the
    products of one year keep the order they had. *)
Theorem sortByLaunchYear_stable_newest_first (l : list Product.t) :
  Permutation (sortByLaunchYear l) l /\
  StronglySorted newer_or_same (sortByLaunchYear l) /\
  forall y, of_year y (sortByLaunchYear l) = of_year y l.
Proof.
  split; [apply sortByLaunchYear_perm |]. split; [apply sortByLaunchYear_sorted |].
  intros y. induction l as [|p l IH]; [reflexivity |].
  cbn [sortByLaunchYear fold_right]. rewrite insert_by_year_of_year.
  unfold of_year in *. cbn [List.filter]. fold (sortByLaunchYear l). rewrite IH. reflexivity.
Qed.

(** X17: [appendScrapedProduct] always returns and touches neither the
    ledger nor the counter.  When the write succeeds the file of the
    product's brand (its name in lower case) holds what it held before and
    the product, newest launch year first, and no other file changes; when
    it fails no file changes. *)
Theorem appendScrapedProduct_file (W : world) (p : Product.t) (s : state) :
  let r := appendScrapedProduct W p s in
  r.1 = Return tt /\
  seenProducts r.2 = seenProducts s /\
  creditsUsed r.2 = creditsUsed s /\
  allScrapedProducts r.2 = allScrapedProducts s /\
  match fs_write W (fs_ops s) with
  | None =>
      Permutation (shelf r.2 (brand_file_of p)) (shelf s (brand_file_of p) ++ [p]) /\
      StronglySorted newer_or_same (shelf r.2 (brand_file_of p)) /\
      forall f, f <> brand_file_of p -> brand_files r.2 !! f = brand_files s !! f
  | Some _ => brand_files r.2 = brand_files s
  end.
Proof.
  cbv zeta. unfold appendScrapedProduct.
  destruct (fs_write W (fs_ops s)); cbn [fst snd]; repeat split.
  - unfold shelf. simpl brand_files. unfold brand_file_of. rewrite lookup_insert_eq. simpl.
    apply sortByLaunchYear_perm.
  - unfold shelf. simpl brand_files. unfold brand_file_of. rewrite lookup_insert_eq. simpl.
    apply sortByLaunchYear_sorted.
  - intros f Hf. simpl brand_files. apply lookup_insert_ne. auto.
Qed.

Lemma shelved_nothing (W : world) (s s' : state) (k : kind) :
  brand_files s' = brand_files s -> allScrapedProducts s' = allScrapedProducts s ->
  shelved W s k s'.
Proof.
  intros Hb Ha _. unfold shelf. rewrite Hb, Ha. split; [auto |].
  exists []. split; [symmetry; apply app_nil_r | intros q []].
Qed.

Lemma shelved_quiet (W : world) (s s' : state) (k : kind) : quiet s s' -> shelved W s k s'.
Proof. intros [_ Ha _ Hb _ _]. apply shelved_nothing; assumption. Qed.

Lemma shelved_trans (W : world) (s s1 s2 : state) (k1 k : kind) :
  is_exit k1 = false -> shelved W s k1 s1 -> shelved W s1 k s2 -> shelved W s k s2.
Proof.
  intros _ H1 H2 Hfs. destruct (H1 Hfs) as [M1 [n1 [A1 S1]]].
  destruct (H2 Hfs) as [M2 [n2 [A2 S2]]]. split; [auto |].
  exists (n1 ++ n2). split; [rewrite A2, A1, app_assoc; reflexivity |].
  intros q Hq. apply in_app_iff in Hq as [Hq | Hq]; auto.
Qed.

Lemma shelved_push (W : world) (p : Product.t) (s : state) :
  shelved W s KReturn
          (appendScrapedProduct W p (set_allScrapedProducts (allScrapedProducts s ++ [p]) s)).2.
Proof.
  intros Hfs. unfold appendScrapedProduct. simpl fs_ops. rewrite Hfs. cbn [snd].
  unfold shelf. simpl brand_files. simpl allScrapedProducts. split.
  - intros f q Hq.
    destruct (decide (f = brand_file_of p)) as [-> | Hne].
    + unfold brand_file_of at 1. rewrite lookup_insert_eq. simpl.
      apply (Permutation_in _ (Permutation_sym (sortByLaunchYear_perm _))).
      apply in_app_iff. left. exact Hq.
    + rewrite lookup_insert_ne; [exact Hq |]. auto.
  - exists [p]. split; [reflexivity |]. intros q [<- | []].
    unfold brand_file_of. rewrite lookup_insert_eq. simpl.
    apply (Permutation_in _ (Permutation_sym (sortByLaunchYear_perm _))).
    apply in_app_iff. right. left. reflexivity.
Qed.

Lemma shelved_scrapeCategories (W : world) (cats : list BrandCategory.t) (s : state) :
  shelved W s (kind_of (scrapeCategories W cats s).1) (scrapeCategories W cats s).2.
Proof.
  assert (Hrefl : forall s0 k, is_exit k = false -> shelved W s0 k s0).
  { intros s0 k _. apply shelved_nothing; reflexivity. }
  assert (Hkind : forall s0 s1 k k',
             is_exit k = false -> is_exit k' = false -> shelved W s0 k s1 -> shelved W s0 k' s1).
  { intros s0 s1 k k' _ _ H. exact H. }
  assert (Hfetch : forall url b s0,
             shelved W s0 (kind_of (fetchWithScraperAPI W url b s0).1)
                     (fetchWithScraperAPI W url b s0).2).
  { intros url b s0. apply shelved_quiet.
    eapply fetched_quiet, fetchWithScraperAPI_fetched. }
  apply (lift_scrapeCategories W (shelved W) Hrefl (shelved_trans W) Hkind).
  - intros bc s0. apply shelved_nothing; reflexivity.
  - apply (leaf_getBrandProductLinks W (shelved W) Hrefl (shelved_trans W) Hkind Hfetch).
  - apply (leaf_scrapeLink W (shelved W) Hrefl (shelved_trans W) Hkind Hfetch).
    + intros pid e s0. apply shelved_nothing; reflexivity.
    + apply shelved_push.
  - intros s0. destruct (saveSeenProducts_cases W s0) as [ok [s' [E [_ [_ [_ [Ha _]]]]]]].
    apply shelved_nothing; [| rewrite E; exact Ha].
    unfold saveSeenProducts. destruct (fs_write W _); reflexivity.
Qed.

(** X18: on a disk that accepts every write, a run loses nothing from the
    brand files it found, and at its end every product it accepted is in the
    file of its brand. *)
Theorem accepted_products_are_in_their_brand_file
        (W : world) (cats : list BrandCategory.t)
        (file : option ledger) (brands : gmap string (list Product.t)) :
  (forall n, fs_write W n = None) ->
  let r := runIncrementalScraper W cats (boot file brands) in
  (forall f q, In q (default [] (brands !! f)) -> In q (shelf r.2 f)) /\
  (forall p, In p (allScrapedProducts r.2) -> In p (shelf r.2 (brand_file_of p))).
Proof.
  intros Hfs. cbv zeta. rewrite runIncrementalScraper_unfold.
  destruct (shelved_scrapeCategories W cats (loaded (boot file brands)) Hfs)
    as [Hm [new [Ha Hn]]].
  change (allScrapedProducts (loaded (boot file brands)) ++ new) with new in Ha.
  assert (Hfin : forall s1,
             (forall f q, In q (default [] (brands !! f)) -> In q (shelf s1 f)) ->
             (forall p, In p (allScrapedProducts s1) -> In p (shelf s1 (brand_file_of p))) ->
             (forall f q, In q (default [] (brands !! f)) -> In q (shelf (saveSeenProducts W s1).2 f)) /\
             (forall p, In p (allScrapedProducts (saveSeenProducts W s1).2) ->
                        In p (shelf (saveSeenProducts W s1).2 (brand_file_of p)))).
  { intros s1 H1 H2. unfold saveSeenProducts. destruct (fs_write W _); simpl; auto. }
  destruct (scrapeCategories W cats (loaded (boot file brands))) as [[[] | msg | c |] s1];
    cbn [fst snd] in *; rewrite <- Ha in Hn; try (split; [exact Hm | exact Hn]).
  apply Hfin; assumption.
Qed.

Lemma accepted_products_are_in_their_brand_file_witness :
  let r := runIncrementalScraper Demo.shop [Demo.acme] (boot None ∅) in
  (forall f q, In q (default [] ((∅ : gmap string (list Product.t)) !! f)) -> In q (shelf r.2 f)) /\
  (forall p, In p (allScrapedProducts r.2) -> In p (shelf r.2 (brand_file_of p))).
Proof.
  apply (accepted_products_are_in_their_brand_file Demo.shop [Demo.acme] None ∅).
  intros n. reflexivity.
Defined.

(** ** The rebuild script *)

Lemma rebuild_file_lookup (pid : string) (l : list Product.t) :
  forall seen,
    rebuild_file seen l !! pid =
    match last (with_id pid l) with
    | Some p => if Str.is_empty pid then seen !! pid else Some (rebuild_entry pid p)
    | None => seen !! pid
    end.
Proof.
  unfold rebuild_file, with_id.
  induction l as [|p l IH]; intros seen; [reflexivity |].
  cbn [fold_left List.filter]. rewrite IH. clear IH.
  destruct (bool_decide (Product.id p = Some pid)) eqn:Hp.
  - apply bool_decide_eq_true in Hp. rewrite Hp, last_cons.
    destruct (last _) as [q |].
    + destruct (Str.is_empty pid); reflexivity.
    + destruct (Str.is_empty pid); [reflexivity | apply lookup_insert_eq].
  - apply bool_decide_eq_false in Hp.
    assert (Hs : match Product.id p with
                 | Some pid0 =>
                     if Str.is_empty pid0 then seen
                     else <[pid0 := rebuild_entry pid0 p]> seen
                 | None => seen
                 end !! pid = seen !! pid).
    { destruct (Product.id p) as [pid0 |]; [| reflexivity].
      destruct (Str.is_empty pid0); [reflexivity |].
      apply lookup_insert_ne. congruence. }
    destruct (last _) as [q |]; [| exact Hs].
    destruct (Str.is_empty pid); [exact Hs | reflexivity].
Qed.

Lemma rebuild_file_app (seen : ledger) (a b : list Product.t) :
  rebuild_file seen (a ++ b) = rebuild_file (rebuild_file seen a) b.
Proof. apply fold_left_app. Qed.

Lemma rebuild_files_flat (files : list (string * list Product.t)) :
  forall seen,
    fold_left
      (fun seen file =>
         if Str.endsWith ".json" (fst file) then rebuild_file seen (snd file) else seen)
      files seen
    = rebuild_file seen (json_products files).
Proof.
  induction files as [|[f ps] files IH]; intros seen; [reflexivity |].
  cbn [fold_left json_products flat_map fst snd]. rewrite IH.
  destruct (Str.endsWith ".json" f); [symmetry; apply rebuild_file_app | reflexivity].
Qed.

Lemma rebuildSeenProducts_recipe (files : list (string * list Product.t)) (pid : string) :
  rebuildSeenProducts files !! pid =
  if Str.is_empty pid then None
  else rebuild_entry pid <$> last (with_id pid (json_products files)).
Proof.
  unfold rebuildSeenProducts. rewrite rebuild_files_flat, rebuild_file_lookup.
  rewrite lookup_empty.
  destruct (last _), (Str.is_empty pid); reflexivity.
Qed.

(** X19: the rebuild script gives an identifier the entry of the last
    product that carries it, in the order in which the files and their
    products are read; files whose name does not end in [.json], products
    without an identifier and the empty identifier contribute nothing. *)
Theorem rebuildSeenProducts_lookup (files : list (string * list Product.t)) (pid : string) :
  rebuildSeenProducts files !! pid =
  if Str.is_empty pid then None
  else rebuild_entry pid <$> last (with_id pid (json_products files)).
Proof. apply rebuildSeenProducts_recipe. Qed.

(** ** The upload script *)

Lemma uploadNext_unfold (W : Upload.world) (totalSuccess totalErrors : nat)
      (s : Upload.state) (filePath : string) :
  Upload.uploadNext W (totalSuccess, totalErrors, s) filePath =
  match Upload.readFile W filePath with
  | Upload.Items data =>
      match Upload.execute W (Upload.calls s) data with
      | None =>
          (totalSuccess + length data, totalErrors,
           Upload.mkState (S (Upload.calls s)) (Upload.accepted s ++ [data]))
      | Some _ =>
          (totalSuccess, totalErrors, Upload.mkState (S (Upload.calls s)) (Upload.accepted s))
      end
  | _ => (totalSuccess, totalErrors, s)
  end.
Proof.
  unfold Upload.uploadNext, Upload.uploadJsonFile.
  destruct (Upload.readFile W filePath) as [msg | | data]; try reflexivity.
  destruct (Upload.execute W (Upload.calls s) data); simpl; [reflexivity |].
  rewrite Nat.add_0_r. reflexivity.
Qed.

Lemma uploadNext_fold (W : Upload.world) (files : list string) :
  forall totalSuccess totalErrors s,
    let r := fold_left (Upload.uploadNext W) files (totalSuccess, totalErrors, s) in
    exists new,
      Upload.accepted r.2 = Upload.accepted s ++ new /\
      Upload.calls r.2 = Upload.calls s + length (Upload.arrays W files) /\
      sublist new (Upload.arrays W files) /\
      r.1.1 = totalSuccess + length (concat new) /\
      r.1.2 = totalErrors.
Proof.
  induction files as [|f files IH]; intros ts te s; cbv zeta.
  - exists []. simpl. rewrite app_nil_r. repeat split; try lia. constructor.
  - cbn [fold_left Upload.arrays flat_map]. fold (Upload.arrays W files).
    rewrite uploadNext_unfold.
    destruct (Upload.readFile W f) as [msg | | data].
    + apply IH.
    + apply IH.
    + destruct (Upload.execute W (Upload.calls s) data) as [msg |].
      * destruct (IH ts te (Upload.mkState (S (Upload.calls s)) (Upload.accepted s)))
          as [new [Ha [Hc [Hs [Ht He]]]]].
        cbv zeta in *. simpl in Ha, Hc.
        exists new. repeat split; try assumption.
        -- rewrite Hc. simpl. lia.
        -- simpl. apply sublist_cons. exact Hs.
      * destruct (IH (ts + length data) te
                     (Upload.mkState (S (Upload.calls s)) (Upload.accepted s ++ [data])))
          as [new [Ha [Hc [Hs [Ht He]]]]].
        cbv zeta in *. simpl in Ha, Hc.
        exists (data :: new). repeat split.
        -- rewrite Ha, <- app_assoc. reflexivity.
        -- rewrite Hc. simpl. lia.
        -- simpl. apply sublist_skip. exact Hs.
        -- rewrite Ht. simpl. rewrite length_app. lia.
        -- exact He.
Qed.

(** X20: without a connection or without the directory the upload leaves
    with status 1 before it sends anything.  Otherwise every [.json] file
    that holds an array is sent, in the order of the directory, whatever
    happened to the files before it; what the server accepted are arrays of
    those files, in that order; the script leaves with status 1 if closing
    the pool fails and otherwise reports as total the number of items of the
    accepted arrays, and as number of errors always 0. *)
Theorem uploadAllJsonFiles_summary (W : Upload.world) (s : Upload.state) :
  let dir := Upload.join (Upload.cwd W) "scraped_products" in
  let r := Upload.uploadAllJsonFiles W s in
  match Upload.connect W, Upload.readdirSync W dir with
  | None, inr names =>
      let files := map (Upload.join dir) (List.filter (Str.endsWith ".json") names) in
      exists new,
        Upload.accepted r.2 = Upload.accepted s ++ new /\
        Upload.calls r.2 = Upload.calls s + length (Upload.arrays W files) /\
        sublist new (Upload.arrays W files) /\
        match Upload.close W with
        | None => r.1 = Upload.Finished (length (concat new)) 0
        | Some _ => r.1 = Upload.Exited 1
        end
  | _, _ => r = (Upload.Exited 1, s)
  end.
Proof.
  cbv zeta. unfold Upload.uploadAllJsonFiles.
  destruct (Upload.connect W) as [msg |]; [reflexivity |].
  destruct (Upload.readdirSync W _) as [msg | names]; [reflexivity |].
  pose proof (uploadNext_fold W
                (map (Upload.join (Upload.join (Upload.cwd W) "scraped_products"))
                     (List.filter (Str.endsWith ".json") names)) 0 0 s) as H.
  cbv zeta in H.
  destruct (fold_left _ _ _) as [[ts te] s1]. cbn [fst snd] in H.
  destruct H as [new [Ha [Hc [Hs [Ht He]]]]]. exists new.
  destruct (Upload.close W); cbn [fst snd]; repeat split; try assumption.
  rewrite Ht, He. reflexivity.
Qed.

(** in the depot a request that the server refuses and two files that
    cannot be uploaded do not stop the loop, and the summary does not count
    them: three requests are sent, two arrays are accepted, and the script
    reports three items and no error. *)
Example upload_goes_on_after_a_failure :
  let r := Upload.uploadAllJsonFiles Upload.depot (Upload.mkState 0 []) in
  r = (Upload.Finished 3 0, Upload.mkState 3 [["a1"; "a2"]; ["o1"]]).
Proof. vm_compute. reflexivity. Qed.

(** ** The rebuild script after a run *)

Lemma endsWith_app (a suffix : string) : Str.endsWith suffix (a +:+ suffix) = true.
Proof.
  unfold Str.endsWith. rewrite chars_app, rev_app_distr, of_chars_app. apply prefix_app.
Qed.

Lemma brand_file_of_json (p : Product.t) : Str.endsWith ".json" (brand_file_of p) = true.
Proof.
  unfold brand_file_of.
  change (OUTPUT_DIR +:+ "/" +:+ Str.toLowerCase (Product.brand p) +:+ ".json")
    with (OUTPUT_DIR +:+ ("/" +:+ (Str.toLowerCase (Product.brand p) +:+ ".json"))).
  assert (Hassoc : forall a b c : string, a +:+ (b +:+ c) = (a +:+ b) +:+ c).
  { intros a b c. apply chars_inj. rewrite !chars_app. apply app_assoc. }
  rewrite !Hassoc. apply endsWith_app.
Qed.

Lemma accounted_nothing (s s' : state) (k : kind) :
  seenProducts s' = seenProducts s -> brand_files s' = brand_files s ->
  allScrapedProducts s' = allScrapedProducts s ->
  accounted s k s'.
Proof.
  intros Hs Hb Ha. exists []. unfold shelf. rewrite Hs, Hb, Ha, app_nil_r. auto.
Qed.

Lemma accounted_quiet (s s' : state) (k : kind) : quiet s s' -> accounted s k s'.
Proof. intros [Hs Ha _ Hb _ _]. apply accounted_nothing; assumption. Qed.

Lemma accounted_trans (s s1 s2 : state) (k1 k : kind) :
  is_exit k1 = false -> accounted s k1 s1 -> accounted s1 k s2 -> accounted s k s2.
Proof.
  intros _ [n1 [A1 [K1 S1]]] [n2 [A2 [K2 S2]]]. exists (n1 ++ n2).
  split; [rewrite A2, A1, app_assoc; reflexivity |]. split.
  - intros pid H. destruct (K2 pid H) as [H1 | [p [Hp Hid]]].
    + destruct (K1 pid H1) as [H0 | [p [Hp Hid]]]; [left; exact H0 |].
      right. exists p. split; [apply in_app_iff; left; exact Hp | exact Hid].
    + right. exists p. split; [apply in_app_iff; right; exact Hp | exact Hid].
  - intros f q H. destruct (S2 f q H) as [H1 | [Hq Hf]].
    + destruct (S1 f q H1) as [H0 | [Hq Hf]]; [left; exact H0 |].
      right. split; [apply in_app_iff; left; exact Hq | exact Hf].
    + right. split; [apply in_app_iff; right; exact Hq | exact Hf].
Qed.

Lemma scrapeProduct_frame (W : world) (url brand : string) (s : state) :
  match (scrapeProduct W url brand s).1 with
  | Return (Some p) =>
      exists pid s1,
        quiet s s1 /\ Product.id p = Some pid /\
        (scrapeProduct W url brand s).2 = recorded pid (ledger_entry pid p) s1
  | _ => quiet s (scrapeProduct W url brand s).2
  end.
Proof.
  rewrite scrapeProduct_unfold.
  destruct (extractProductId url) as [pid |] eqn:Hid; [| apply quiet_refl].
  destruct (is_seen (seenProducts s) pid); [apply quiet_refl |].
  pose proof (fetchWithScraperAPI_fetched W url false s) as Hf.
  apply fetched_quiet in Hf as [Hq _].
  destruct (fetchWithScraperAPI W url false s) as [[html | msg | c |] s1];
    cbn [fst snd] in *; try exact Hq.
  - destruct ((parseProductPage W html url brand s1).1) as [p | msg | c |] eqn:Hp;
      try exact Hq.
    destruct (Product.launchYear p <? MIN_LAUNCH_YEAR); [exact Hq |].
    exists pid, s1. split; [exact Hq |]. split; [| reflexivity].
    apply parseProductPage_well_formed in Hp as [[_ [_ [_ ->]]] [-> _]]. exact Hid.
  - destruct (is_block msg); exact Hq.
Qed.

Lemma accounted_scrapeLink (W : world) (brand : string) (link : Link.t) (n : nat) (s : state) :
  accounted s (kind_of (scrapeLink W brand link n s).1) (scrapeLink W brand link n s).2.
Proof.
  rewrite scrapeLink_unfold.
  pose proof (scrapeProduct_frame W (Link.url link) brand s) as Hc.
  destruct (scrapeProduct W (Link.url link) brand s) as [[[p |] | msg | c |] s1];
    cbn [fst snd] in Hc; cbn [fst snd].
  - destruct Hc as [pid [s0 [[Hs Ha _ Hb _ _] [Hid ->]]]].
    exists [p]. unfold appendScrapedProduct. simpl fs_ops.
    destruct (fs_write W (fs_ops s0)); cbn [snd]; unfold shelf; simpl; rewrite ?Ha, ?Hs, ?Hb;
      (split; [reflexivity |]); (split; [intros pid' H;
         destruct (decide (pid' = pid)) as [-> | Hne];
         [right; exists p; split; [left; reflexivity | exact Hid]
         | left; rewrite lookup_insert_ne in H; auto] |]).
    + intros f q H. left. exact H.
    + intros f q H.
      destruct (decide (f = brand_file_of p)) as [-> | Hne].
      * unfold brand_file_of in H at 1. rewrite lookup_insert_eq in H. simpl in H.
        apply (Permutation_in _ (sortByLaunchYear_perm _)) in H.
        apply in_app_iff in H as [H | [<- | []]]; [left; exact H |].
        right. split; [left; reflexivity | reflexivity].
      * left. rewrite lookup_insert_ne in H; [exact H |]. auto.
  - apply accounted_quiet. exact Hc.
  - destruct (is_block msg); apply accounted_quiet; exact Hc.
  - apply accounted_quiet. exact Hc.
  - apply accounted_quiet. exact Hc.
Qed.

Lemma accounted_save (W : world) (s : state) : accounted s KReturn (saveSeenProducts W s).2.
Proof.
  unfold saveSeenProducts. destruct (fs_write W _); apply accounted_nothing; reflexivity.
Qed.

Lemma accounted_scrapeCategories (W : world) (cats : list BrandCategory.t) (s : state) :
  accounted s (kind_of (scrapeCategories W cats s).1) (scrapeCategories W cats s).2.
Proof.
  apply (lift_scrapeCategories W accounted).
  - intros s0 k _. apply accounted_nothing; reflexivity.
  - apply accounted_trans.
  - intros s0 s1 k k' _ _ H. exact H.
  - intros bc s0. apply accounted_nothing; reflexivity.
  - intros url s0. apply accounted_quiet, getBrandProductLinks_quiet.
  - apply accounted_scrapeLink.
  - apply accounted_save.
Qed.

Lemma run_accounted (W : world) (cats : list BrandCategory.t) (s : state) :
  accounted (loaded s) KReturn (runIncrementalScraper W cats s).2.
Proof.
  rewrite runIncrementalScraper_unfold.
  pose proof (accounted_scrapeCategories W cats (loaded s)) as H.
  destruct (scrapeCategories W cats (loaded s)) as [[[] | msg | c |] s1];
    cbn [fst snd] in *; try exact H.
  eapply accounted_trans; [| exact H | apply accounted_save]. reflexivity.
Qed.

Lemma run_shelved (W : world) (cats : list BrandCategory.t) (s : state) :
  shelved W (loaded s) KReturn (runIncrementalScraper W cats s).2.
Proof.
  rewrite runIncrementalScraper_unfold.
  pose proof (shelved_scrapeCategories W cats (loaded s)) as H.
  destruct (scrapeCategories W cats (loaded s)) as [[[] | msg | c |] s1];
    cbn [fst snd] in *; try exact H.
  eapply shelved_trans; [| exact H |]; [reflexivity |].
  apply shelved_nothing; unfold saveSeenProducts; destruct (fs_write W _); reflexivity.
Qed.

Lemma json_products_In (files : list (string * list Product.t)) (p : Product.t) :
  In p (json_products files) <->
  exists f ps, In (f, ps) files /\ Str.endsWith ".json" f = true /\ In p ps.
Proof.
  unfold json_products. rewrite in_flat_map. split.
  - intros [[f ps] [Hin H]]. simpl in H.
    destruct (Str.endsWith ".json" f) eqn:He; [| destruct H]. exists f, ps. auto.
  - intros [f [ps [Hin [He Hp]]]]. exists (f, ps). simpl. rewrite He. auto.
Qed.

Lemma shelf_json_products (s : state) (p : Product.t) :
  In p (json_products (map_to_list (brand_files s))) <->
  exists f, Str.endsWith ".json" f = true /\ In p (shelf s f).
Proof.
  rewrite json_products_In. unfold shelf. split.
  - intros [f [ps [Hin [He Hp]]]]. exists f. split; [exact He |].
    apply list_elem_of_In, elem_of_map_to_list in Hin. rewrite Hin. exact Hp.
  - intros [f [He Hp]]. destruct (brand_files s !! f) as [ps |] eqn:Hf; [| destruct Hp].
    exists f, ps. split; [| auto]. apply list_elem_of_In, elem_of_map_to_list. exact Hf.
Qed.

Lemma NoDup_id_inj (l : list Product.t) (p q : Product.t) :
  NoDup (map Product.id l) -> In p l -> In q l -> Product.id p = Product.id q -> p = q.
Proof.
  induction l as [|x l IH]; intros Hn Hp Hq Hid; [destruct Hp |].
  simpl in Hn. apply NoDup_cons in Hn as [Hx Hn].
  destruct Hp as [<- | Hp], Hq as [<- | Hq]; auto.
  - exfalso. apply Hx. rewrite Hid. apply list_elem_of_In, in_map, Hq.
  - exfalso. apply Hx. rewrite <- Hid. apply list_elem_of_In, in_map, Hp.
Qed.

Lemma last_In {A} (l : list A) (x : A) : last l = Some x -> In x l.
Proof.
  intros H. apply last_Some in H as [l' ->]. apply in_app_iff. right. left. reflexivity.
Qed.

(** X21: after a run that started with no ledger and no brand files, on a
    disk that accepts every write, the rebuild script gets from the brand
    files exactly the identifiers of the ledger the run has in memory, also
    when the run left at the credit ceiling without a flush; the entry it
    rebuilds for an identifier comes from the product whose acceptance put
    that identifier into the ledger. *)
Theorem rebuild_recovers_the_ledger (W : world) (cats : list BrandCategory.t) :
  (forall n, fs_write W n = None) ->
  let r := runIncrementalScraper W cats (boot None ∅) in
  let rebuilt := rebuildSeenProducts (map_to_list (brand_files r.2)) in
  forall pid,
    (seenProducts r.2 !! pid = None <-> rebuilt !! pid = None) /\
    forall e,
      seenProducts r.2 !! pid = Some e ->
      exists p, In p (allScrapedProducts r.2) /\
                e = ledger_entry pid p /\
                rebuilt !! pid = Some (rebuild_entry pid p).
Proof.
  intros Hfs. cbv zeta.
  pose proof (run_tidy W cats None ∅) as [_ Hnodup Heach].
  destruct (run_accounted W cats (boot None ∅)) as [new [Ha [Hkeys Hshelf]]].
  destruct (run_shelved W cats (boot None ∅) Hfs) as [_ [new' [Ha' Hon]]].
  set (r := runIncrementalScraper W cats (boot None ∅)) in *.
  change (allScrapedProducts (loaded (boot None ∅)) ++ new) with new in Ha.
  change (allScrapedProducts (loaded (boot None ∅)) ++ new') with new' in Ha'.
  rewrite <- Ha in Hkeys, Hshelf. rewrite <- Ha' in Hon. clear new new' Ha Ha'.
  assert (Hfrom : forall q, In q (json_products (map_to_list (brand_files r.2))) ->
                            In q (allScrapedProducts r.2)).
  { intros q Hq. apply shelf_json_products in Hq as [f [_ Hq]].
    destruct (Hshelf f q Hq) as [H0 | [H _]]; [destruct H0 | exact H]. }
  assert (Hsome : forall pid e,
             seenProducts r.2 !! pid = Some e ->
             exists p, In p (allScrapedProducts r.2) /\
                       e = ledger_entry pid p /\
                       rebuildSeenProducts (map_to_list (brand_files r.2)) !! pid
                       = Some (rebuild_entry pid p)).
  { intros pid e He.
    destruct (Hkeys pid) as [H0 | [p [Hp Hid]]]; [congruence | destruct H0; reflexivity |].
    exists p. split; [exact Hp |].
    destruct (Heach p Hp) as [[_ [_ [_ Hurl]]] [_ [pid' [Hid' [_ Hentry]]]]].
    assert (pid' = pid) by congruence. subst pid'.
    split; [congruence |].
    rewrite rebuildSeenProducts_recipe.
    assert (Hne : Str.is_empty pid = false).
    { rewrite Hid in Hurl. symmetry in Hurl.
      apply extractProductId_shape in Hurl as [Hne _].
      destruct pid; [contradiction | reflexivity]. }
    rewrite Hne.
    assert (Hin : In p (with_id pid (json_products (map_to_list (brand_files r.2))))).
    { unfold with_id. apply filter_In. split; [| apply bool_decide_eq_true; exact Hid].
      apply shelf_json_products. exists (brand_file_of p).
      split; [apply brand_file_of_json | apply Hon; exact Hp]. }
    destruct (last (with_id pid (json_products (map_to_list (brand_files r.2)))))
      as [q |] eqn:Hlast.
    - apply last_In in Hlast. unfold with_id in Hlast.
      apply filter_In in Hlast as [Hq Hqid]. apply bool_decide_eq_true in Hqid.
      assert (q = p).
      { apply (NoDup_id_inj (allScrapedProducts r.2)); auto. congruence. }
      subst q. reflexivity.
    - apply last_None in Hlast. rewrite Hlast in Hin. destruct Hin. }
  intros pid. split; [| apply Hsome]. split.
  - intros Hnone. rewrite rebuildSeenProducts_recipe.
    destruct (Str.is_empty pid); [reflexivity |].
    destruct (last (with_id pid (json_products (map_to_list (brand_files r.2)))))
      as [q |] eqn:Hlast; [| reflexivity].
    exfalso. apply last_In in Hlast. unfold with_id in Hlast.
    apply filter_In in Hlast as [Hq Hqid]. apply bool_decide_eq_true in Hqid.
    destruct (Heach q (Hfrom q Hq)) as [_ [_ [pid' [Hid' [_ Hentry]]]]].
    congruence.
  - intros Hnone. destruct (seenProducts r.2 !! pid) as [e |] eqn:He; [| reflexivity].
    destruct (Hsome pid e He) as [p [_ [_ H]]]. congruence.
Qed.

Lemma rebuild_recovers_the_ledger_witness :
  let r := runIncrementalScraper Demo.shop [Demo.acme] (boot None ∅) in
  let rebuilt := rebuildSeenProducts (map_to_list (brand_files r.2)) in
  (seenProducts r.2 !! "1" = None <-> rebuilt !! "1" = None) /\
  forall e,
    seenProducts r.2 !! "1" = Some e ->
    exists p, In p (allScrapedProducts r.2) /\
              e = ledger_entry "1" p /\
              rebuilt !! "1" = Some (rebuild_entry "1" p).
Proof.
  apply (rebuild_recovers_the_ledger Demo.shop [Demo.acme]).
  intros n. reflexivity.
Defined.

(** ** The pages of a category *)

Lemma fetch_urls_emit (e : event) (s : state) :
  fetch_urls (trace (emit e s)) = fetch_urls (trace s) ++ fetch_urls [e].
Proof. simpl. apply fetch_urls_app. Qed.

Lemma listingPage_fetches (W : world) (m : BrandMatch.t) (page : nat)
      (l : list Link.t) (c : nat) (s : state) :
  let r := listingPage W m page l c s in
  fetch_urls (trace r.2) = fetch_urls (trace s) ++ [pageUrl m page] \/
  (fetch_urls (trace r.2) = fetch_urls (trace s) /\ forall x, r.1 <> Return (Continue x)).
Proof.
  cbv zeta. rewrite listingPage_unfold.
  pose proof (fetchWithScraperAPI_fetched W (pageUrl m page) false s) as Hf.
  assert (Hc : fetch_urls (trace (charged s)) = fetch_urls (trace s)).
  { unfold charged. rewrite fetch_urls_emit. simpl. apply app_nil_r. }
  assert (Hr : forall r, fetch_urls (trace (emit (EvFetch (pageUrl m page) r) (charged s)))
                         = fetch_urls (trace s) ++ [pageUrl m page]).
  { intros r. rewrite fetch_urls_emit, Hc. reflexivity. }
  destruct (fetchWithScraperAPI W (pageUrl m page) false s) as [o s1]. cbn [fst snd] in Hf.
  destruct Hf as [Hmax | Hlt Hkey | msg s' Hlt Hr' -> | data s' Hlt Hr' Hb ->
                  | data msg s' Hlt Hr' Hb -> | data s' Hlt Hkey Hr' Hb [-> | ->]].
  - right. split; [exact Hc | discriminate].
  - right. split; [exact Hc | discriminate].
  - left. unfold request_failed. destruct (is_block msg) eqn:Hm.
    + rewrite Hm. apply Hr.
    + destruct (is_block _); apply Hr.
  - left. destruct (is_block _); apply Hr.
  - left. unfold request_failed. destruct (is_block msg) eqn:Hm.
    + rewrite Hm. apply (Hr (Body data)).
    + destruct (is_block _); apply (Hr (Body data)).
  - left. apply Hr.
  - left. apply (Hr (Body data)).
Qed.

Lemma paginate_fetches (W : world) (fuel : nat) :
  forall (m : BrandMatch.t) (page : nat) (l : list Link.t) (c : nat) (s : state),
    let r := paginate W fuel m page l c s in
    exists k,
      fetch_urls (trace r.2) = fetch_urls (trace s) ++ map (pageUrl m) (seq page k) /\
      k <= creditsUsed r.2 - creditsUsed s <= S k.
Proof.
  induction fuel as [|fuel IH]; intros m page l c s; cbv zeta.
  { exists 0. simpl. rewrite app_nil_r. split; [reflexivity | lia]. }
  rewrite paginate_unfold.
  pose proof (listingPage_fetches W m page l c s) as Hf. cbv zeta in Hf.
  pose proof (listingPage_cases W m page l c s) as Hc. cbv zeta in Hc.
  destruct Hc as [_ [Hc _]].
  destruct (listingPage W m page l c s) as [[[[l' c'] | [l' c']] | msg | code |] s1];
    cbn [fst snd] in *.
  1, 3, 4, 5:
    destruct Hf as [Hf | [Hf _]];
    [exists 1; rewrite Hf; split; [reflexivity | lia]
    | exists 0; rewrite Hf; simpl; rewrite app_nil_r; split; [reflexivity | lia]].
  destruct Hf as [Hf | [_ Hf]]; [| exfalso; apply (Hf (l', c')); reflexivity].
  destruct (IH m (S page) l' c' s1) as [k [Ht Hk]]. cbv zeta in Ht, Hk.
  pose proof (paginate_quiet W fuel m (S page) l' c' s1) as [_ _ _ _ Hmono _].
  exists (S k). rewrite Ht, Hf, <- app_assoc. split; [reflexivity | lia].
Qed.

(** X22: the pagination of a category asks for the listing pages 1, 2, 3,
    ... in this order, each once and none skipped, and every page asked for
    costs one credit; at most one credit is charged beyond them (the request
    that never leaves: at the ceiling, or without a key). *)
Theorem pagination_requests_consecutive_pages
        (W : world) (brandUrl : string) (m : BrandMatch.t) (s : state) :
  matchBrandUrl brandUrl = Some m ->
  let r := getBrandProductLinks W brandUrl s in
  exists k,
    fetch_urls (trace r.2) = fetch_urls (trace s) ++ map (pageUrl m) (seq 1 k) /\
    k <= creditsUsed r.2 - creditsUsed s <= S k.
Proof.
  intros Hm. unfold getBrandProductLinks. rewrite Hm. apply paginate_fetches.
Qed.

Lemma pagination_requests_consecutive_pages_witness :
  let r := getBrandProductLinks Demo.shop Demo.acme_url (boot None ∅) in
  exists k,
    fetch_urls (trace r.2)
    = fetch_urls (trace (boot None ∅)) ++ map (pageUrl Demo.acme_match) (seq 1 k) /\
    k <= creditsUsed r.2 - creditsUsed (boot None ∅) <= S k.
Proof.
  apply (pagination_requests_consecutive_pages Demo.shop Demo.acme_url Demo.acme_match).
  vm_compute. reflexivity.
Defined.

(** ** The product page *)


(** ** The configured categories *)

(** the nineteen categories of [BRAND_CATEGORIES] have pairwise distinct
    names; the URL of each matches the listing pattern with the category's
    name as slug, and the first page requested for it is the configured URL
    itself *)
Example configured_categories_are_well_formed :
  length BRAND_CATEGORIES = 19 /\
  NoDup (map BrandCategory.name BRAND_CATEGORIES) /\
  forall bc, In bc BRAND_CATEGORIES ->
    exists m,
      matchBrandUrl (BrandCategory.url bc) = Some m /\
      BrandMatch.slug m = BrandCategory.name bc /\
      pageUrl m 1 = BrandCategory.url bc.
Proof.
  split; [reflexivity |]. split.
  - apply (bool_decide_eq_true_1 (NoDup (map BrandCategory.name BRAND_CATEGORIES))).
    vm_compute. reflexivity.
  - assert (H : forallb
                  (fun bc =>
                     match matchBrandUrl (BrandCategory.url bc) with
                     | Some m =>
                         String.eqb (BrandMatch.slug m) (BrandCategory.name bc)
                         && String.eqb (pageUrl m 1) (BrandCategory.url bc)
                     | None => false
                     end) BRAND_CATEGORIES = true) by (vm_compute; reflexivity).
    rewrite forallb_forall in H. intros bc Hin. specialize (H bc Hin).
    destruct (matchBrandUrl (BrandCategory.url bc)) as [m |]; [| discriminate H].
    apply andb_true_iff in H as [H1 H2].
    apply String.eqb_eq in H1, H2. exists m. auto.
Qed.

(** ** Credits and requests, with a key *)

Lemma paid_nothing (W : world) (s s' : state) :
  fetch_urls (trace s') = fetch_urls (trace s) -> creditsUsed s' = creditsUsed s ->
  paid W s KReturn s'.
Proof. intros Ht Hc _. unfold requests. rewrite Ht, Hc. simpl. lia. Qed.

Lemma paid_refl (W : world) (s : state) (k : kind) : is_exit k = false -> paid W s k s.
Proof. intros H _. destruct k; try discriminate H; simpl; lia. Qed.

Lemma paid_trans (W : world) (s s1 s2 : state) (k1 k : kind) :
  is_exit k1 = false -> paid W s k1 s1 -> paid W s1 k s2 -> paid W s k s2.
Proof.
  intros Hk H1 H2 Hkey. specialize (H1 Hkey). specialize (H2 Hkey).
  destruct k1; try discriminate Hk; simpl in H1; lia.
Qed.

Lemma paid_kind (W : world) (s s1 : state) (k k' : kind) :
  is_exit k = false -> is_exit k' = false -> paid W s k s1 -> paid W s k' s1.
Proof.
  intros Hk Hk' H Hkey. specialize (H Hkey).
  destruct k, k'; try discriminate Hk; try discriminate Hk'; simpl in *; lia.
Qed.

Lemma paid_fetch (W : world) (url : string) (b : bool) (s : state) :
  paid W s (kind_of (fetchWithScraperAPI W url b s).1) (fetchWithScraperAPI W url b s).2.
Proof.
  intros Hkey.
  pose proof (fetchWithScraperAPI_fetched W url b s) as Hf.
  destruct (fetchWithScraperAPI W url b s) as [o s1]. cbn [fst snd] in *.
  assert (Hc : requests (charged s) = requests s).
  { unfold charged. rewrite requests_emit. unfold requests. simpl. lia. }
  assert (Hr : forall r, requests (emit (EvFetch url r) (charged s)) = S (requests s)).
  { intros r. rewrite requests_emit, Hc. simpl. lia. }
  destruct Hf as [Hmax | Hlt Hkey' | msg s' Hlt Hr' -> | data s' Hlt Hr' Hb ->
                  | data msg s' Hlt Hr' Hb -> | data s' Hlt Hkey' Hr' Hb [-> | ->]];
    try congruence;
    simpl kind_of; cbn [unserved];
    try (unfold request_failed; destruct (is_block msg); simpl kind_of; cbn [unserved]);
    try (change (requests (tick_fs ?x)) with (requests x));
    rewrite ?Hr, ?Hc; simpl creditsUsed; lia.
Qed.

Lemma paid_scrapeCategories (W : world) (cats : list BrandCategory.t) (s : state) :
  paid W s (kind_of (scrapeCategories W cats s).1) (scrapeCategories W cats s).2.
Proof.
  assert (Hpush : forall p s0,
             paid W s0 KReturn
                  (appendScrapedProduct W p
                     (set_allScrapedProducts (allScrapedProducts s0 ++ [p]) s0)).2).
  { intros p s0. unfold appendScrapedProduct.
    destruct (fs_write W _); apply paid_nothing; simpl;
      rewrite ?fetch_urls_app; simpl; rewrite ?app_nil_r; reflexivity. }
  assert (Hsave : forall s0, paid W s0 KReturn (saveSeenProducts W s0).2).
  { intros s0. unfold saveSeenProducts.
    destruct (fs_write W _); apply paid_nothing; simpl;
      rewrite ?fetch_urls_app; simpl; rewrite ?app_nil_r; reflexivity. }
  apply (lift_scrapeCategories W (paid W) (paid_refl W) (paid_trans W) (paid_kind W)).
  - intros bc s0. apply paid_nothing; simpl;
      rewrite ?fetch_urls_app; simpl; rewrite ?app_nil_r; reflexivity.
  - apply (leaf_getBrandProductLinks W (paid W) (paid_refl W) (paid_trans W) (paid_kind W)
             (paid_fetch W)).
  - apply (leaf_scrapeLink W (paid W) (paid_refl W) (paid_trans W) (paid_kind W)
             (paid_fetch W)); [| exact Hpush].
    intros pid e s0. apply paid_nothing; simpl;
      rewrite ?fetch_urls_app; simpl; rewrite ?app_nil_r; reflexivity.
  - exact Hsave.
Qed.

(** X24: a process started afresh leaves at once, with status 1 and nothing
    charged, when the key is missing; with the key the counter
    [creditsUsed] is at every end of the process the number of requests
    sent, plus one when the process left at the ceiling. *)
Theorem main_counts_requests
        (W : world) (cats : list BrandCategory.t)
        (file : option ledger) (brands : gmap string (list Product.t)) :
  let r := main W cats (boot file brands) in
  (api_key_set W = false -> r = (ProcessExit 1, boot file brands)) /\
  creditsUsed r.2 = match r.1 with
                    | ProcessExit 0 => S (requests r.2)
                    | _ => requests r.2
                    end.
Proof.
  cbv zeta. unfold main. destruct (api_key_set W) eqn:Hkey; cbn [negb].
  2: { split; reflexivity. }
  split; [discriminate |].
  rewrite runIncrementalScraper_unfold.
  pose proof (paid_scrapeCategories W cats (loaded (boot file brands)) Hkey) as H.
  change (requests (loaded (boot file brands))) with 0 in H.
  change (creditsUsed (loaded (boot file brands))) with 0 in H.
  assert (Hc : creditsUsed (loaded (boot file brands)) < MAX_CREDITS)
    by (unfold MAX_CREDITS; simpl; lia).
  pose proof (scrapeCategories_budgeted W cats _ Hc) as Hb.
  destruct (scrapeCategories W cats (loaded (boot file brands))) as [[[] | msg | c |] s1];
    cbn [fst snd kind_of unserved] in *.
  - lia.
  - assert (Hs : requests (saveSeenProducts W s1).2 = requests s1
                 /\ creditsUsed (saveSeenProducts W s1).2 = creditsUsed s1).
    { unfold saveSeenProducts, requests.
      destruct (fs_write W _); simpl; rewrite fetch_urls_app; simpl;
        rewrite app_nil_r; auto. }
    destruct Hs as [-> ->]. lia.
  - destruct Hb as [-> _]. simpl in H. lia.
  - destruct Hb.
Qed.

(** ** The run that meets a Block *)

Lemma run_tidy_from (W : world) (cats : list BrandCategory.t) (s : state) :
  tidy (default ∅ (state_file s)) (runIncrementalScraper W cats s).2.
Proof.
  rewrite runIncrementalScraper_unfold.
  assert (H0 : tidy (default ∅ (state_file s)) (loaded s)).
  { split; simpl; [reflexivity | constructor | intros p []]. }
  pose proof (keeps_tidy_scrapeCategories W (default ∅ (state_file s)) cats _ H0) as H.
  destruct (scrapeCategories W cats (loaded s)) as [[[] | msg | c |] s1];
    cbn [fst snd] in *; try exact H.
  destruct (saveSeenProducts_cases W s1) as [ok [s' [-> [_ [Hs [_ [Ha _]]]]]]].
  cbn [snd]. eapply tidy_grow; [| exact Ha | exact H]. rewrite Hs. reflexivity.
Qed.

Lemma run_delivered (W : world) (cats : list BrandCategory.t) (s : state) :
  delivered (loaded s) KReturn (runIncrementalScraper W cats s).2.
Proof.
  rewrite runIncrementalScraper_unfold.
  pose proof (delivered_scrapeCategories W cats (loaded s)) as H.
  destruct (scrapeCategories W cats (loaded s)) as [[[] | msg | c |] s1];
    cbn [fst snd] in *; try exact H.
  eapply delivered_trans; [| exact H | apply delivered_save]. reflexivity.
Qed.

(** C2: once a response body shows a block indicator, the category loop
    ends by throwing a Block error and the process leaves with status 1.
    Nothing is requested or charged after that response: the only thing
    still done is the final flush, and the ledger file holds the ledger
    exactly when that write succeeds.  The items accepted are those handed
    over before the blocking request, and the ledger flushed holds the
    entries loaded at start and, for each accepted item, the entry of its
    acceptance, and nothing else. *)
Theorem block_ends_the_run_after_a_flush
        (W : world) (cats : list BrandCategory.t) (s : state)
        (pre post : list event) (url data : string) :
  let r := runIncrementalScraper W cats s in
  let c := scrapeCategories W cats (loaded s) in
  let loadedLedger := default (∅ : ledger) (state_file s) in
  trace r.2 = trace s ++ pre ++ EvFetch url (Body data) :: post ->
  isBlocked data = true ->
  r.1 = ProcessExit 1 /\
  exit_status r.1 = Some 1%Z /\
  (exists message, c.1 = Throw message /\ is_block message = true) /\
  post = [EvSaveSeen (seenProducts r.2)
                     match fs_write W (fs_ops c.2) with
                     | None => true
                     | Some _ => false
                     end] /\
  state_file r.2 = match fs_write W (fs_ops c.2) with
                   | None => Some (seenProducts r.2)
                   | Some _ => state_file c.2
                   end /\
  seenProducts r.2 = replay pre loadedLedger /\
  allScrapedProducts r.2 = appended pre /\
  loadedLedger ⊆ seenProducts r.2 /\
  (forall p,
      In p (allScrapedProducts r.2) ->
      exists pid,
        Product.id p = Some pid /\
        loadedLedger !! pid = None /\
        seenProducts r.2 !! pid = Some (ledger_entry pid p)) /\
  (forall pid,
      seenProducts r.2 !! pid <> None ->
      loadedLedger !! pid <> None \/
      exists p, In p (allScrapedProducts r.2) /\ Product.id p = Some pid).
Proof.
  cbv zeta. intros Ht Hblocked.
  pose proof (run_tidy_from W cats s) as [Hl _ Heach].
  destruct (run_accounted W cats s) as [new [Ha [Hkeys _]]].
  destruct (run_delivered W cats s) as [new' [Ha' Hd]].
  change (allScrapedProducts (loaded s) ++ new) with new in Ha.
  change (allScrapedProducts (loaded s) ++ new') with new' in Ha'.
  change (appended (trace (loaded s))) with (appended (trace s)) in Hd.
  change (seenProducts (loaded s)) with (default (∅ : ledger) (state_file s)) in Hkeys.
  rewrite <- Ha in Hkeys. rewrite <- Ha' in Hd. clear new new' Ha Ha'.
  assert (Hledger :
            (forall p,
                In p (allScrapedProducts (runIncrementalScraper W cats s).2) ->
                exists pid,
                  Product.id p = Some pid /\
                  default (∅ : ledger) (state_file s) !! pid = None /\
                  seenProducts (runIncrementalScraper W cats s).2 !! pid
                  = Some (ledger_entry pid p))).
  { intros p Hp. destruct (Heach p Hp) as [_ [_ H]]. exact H. }
  clear Heach.
  assert (Hfatal : fatal (EvFetch url (Body data)) = true) by exact Hblocked.
  assert (Hmain :
            (runIncrementalScraper W cats s).1 = ProcessExit 1 /\
            (exists message,
                (scrapeCategories W cats (loaded s)).1 = Throw message /\
                is_block message = true) /\
            post = [EvSaveSeen (seenProducts (runIncrementalScraper W cats s).2)
                               match fs_write W (fs_ops (scrapeCategories W cats (loaded s)).2) with
                               | None => true
                               | Some _ => false
                               end] /\
            state_file (runIncrementalScraper W cats s).2
            = match fs_write W (fs_ops (scrapeCategories W cats (loaded s)).2) with
              | None => Some (seenProducts (runIncrementalScraper W cats s).2)
              | Some _ => state_file (scrapeCategories W cats (loaded s)).2
              end /\
            seenProducts (runIncrementalScraper W cats s).2
            = replay pre (default (∅ : ledger) (state_file s))).
  { clear Hl Hkeys Hd Hledger. revert Ht. rewrite runIncrementalScraper_unfold.
    destruct (scrapeCategories_obeys W cats (loaded s)) as [t [Htr Hrp _ Hfl]].
    change (trace (loaded s)) with (trace s) in Htr.
    change (seenProducts (loaded s)) with (default (∅ : ledger) (state_file s)) in Hrp.
    destruct (scrapeCategories W cats (loaded s)) as [[[] | msg | c |] s1];
      cbn [fst snd] in *; intros Ht.
    - exfalso. rewrite Htr in Ht. apply app_inv_head in Ht.
      destruct (Hfl _ _ _ Ht Hfatal) as [_ [m [Hk _]]]. discriminate Hk.
    - assert (Hsave :
                trace (saveSeenProducts W s1).2
                = trace s1 ++ [EvSaveSeen (seenProducts s1)
                                          match fs_write W (fs_ops s1) with
                                          | None => true
                                          | Some _ => false
                                          end] /\
                seenProducts (saveSeenProducts W s1).2 = seenProducts s1 /\
                state_file (saveSeenProducts W s1).2
                = match fs_write W (fs_ops s1) with
                  | None => Some (seenProducts s1)
                  | Some _ => state_file s1
                  end).
      { unfold saveSeenProducts. destruct (fs_write W (fs_ops s1)); repeat split. }
      destruct Hsave as [Ht2 [Hseen Hfile]].
      rewrite Ht2, Htr, <- app_assoc in Ht. apply app_inv_head in Ht.
      destruct (app_cons_split _ _ _ _ _ Ht) as [[p1 [Hp1 Hpost]] | [p2 [_ Hp2]]].
      + destruct (Hfl _ _ _ Hp1 Hfatal) as [-> [m [Hk Hm]]]. injection Hk as <-.
        split; [reflexivity |]. split; [exists msg; split; [reflexivity | exact Hm] |].
        rewrite Hseen. split; [exact Hpost |]. split; [exact Hfile |].
        rewrite Hrp, Hp1. apply replay_fetch.
      + apply single_split in Hp2 as [_ [Hp2 _]]. discriminate Hp2.
    - exfalso. rewrite Htr in Ht. apply app_inv_head in Ht.
      destruct (Hfl _ _ _ Ht Hfatal) as [_ [m [Hk _]]]. discriminate Hk.
    - exfalso. rewrite Htr in Ht. apply app_inv_head in Ht.
      destruct (Hfl _ _ _ Ht Hfatal) as [_ [m [Hk _]]]. discriminate Hk. }
  destruct Hmain as [Hexit [Hthrow [Hpost [Hfile Hreplay]]]].
  assert (Hall : allScrapedProducts (runIncrementalScraper W cats s).2 = appended pre).
  { rewrite Ht, Hpost, !appended_app in Hd. simpl in Hd. rewrite app_nil_r in Hd.
    apply app_inv_head in Hd. symmetry. exact Hd. }
  split; [exact Hexit |]. split; [rewrite Hexit; reflexivity |].
  split; [exact Hthrow |]. split; [exact Hpost |]. split; [exact Hfile |].
  split; [exact Hreplay |]. split; [exact Hall |]. split; [exact Hl |].
  split; [exact Hledger | exact Hkeys].
Qed.

(** the theorem on the guarded shop: the Block comes with the fourth
    request, after one item was accepted; its entry is in the file *)
Lemma block_witness :
  let r := runIncrementalScraper Demo.guarded [Demo.acme] (boot None ∅) in
  r.1 = ProcessExit 1 /\
  state_file r.2 = Some (seenProducts r.2) /\
  allScrapedProducts r.2 = appended (take 10 (trace r.2)) /\
  length (allScrapedProducts r.2) = 1 /\
  size (seenProducts r.2) = 1.
Proof.
  cbv zeta.
  destruct (block_ends_the_run_after_a_flush
              Demo.guarded [Demo.acme] (boot None ∅)
              (take 10 (trace (runIncrementalScraper Demo.guarded [Demo.acme] (boot None ∅)).2))
              (drop 11 (trace (runIncrementalScraper Demo.guarded [Demo.acme] (boot None ∅)).2))
              "https://www.gsmarena.com/b-2.php" "Access Denied")
    as [H1 [_ [_ [_ [Hfile [_ [Hall _]]]]]]].
  - vm_compute. reflexivity.
  - vm_compute. reflexivity.
  - split; [exact H1 |]. split; [exact Hfile |]. split; [exact Hall |].
    split; vm_compute; reflexivity.
Defined.
